(** * ado_lang_inspector: language inventory of an Azure DevOps tenant

    A shallow embedding of [src/ado_lang_inspector.py] and the properties
    of its classifier, recency filter and aggregation loop.

    Conventions of the embedding
    - Python [str] is [string], holding the UTF-8 bytes of the text;
      [str.lower] is the Unicode mapping of CPython ([Unicode]).
    - Python [dict]/[Counter] objects whose iteration order is observed are
      association lists in insertion order; Python [set] is [gset].
    - Byte sizes are [N]: a blob size is a non-negative integer.
    - Raising is an explicit [result]; [main] threads its local variables
      ([per_repo_rows], the two tenant counters, the two console streams)
      through the loops as a record.
    - For the traversal of [main] the remote service is a record of
      responses ([Tenant]); the request loops that collect such responses,
      [paged] and [list_commits], are in [Client], over a transport that
      answers URLs. *)

From Stdlib Require Import ZArith NArith QArith Qabs Qpower Lia Lqa List Ascii String Sorted Permutation.
From stdpp Require Import base gmap strings list pretty.

Local Open Scope string_scope.
Local Open Scope list_scope.

(** ** Exceptions and the error monad *)

Inductive exn : Type :=
  | HTTPError (msg : string)
  | ConnectionError (msg : string)
  | TypeError (msg : string)
  | ZeroDivisionError (msg : string).

Inductive result (A : Type) : Type :=
  | Ok (a : A)
  | Raise (e : exn).
Arguments Ok {A} a.
Arguments Raise {A} e.

Definition rbind {A B} (r : result A) (k : A -> result B) : result B :=
  match r with
  | Ok a => k a
  | Raise e => Raise e
  end.

Notation "x <-- r ;; k" := (rbind r (fun x => k))
  (at level 100, r at next level, right associativity).

(** ** Unicode case mapping

    A Python [str] is a sequence of code points; a [string] here holds
    its UTF-8 bytes (a lone surrogate as its three-byte form).  The case
    mapping of [str.lower] works on code points, so the bytes are read as
    code points, mapped, and written as bytes again.  A byte that begins
    no well-formed sequence belongs to no Python string; it is kept as
    it is.  The tables are those of Unicode 14.0.0, the version that
    CPython 3.11 carries. *)

Module Unicode.

Local Open Scope N_scope.

Inductive item : Type :=
  | Point (c : N)
  | Stray (a : ascii).

(** The six payload bits of a continuation byte [10xxxxxx]. *)
Definition payload (a : ascii) : option N :=
  let n := N_of_ascii a in
  if (128 <=? n) && (n <? 192) then Some (n - 128) else None.

(** The code point at the head of [s] and the number of bytes it takes;
    over-long forms and values past U+10FFFF are not code points. *)
Definition read (s : string) : option (N * nat) :=
  match s with
  | EmptyString => None
  | String a r =>
      let n := N_of_ascii a in
      if n <? 128 then Some (n, 1%nat)
      else if n <? 192 then None
      else if n <? 224 then
        match r with
        | String b _ =>
            match payload b with
            | Some x =>
                let c := (n - 192) * 64 + x in
                if 128 <=? c then Some (c, 2%nat) else None
            | None => None
            end
        | _ => None
        end
      else if n <? 240 then
        match r with
        | String b (String b' _) =>
            match payload b, payload b' with
            | Some x, Some y =>
                let c := (n - 224) * 4096 + x * 64 + y in
                if 2048 <=? c then Some (c, 3%nat) else None
            | _, _ => None
            end
        | _ => None
        end
      else
        match r with
        | String b (String b' (String b'' _)) =>
            match payload b, payload b', payload b'' with
            | Some x, Some y, Some z =>
                let c := (n - 240) * 262144 + x * 4096 + y * 64 + z in
                if (65536 <=? c) && (c <? 1114112) then Some (c, 4%nat) else None
            | _, _, _ => None
            end
        | _ => None
        end
  end.

(** [skip] counts the continuation bytes already read with their leading
    byte. *)
Fixpoint decode_from (skip : nat) (s : string) : list item :=
  match s with
  | EmptyString => []
  | String a r =>
      match skip with
      | S k => decode_from k r
      | O =>
          match read s with
          | Some (c, width) => Point c :: decode_from (Nat.pred width) r
          | None => Stray a :: decode_from 0 r
          end
      end
  end.

Definition decode (s : string) : list item := decode_from 0 s.

Definition utf8 (c : N) : string :=
  if c <? 128 then String (ascii_of_N c) ""
  else if c <? 2048 then
    String (ascii_of_N (192 + c / 64)) (String (ascii_of_N (128 + c mod 64)) "")
  else if c <? 65536 then
    String (ascii_of_N (224 + c / 4096))
      (String (ascii_of_N (128 + (c / 64) mod 64))
         (String (ascii_of_N (128 + c mod 64)) ""))
  else
    String (ascii_of_N (240 + c / 262144))
      (String (ascii_of_N (128 + (c / 4096) mod 64))
         (String (ascii_of_N (128 + (c / 64) mod 64))
            (String (ascii_of_N (128 + c mod 64)) ""))).

Definition encode_item (i : item) : string :=
  match i with
  | Point c => utf8 c
  | Stray a => String a ""
  end.

Fixpoint encode (l : list item) : string :=
  match l with
  | [] => ""
  | i :: r => (encode_item i ++ encode r)%string
  end.

(** The simple lower-case mapping: [(first, last, step, target)] sends
    [first + k * step], up to [last], to [target + k * step]. *)
Definition lower_ranges : list (N * N * N * N) := [
  (0x41, 0x5A, 1, 0x61); (0xC0, 0xD6, 1, 0xE0); (0xD8, 0xDE, 1, 0xF8);
  (0x100, 0x12E, 2, 0x101); (0x132, 0x136, 2, 0x133); (0x139, 0x147, 2, 0x13A);
  (0x14A, 0x176, 2, 0x14B); (0x178, 0x178, 1, 0xFF); (0x179, 0x17D, 2, 0x17A);
  (0x181, 0x181, 1, 0x253); (0x182, 0x184, 2, 0x183); (0x186, 0x186, 1, 0x254);
  (0x187, 0x187, 1, 0x188); (0x189, 0x18A, 1, 0x256); (0x18B, 0x18B, 1, 0x18C);
  (0x18E, 0x18E, 1, 0x1DD); (0x18F, 0x18F, 1, 0x259); (0x190, 0x190, 1, 0x25B);
  (0x191, 0x191, 1, 0x192); (0x193, 0x193, 1, 0x260); (0x194, 0x194, 1, 0x263);
  (0x196, 0x196, 1, 0x269); (0x197, 0x197, 1, 0x268); (0x198, 0x198, 1, 0x199);
  (0x19C, 0x19C, 1, 0x26F); (0x19D, 0x19D, 1, 0x272); (0x19F, 0x19F, 1, 0x275);
  (0x1A0, 0x1A4, 2, 0x1A1); (0x1A6, 0x1A6, 1, 0x280); (0x1A7, 0x1A7, 1, 0x1A8);
  (0x1A9, 0x1A9, 1, 0x283); (0x1AC, 0x1AC, 1, 0x1AD); (0x1AE, 0x1AE, 1, 0x288);
  (0x1AF, 0x1AF, 1, 0x1B0); (0x1B1, 0x1B2, 1, 0x28A); (0x1B3, 0x1B5, 2, 0x1B4);
  (0x1B7, 0x1B7, 1, 0x292); (0x1B8, 0x1B8, 1, 0x1B9); (0x1BC, 0x1BC, 1, 0x1BD);
  (0x1C4, 0x1C4, 1, 0x1C6); (0x1C5, 0x1C5, 1, 0x1C6); (0x1C7, 0x1C7, 1, 0x1C9);
  (0x1C8, 0x1C8, 1, 0x1C9); (0x1CA, 0x1CA, 1, 0x1CC); (0x1CB, 0x1DB, 2, 0x1CC);
  (0x1DE, 0x1EE, 2, 0x1DF); (0x1F1, 0x1F1, 1, 0x1F3); (0x1F2, 0x1F4, 2, 0x1F3);
  (0x1F6, 0x1F6, 1, 0x195); (0x1F7, 0x1F7, 1, 0x1BF); (0x1F8, 0x21E, 2, 0x1F9);
  (0x220, 0x220, 1, 0x19E); (0x222, 0x232, 2, 0x223); (0x23A, 0x23A, 1, 0x2C65);
  (0x23B, 0x23B, 1, 0x23C); (0x23D, 0x23D, 1, 0x19A); (0x23E, 0x23E, 1, 0x2C66);
  (0x241, 0x241, 1, 0x242); (0x243, 0x243, 1, 0x180); (0x244, 0x244, 1, 0x289);
  (0x245, 0x245, 1, 0x28C); (0x246, 0x24E, 2, 0x247); (0x370, 0x372, 2, 0x371);
  (0x376, 0x376, 1, 0x377); (0x37F, 0x37F, 1, 0x3F3); (0x386, 0x386, 1, 0x3AC);
  (0x388, 0x38A, 1, 0x3AD); (0x38C, 0x38C, 1, 0x3CC); (0x38E, 0x38F, 1, 0x3CD);
  (0x391, 0x3A1, 1, 0x3B1); (0x3A3, 0x3AB, 1, 0x3C3); (0x3CF, 0x3CF, 1, 0x3D7);
  (0x3D8, 0x3EE, 2, 0x3D9); (0x3F4, 0x3F4, 1, 0x3B8); (0x3F7, 0x3F7, 1, 0x3F8);
  (0x3F9, 0x3F9, 1, 0x3F2); (0x3FA, 0x3FA, 1, 0x3FB); (0x3FD, 0x3FF, 1, 0x37B);
  (0x400, 0x40F, 1, 0x450); (0x410, 0x42F, 1, 0x430); (0x460, 0x480, 2, 0x461);
  (0x48A, 0x4BE, 2, 0x48B); (0x4C0, 0x4C0, 1, 0x4CF); (0x4C1, 0x4CD, 2, 0x4C2);
  (0x4D0, 0x52E, 2, 0x4D1); (0x531, 0x556, 1, 0x561); (0x10A0, 0x10C5, 1, 0x2D00);
  (0x10C7, 0x10C7, 1, 0x2D27); (0x10CD, 0x10CD, 1, 0x2D2D); (0x13A0, 0x13EF, 1, 0xAB70);
  (0x13F0, 0x13F5, 1, 0x13F8); (0x1C90, 0x1CBA, 1, 0x10D0); (0x1CBD, 0x1CBF, 1, 0x10FD);
  (0x1E00, 0x1E94, 2, 0x1E01); (0x1E9E, 0x1E9E, 1, 0xDF); (0x1EA0, 0x1EFE, 2, 0x1EA1);
  (0x1F08, 0x1F0F, 1, 0x1F00); (0x1F18, 0x1F1D, 1, 0x1F10); (0x1F28, 0x1F2F, 1, 0x1F20);
  (0x1F38, 0x1F3F, 1, 0x1F30); (0x1F48, 0x1F4D, 1, 0x1F40); (0x1F59, 0x1F5F, 2, 0x1F51);
  (0x1F68, 0x1F6F, 1, 0x1F60); (0x1F88, 0x1F8F, 1, 0x1F80); (0x1F98, 0x1F9F, 1, 0x1F90);
  (0x1FA8, 0x1FAF, 1, 0x1FA0); (0x1FB8, 0x1FB9, 1, 0x1FB0); (0x1FBA, 0x1FBB, 1, 0x1F70);
  (0x1FBC, 0x1FBC, 1, 0x1FB3); (0x1FC8, 0x1FCB, 1, 0x1F72); (0x1FCC, 0x1FCC, 1, 0x1FC3);
  (0x1FD8, 0x1FD9, 1, 0x1FD0); (0x1FDA, 0x1FDB, 1, 0x1F76); (0x1FE8, 0x1FE9, 1, 0x1FE0);
  (0x1FEA, 0x1FEB, 1, 0x1F7A); (0x1FEC, 0x1FEC, 1, 0x1FE5); (0x1FF8, 0x1FF9, 1, 0x1F78);
  (0x1FFA, 0x1FFB, 1, 0x1F7C); (0x1FFC, 0x1FFC, 1, 0x1FF3); (0x2126, 0x2126, 1, 0x3C9);
  (0x212A, 0x212A, 1, 0x6B); (0x212B, 0x212B, 1, 0xE5); (0x2132, 0x2132, 1, 0x214E);
  (0x2160, 0x216F, 1, 0x2170); (0x2183, 0x2183, 1, 0x2184); (0x24B6, 0x24CF, 1, 0x24D0);
  (0x2C00, 0x2C2F, 1, 0x2C30); (0x2C60, 0x2C60, 1, 0x2C61); (0x2C62, 0x2C62, 1, 0x26B);
  (0x2C63, 0x2C63, 1, 0x1D7D); (0x2C64, 0x2C64, 1, 0x27D); (0x2C67, 0x2C6B, 2, 0x2C68);
  (0x2C6D, 0x2C6D, 1, 0x251); (0x2C6E, 0x2C6E, 1, 0x271); (0x2C6F, 0x2C6F, 1, 0x250);
  (0x2C70, 0x2C70, 1, 0x252); (0x2C72, 0x2C72, 1, 0x2C73); (0x2C75, 0x2C75, 1, 0x2C76);
  (0x2C7E, 0x2C7F, 1, 0x23F); (0x2C80, 0x2CE2, 2, 0x2C81); (0x2CEB, 0x2CED, 2, 0x2CEC);
  (0x2CF2, 0x2CF2, 1, 0x2CF3); (0xA640, 0xA66C, 2, 0xA641); (0xA680, 0xA69A, 2, 0xA681);
  (0xA722, 0xA72E, 2, 0xA723); (0xA732, 0xA76E, 2, 0xA733); (0xA779, 0xA77B, 2, 0xA77A);
  (0xA77D, 0xA77D, 1, 0x1D79); (0xA77E, 0xA786, 2, 0xA77F); (0xA78B, 0xA78B, 1, 0xA78C);
  (0xA78D, 0xA78D, 1, 0x265); (0xA790, 0xA792, 2, 0xA791); (0xA796, 0xA7A8, 2, 0xA797);
  (0xA7AA, 0xA7AA, 1, 0x266); (0xA7AB, 0xA7AB, 1, 0x25C); (0xA7AC, 0xA7AC, 1, 0x261);
  (0xA7AD, 0xA7AD, 1, 0x26C); (0xA7AE, 0xA7AE, 1, 0x26A); (0xA7B0, 0xA7B0, 1, 0x29E);
  (0xA7B1, 0xA7B1, 1, 0x287); (0xA7B2, 0xA7B2, 1, 0x29D); (0xA7B3, 0xA7B3, 1, 0xAB53);
  (0xA7B4, 0xA7C2, 2, 0xA7B5); (0xA7C4, 0xA7C4, 1, 0xA794); (0xA7C5, 0xA7C5, 1, 0x282);
  (0xA7C6, 0xA7C6, 1, 0x1D8E); (0xA7C7, 0xA7C9, 2, 0xA7C8); (0xA7D0, 0xA7D0, 1, 0xA7D1);
  (0xA7D6, 0xA7D8, 2, 0xA7D7); (0xA7F5, 0xA7F5, 1, 0xA7F6); (0xFF21, 0xFF3A, 1, 0xFF41);
  (0x10400, 0x10427, 1, 0x10428); (0x104B0, 0x104D3, 1, 0x104D8); (0x10570, 0x10594, 2, 0x10597);
  (0x10571, 0x1057A, 1, 0x10598); (0x1057C, 0x1058A, 1, 0x105A3); (0x1058C, 0x10592, 1, 0x105B3);
  (0x10594, 0x10595, 1, 0x105BB); (0x10C80, 0x10CB2, 1, 0x10CC0); (0x118A0, 0x118BF, 1, 0x118C0);
  (0x16E40, 0x16E5F, 1, 0x16E60); (0x1E900, 0x1E921, 1, 0x1E922)
]%N.

Fixpoint simple_lower_in (t : list (N * N * N * N)) (c : N) : N :=
  match t with
  | [] => c
  | (first, last, step, target) :: t' =>
      if (first <=? c) && (c <=? last) && ((c - first) mod step =? 0)
      then target + (c - first)
      else simple_lower_in t' c
  end.

(** The full mapping: U+0130 alone lower-cases to two code points. *)
Definition to_lower (c : N) : list N :=
  if c =? 0x130 then [0x69; 0x307] else [simple_lower_in lower_ranges c].

(** The properties Cased and Case_Ignorable, as ranges of code points. *)
Definition cased_ranges : list (N * N) := [
  (0x41, 0x5A); (0x61, 0x7A); (0xAA, 0xAA); (0xB5, 0xB5); (0xBA, 0xBA);
  (0xC0, 0xD6); (0xD8, 0xF6); (0xF8, 0x1BA); (0x1BC, 0x1BF); (0x1C4, 0x293);
  (0x295, 0x2B8); (0x2C0, 0x2C1); (0x2E0, 0x2E4); (0x345, 0x345); (0x370, 0x373);
  (0x376, 0x377); (0x37A, 0x37D); (0x37F, 0x37F); (0x386, 0x386); (0x388, 0x38A);
  (0x38C, 0x38C); (0x38E, 0x3A1); (0x3A3, 0x3F5); (0x3F7, 0x481); (0x48A, 0x52F);
  (0x531, 0x556); (0x560, 0x588); (0x10A0, 0x10C5); (0x10C7, 0x10C7); (0x10CD, 0x10CD);
  (0x10D0, 0x10FA); (0x10FD, 0x10FF); (0x13A0, 0x13F5); (0x13F8, 0x13FD); (0x1C80, 0x1C88);
  (0x1C90, 0x1CBA); (0x1CBD, 0x1CBF); (0x1D00, 0x1DBF); (0x1E00, 0x1F15); (0x1F18, 0x1F1D);
  (0x1F20, 0x1F45); (0x1F48, 0x1F4D); (0x1F50, 0x1F57); (0x1F59, 0x1F59); (0x1F5B, 0x1F5B);
  (0x1F5D, 0x1F5D); (0x1F5F, 0x1F7D); (0x1F80, 0x1FB4); (0x1FB6, 0x1FBC); (0x1FBE, 0x1FBE);
  (0x1FC2, 0x1FC4); (0x1FC6, 0x1FCC); (0x1FD0, 0x1FD3); (0x1FD6, 0x1FDB); (0x1FE0, 0x1FEC);
  (0x1FF2, 0x1FF4); (0x1FF6, 0x1FFC); (0x2071, 0x2071); (0x207F, 0x207F); (0x2090, 0x209C);
  (0x2102, 0x2102); (0x2107, 0x2107); (0x210A, 0x2113); (0x2115, 0x2115); (0x2119, 0x211D);
  (0x2124, 0x2124); (0x2126, 0x2126); (0x2128, 0x2128); (0x212A, 0x212D); (0x212F, 0x2134);
  (0x2139, 0x2139); (0x213C, 0x213F); (0x2145, 0x2149); (0x214E, 0x214E); (0x2160, 0x217F);
  (0x2183, 0x2184); (0x24B6, 0x24E9); (0x2C00, 0x2CE4); (0x2CEB, 0x2CEE); (0x2CF2, 0x2CF3);
  (0x2D00, 0x2D25); (0x2D27, 0x2D27); (0x2D2D, 0x2D2D); (0xA640, 0xA66D); (0xA680, 0xA69D);
  (0xA722, 0xA787); (0xA78B, 0xA78E); (0xA790, 0xA7CA); (0xA7D0, 0xA7D1); (0xA7D3, 0xA7D3);
  (0xA7D5, 0xA7D9); (0xA7F5, 0xA7F6); (0xA7F8, 0xA7FA); (0xAB30, 0xAB5A); (0xAB5C, 0xAB68);
  (0xAB70, 0xABBF); (0xFB00, 0xFB06); (0xFB13, 0xFB17); (0xFF21, 0xFF3A); (0xFF41, 0xFF5A);
  (0x10400, 0x1044F); (0x104B0, 0x104D3); (0x104D8, 0x104FB); (0x10570, 0x1057A); (0x1057C, 0x1058A);
  (0x1058C, 0x10592); (0x10594, 0x10595); (0x10597, 0x105A1); (0x105A3, 0x105B1); (0x105B3, 0x105B9);
  (0x105BB, 0x105BC); (0x10780, 0x10780); (0x10783, 0x10785); (0x10787, 0x107B0); (0x107B2, 0x107BA);
  (0x10C80, 0x10CB2); (0x10CC0, 0x10CF2); (0x118A0, 0x118DF); (0x16E40, 0x16E7F); (0x1D400, 0x1D454);
  (0x1D456, 0x1D49C); (0x1D49E, 0x1D49F); (0x1D4A2, 0x1D4A2); (0x1D4A5, 0x1D4A6); (0x1D4A9, 0x1D4AC);
  (0x1D4AE, 0x1D4B9); (0x1D4BB, 0x1D4BB); (0x1D4BD, 0x1D4C3); (0x1D4C5, 0x1D505); (0x1D507, 0x1D50A);
  (0x1D50D, 0x1D514); (0x1D516, 0x1D51C); (0x1D51E, 0x1D539); (0x1D53B, 0x1D53E); (0x1D540, 0x1D544);
  (0x1D546, 0x1D546); (0x1D54A, 0x1D550); (0x1D552, 0x1D6A5); (0x1D6A8, 0x1D6C0); (0x1D6C2, 0x1D6DA);
  (0x1D6DC, 0x1D6FA); (0x1D6FC, 0x1D714); (0x1D716, 0x1D734); (0x1D736, 0x1D74E); (0x1D750, 0x1D76E);
  (0x1D770, 0x1D788); (0x1D78A, 0x1D7A8); (0x1D7AA, 0x1D7C2); (0x1D7C4, 0x1D7CB); (0x1DF00, 0x1DF09);
  (0x1DF0B, 0x1DF1E); (0x1E900, 0x1E943); (0x1F130, 0x1F149); (0x1F150, 0x1F169); (0x1F170, 0x1F189)
]%N.
Definition case_ignorable_ranges : list (N * N) := [
  (0x27, 0x27); (0x2E, 0x2E); (0x3A, 0x3A); (0x5E, 0x5E); (0x60, 0x60);
  (0xA8, 0xA8); (0xAD, 0xAD); (0xAF, 0xAF); (0xB4, 0xB4); (0xB7, 0xB8);
  (0x2B0, 0x36F); (0x374, 0x375); (0x37A, 0x37A); (0x384, 0x385); (0x387, 0x387);
  (0x483, 0x489); (0x559, 0x559); (0x55F, 0x55F); (0x591, 0x5BD); (0x5BF, 0x5BF);
  (0x5C1, 0x5C2); (0x5C4, 0x5C5); (0x5C7, 0x5C7); (0x5F4, 0x5F4); (0x600, 0x605);
  (0x610, 0x61A); (0x61C, 0x61C); (0x640, 0x640); (0x64B, 0x65F); (0x670, 0x670);
  (0x6D6, 0x6DD); (0x6DF, 0x6E8); (0x6EA, 0x6ED); (0x70F, 0x70F); (0x711, 0x711);
  (0x730, 0x74A); (0x7A6, 0x7B0); (0x7EB, 0x7F5); (0x7FA, 0x7FA); (0x7FD, 0x7FD);
  (0x816, 0x82D); (0x859, 0x85B); (0x888, 0x888); (0x890, 0x891); (0x898, 0x89F);
  (0x8C9, 0x902); (0x93A, 0x93A); (0x93C, 0x93C); (0x941, 0x948); (0x94D, 0x94D);
  (0x951, 0x957); (0x962, 0x963); (0x971, 0x971); (0x981, 0x981); (0x9BC, 0x9BC);
  (0x9C1, 0x9C4); (0x9CD, 0x9CD); (0x9E2, 0x9E3); (0x9FE, 0x9FE); (0xA01, 0xA02);
  (0xA3C, 0xA3C); (0xA41, 0xA42); (0xA47, 0xA48); (0xA4B, 0xA4D); (0xA51, 0xA51);
  (0xA70, 0xA71); (0xA75, 0xA75); (0xA81, 0xA82); (0xABC, 0xABC); (0xAC1, 0xAC5);
  (0xAC7, 0xAC8); (0xACD, 0xACD); (0xAE2, 0xAE3); (0xAFA, 0xAFF); (0xB01, 0xB01);
  (0xB3C, 0xB3C); (0xB3F, 0xB3F); (0xB41, 0xB44); (0xB4D, 0xB4D); (0xB55, 0xB56);
  (0xB62, 0xB63); (0xB82, 0xB82); (0xBC0, 0xBC0); (0xBCD, 0xBCD); (0xC00, 0xC00);
  (0xC04, 0xC04); (0xC3C, 0xC3C); (0xC3E, 0xC40); (0xC46, 0xC48); (0xC4A, 0xC4D);
  (0xC55, 0xC56); (0xC62, 0xC63); (0xC81, 0xC81); (0xCBC, 0xCBC); (0xCBF, 0xCBF);
  (0xCC6, 0xCC6); (0xCCC, 0xCCD); (0xCE2, 0xCE3); (0xD00, 0xD01); (0xD3B, 0xD3C);
  (0xD41, 0xD44); (0xD4D, 0xD4D); (0xD62, 0xD63); (0xD81, 0xD81); (0xDCA, 0xDCA);
  (0xDD2, 0xDD4); (0xDD6, 0xDD6); (0xE31, 0xE31); (0xE34, 0xE3A); (0xE46, 0xE4E);
  (0xEB1, 0xEB1); (0xEB4, 0xEBC); (0xEC6, 0xEC6); (0xEC8, 0xECD); (0xF18, 0xF19);
  (0xF35, 0xF35); (0xF37, 0xF37); (0xF39, 0xF39); (0xF71, 0xF7E); (0xF80, 0xF84);
  (0xF86, 0xF87); (0xF8D, 0xF97); (0xF99, 0xFBC); (0xFC6, 0xFC6); (0x102D, 0x1030);
  (0x1032, 0x1037); (0x1039, 0x103A); (0x103D, 0x103E); (0x1058, 0x1059); (0x105E, 0x1060);
  (0x1071, 0x1074); (0x1082, 0x1082); (0x1085, 0x1086); (0x108D, 0x108D); (0x109D, 0x109D);
  (0x10FC, 0x10FC); (0x135D, 0x135F); (0x1712, 0x1714); (0x1732, 0x1733); (0x1752, 0x1753);
  (0x1772, 0x1773); (0x17B4, 0x17B5); (0x17B7, 0x17BD); (0x17C6, 0x17C6); (0x17C9, 0x17D3);
  (0x17D7, 0x17D7); (0x17DD, 0x17DD); (0x180B, 0x180F); (0x1843, 0x1843); (0x1885, 0x1886);
  (0x18A9, 0x18A9); (0x1920, 0x1922); (0x1927, 0x1928); (0x1932, 0x1932); (0x1939, 0x193B);
  (0x1A17, 0x1A18); (0x1A1B, 0x1A1B); (0x1A56, 0x1A56); (0x1A58, 0x1A5E); (0x1A60, 0x1A60);
  (0x1A62, 0x1A62); (0x1A65, 0x1A6C); (0x1A73, 0x1A7C); (0x1A7F, 0x1A7F); (0x1AA7, 0x1AA7);
  (0x1AB0, 0x1ACE); (0x1B00, 0x1B03); (0x1B34, 0x1B34); (0x1B36, 0x1B3A); (0x1B3C, 0x1B3C);
  (0x1B42, 0x1B42); (0x1B6B, 0x1B73); (0x1B80, 0x1B81); (0x1BA2, 0x1BA5); (0x1BA8, 0x1BA9);
  (0x1BAB, 0x1BAD); (0x1BE6, 0x1BE6); (0x1BE8, 0x1BE9); (0x1BED, 0x1BED); (0x1BEF, 0x1BF1);
  (0x1C2C, 0x1C33); (0x1C36, 0x1C37); (0x1C78, 0x1C7D); (0x1CD0, 0x1CD2); (0x1CD4, 0x1CE0);
  (0x1CE2, 0x1CE8); (0x1CED, 0x1CED); (0x1CF4, 0x1CF4); (0x1CF8, 0x1CF9); (0x1D2C, 0x1D6A);
  (0x1D78, 0x1D78); (0x1D9B, 0x1DFF); (0x1FBD, 0x1FBD); (0x1FBF, 0x1FC1); (0x1FCD, 0x1FCF);
  (0x1FDD, 0x1FDF); (0x1FED, 0x1FEF); (0x1FFD, 0x1FFE); (0x200B, 0x200F); (0x2018, 0x2019);
  (0x2024, 0x2024); (0x2027, 0x2027); (0x202A, 0x202E); (0x2060, 0x2064); (0x2066, 0x206F);
  (0x2071, 0x2071); (0x207F, 0x207F); (0x2090, 0x209C); (0x20D0, 0x20F0); (0x2C7C, 0x2C7D);
  (0x2CEF, 0x2CF1); (0x2D6F, 0x2D6F); (0x2D7F, 0x2D7F); (0x2DE0, 0x2DFF); (0x2E2F, 0x2E2F);
  (0x3005, 0x3005); (0x302A, 0x302D); (0x3031, 0x3035); (0x303B, 0x303B); (0x3099, 0x309E);
  (0x30FC, 0x30FE); (0xA015, 0xA015); (0xA4F8, 0xA4FD); (0xA60C, 0xA60C); (0xA66F, 0xA672);
  (0xA674, 0xA67D); (0xA67F, 0xA67F); (0xA69C, 0xA69F); (0xA6F0, 0xA6F1); (0xA700, 0xA721);
  (0xA770, 0xA770); (0xA788, 0xA78A); (0xA7F2, 0xA7F4); (0xA7F8, 0xA7F9); (0xA802, 0xA802);
  (0xA806, 0xA806); (0xA80B, 0xA80B); (0xA825, 0xA826); (0xA82C, 0xA82C); (0xA8C4, 0xA8C5);
  (0xA8E0, 0xA8F1); (0xA8FF, 0xA8FF); (0xA926, 0xA92D); (0xA947, 0xA951); (0xA980, 0xA982);
  (0xA9B3, 0xA9B3); (0xA9B6, 0xA9B9); (0xA9BC, 0xA9BD); (0xA9CF, 0xA9CF); (0xA9E5, 0xA9E6);
  (0xAA29, 0xAA2E); (0xAA31, 0xAA32); (0xAA35, 0xAA36); (0xAA43, 0xAA43); (0xAA4C, 0xAA4C);
  (0xAA70, 0xAA70); (0xAA7C, 0xAA7C); (0xAAB0, 0xAAB0); (0xAAB2, 0xAAB4); (0xAAB7, 0xAAB8);
  (0xAABE, 0xAABF); (0xAAC1, 0xAAC1); (0xAADD, 0xAADD); (0xAAEC, 0xAAED); (0xAAF3, 0xAAF4);
  (0xAAF6, 0xAAF6); (0xAB5B, 0xAB5F); (0xAB69, 0xAB6B); (0xABE5, 0xABE5); (0xABE8, 0xABE8);
  (0xABED, 0xABED); (0xFB1E, 0xFB1E); (0xFBB2, 0xFBC2); (0xFE00, 0xFE0F); (0xFE13, 0xFE13);
  (0xFE20, 0xFE2F); (0xFE52, 0xFE52); (0xFE55, 0xFE55); (0xFEFF, 0xFEFF); (0xFF07, 0xFF07);
  (0xFF0E, 0xFF0E); (0xFF1A, 0xFF1A); (0xFF3E, 0xFF3E); (0xFF40, 0xFF40); (0xFF70, 0xFF70);
  (0xFF9E, 0xFF9F); (0xFFE3, 0xFFE3); (0xFFF9, 0xFFFB); (0x101FD, 0x101FD); (0x102E0, 0x102E0);
  (0x10376, 0x1037A); (0x10780, 0x10785); (0x10787, 0x107B0); (0x107B2, 0x107BA); (0x10A01, 0x10A03);
  (0x10A05, 0x10A06); (0x10A0C, 0x10A0F); (0x10A38, 0x10A3A); (0x10A3F, 0x10A3F); (0x10AE5, 0x10AE6);
  (0x10D24, 0x10D27); (0x10EAB, 0x10EAC); (0x10F46, 0x10F50); (0x10F82, 0x10F85); (0x11001, 0x11001);
  (0x11038, 0x11046); (0x11070, 0x11070); (0x11073, 0x11074); (0x1107F, 0x11081); (0x110B3, 0x110B6);
  (0x110B9, 0x110BA); (0x110BD, 0x110BD); (0x110C2, 0x110C2); (0x110CD, 0x110CD); (0x11100, 0x11102);
  (0x11127, 0x1112B); (0x1112D, 0x11134); (0x11173, 0x11173); (0x11180, 0x11181); (0x111B6, 0x111BE);
  (0x111C9, 0x111CC); (0x111CF, 0x111CF); (0x1122F, 0x11231); (0x11234, 0x11234); (0x11236, 0x11237);
  (0x1123E, 0x1123E); (0x112DF, 0x112DF); (0x112E3, 0x112EA); (0x11300, 0x11301); (0x1133B, 0x1133C);
  (0x11340, 0x11340); (0x11366, 0x1136C); (0x11370, 0x11374); (0x11438, 0x1143F); (0x11442, 0x11444);
  (0x11446, 0x11446); (0x1145E, 0x1145E); (0x114B3, 0x114B8); (0x114BA, 0x114BA); (0x114BF, 0x114C0);
  (0x114C2, 0x114C3); (0x115B2, 0x115B5); (0x115BC, 0x115BD); (0x115BF, 0x115C0); (0x115DC, 0x115DD);
  (0x11633, 0x1163A); (0x1163D, 0x1163D); (0x1163F, 0x11640); (0x116AB, 0x116AB); (0x116AD, 0x116AD);
  (0x116B0, 0x116B5); (0x116B7, 0x116B7); (0x1171D, 0x1171F); (0x11722, 0x11725); (0x11727, 0x1172B);
  (0x1182F, 0x11837); (0x11839, 0x1183A); (0x1193B, 0x1193C); (0x1193E, 0x1193E); (0x11943, 0x11943);
  (0x119D4, 0x119D7); (0x119DA, 0x119DB); (0x119E0, 0x119E0); (0x11A01, 0x11A0A); (0x11A33, 0x11A38);
  (0x11A3B, 0x11A3E); (0x11A47, 0x11A47); (0x11A51, 0x11A56); (0x11A59, 0x11A5B); (0x11A8A, 0x11A96);
  (0x11A98, 0x11A99); (0x11C30, 0x11C36); (0x11C38, 0x11C3D); (0x11C3F, 0x11C3F); (0x11C92, 0x11CA7);
  (0x11CAA, 0x11CB0); (0x11CB2, 0x11CB3); (0x11CB5, 0x11CB6); (0x11D31, 0x11D36); (0x11D3A, 0x11D3A);
  (0x11D3C, 0x11D3D); (0x11D3F, 0x11D45); (0x11D47, 0x11D47); (0x11D90, 0x11D91); (0x11D95, 0x11D95);
  (0x11D97, 0x11D97); (0x11EF3, 0x11EF4); (0x13430, 0x13438); (0x16AF0, 0x16AF4); (0x16B30, 0x16B36);
  (0x16B40, 0x16B43); (0x16F4F, 0x16F4F); (0x16F8F, 0x16F9F); (0x16FE0, 0x16FE1); (0x16FE3, 0x16FE4);
  (0x1AFF0, 0x1AFF3); (0x1AFF5, 0x1AFFB); (0x1AFFD, 0x1AFFE); (0x1BC9D, 0x1BC9E); (0x1BCA0, 0x1BCA3);
  (0x1CF00, 0x1CF2D); (0x1CF30, 0x1CF46); (0x1D167, 0x1D169); (0x1D173, 0x1D182); (0x1D185, 0x1D18B);
  (0x1D1AA, 0x1D1AD); (0x1D242, 0x1D244); (0x1DA00, 0x1DA36); (0x1DA3B, 0x1DA6C); (0x1DA75, 0x1DA75);
  (0x1DA84, 0x1DA84); (0x1DA9B, 0x1DA9F); (0x1DAA1, 0x1DAAF); (0x1E000, 0x1E006); (0x1E008, 0x1E018);
  (0x1E01B, 0x1E021); (0x1E023, 0x1E024); (0x1E026, 0x1E02A); (0x1E130, 0x1E13D); (0x1E2AE, 0x1E2AE);
  (0x1E2EC, 0x1E2EF); (0x1E8D0, 0x1E8D6); (0x1E944, 0x1E94B); (0x1F3FB, 0x1F3FF); (0xE0001, 0xE0001);
  (0xE0020, 0xE007F); (0xE0100, 0xE01EF)
]%N.

Definition in_ranges (t : list (N * N)) (c : N) : bool :=
  existsb (fun r => (fst r <=? c) && (c <=? snd r)) t.

Definition cased (i : item) : bool :=
  match i with
  | Point c => in_ranges cased_ranges c
  | Stray _ => false
  end.

Definition case_ignorable (i : item) : bool :=
  match i with
  | Point c => in_ranges case_ignorable_ranges c
  | Stray _ => false
  end.

(** The nearest character that is not case-ignorable is cased. *)
Fixpoint next_is_cased (l : list item) : bool :=
  match l with
  | [] => false
  | i :: r => if case_ignorable i then next_is_cased r else cased i
  end.

(** A capital sigma is final when a cased letter comes before it and
    none after it, case-ignorable characters aside; [before] holds the
    characters before it, the nearest first. *)
Definition final_sigma (before after : list item) : bool :=
  next_is_cased before && negb (next_is_cased after).

Definition lower_item (before : list item) (i : item) (after : list item) : list item :=
  match i with
  | Point c =>
      if c =? 0x3A3 then [Point (if final_sigma before after then 0x3C2 else 0x3C3)]
      else map Point (to_lower c)
  | Stray a => [Stray a]
  end.

Fixpoint lower_from (before after : list item) : list item :=
  match after with
  | [] => []
  | i :: rest => lower_item before i rest ++ lower_from (i :: before) rest
  end.

Definition lower (s : string) : string := encode (lower_from [] (decode s)).

End Unicode.

(** ** Strings *)

Module Str.

Definition is_upper (a : ascii) : bool :=
  let n := N_of_ascii a in ((65 <=? n) && (n <=? 90))%N.

Definition lower_ascii (a : ascii) : ascii :=
  if is_upper a then ascii_of_N (N_of_ascii a + 32) else a.

Fixpoint is_ascii (s : string) : bool :=
  match s with
  | EmptyString => true
  | String a r => (N_of_ascii a <? 128)%N && is_ascii r
  end.

Fixpoint ascii_lower (s : string) : string :=
  match s with
  | EmptyString => EmptyString
  | String a r => String (lower_ascii a) (ascii_lower r)
  end.

(** [str.lower]: CPython lower-cases a string of ASCII characters byte
    by byte, and any other string by the Unicode case mapping. *)
Definition lower (s : string) : string :=
  if is_ascii s then ascii_lower s else Unicode.lower s.

(** [c in s] for a one-character [c] *)
Fixpoint contains (c : ascii) (s : string) : bool :=
  match s with
  | EmptyString => false
  | String a r => Ascii.eqb a c || contains c r
  end.

(** The cut at the last occurrence of [c], when there is one. *)
Fixpoint cut_last (c : ascii) (s : string) : option (string * string) :=
  match s with
  | EmptyString => None
  | String a r =>
      match cut_last c r with
      | Some (h, t) => Some (String a h, t)
      | None => if Ascii.eqb a c then Some (EmptyString, r) else None
      end
  end.

(** [s.rsplit(c, 1)]: at most one split, taken from the right. *)
Definition rsplit1 (c : ascii) (s : string) : list string :=
  match cut_last c s with
  | Some (h, t) => [h; t]
  | None => [s]
  end.

(** [l[-1]] on the lists [rsplit1] returns (never empty). *)
Definition last_item (l : list string) : string := List.last l EmptyString.

Fixpoint strip_prefix (p s : string) : option string :=
  match p with
  | EmptyString => Some s
  | String a p' =>
      match s with
      | EmptyString => None
      | String b s' => if Ascii.eqb a b then strip_prefix p' s' else None
      end
  end.

(** [s.replace(old, "")] for a non-empty [old]: occurrences are removed
    from left to right, without overlap. *)
Fixpoint remove_all_fuel (fuel : nat) (old s : string) : string :=
  match fuel with
  | O => s
  | S fuel' =>
      match strip_prefix old s with
      | Some rest => remove_all_fuel fuel' old rest
      | None =>
          match s with
          | EmptyString => EmptyString
          | String a r => String a (remove_all_fuel fuel' old r)
          end
      end
  end.

Definition remove_all (old s : string) : string :=
  remove_all_fuel (S (String.length s)) old s.

(** Truth value of a possibly missing string: [None] and [""] are false. *)
Definition truthy (o : option string) : option string :=
  match o with
  | Some EmptyString => None
  | _ => o
  end.

End Str.

(** ** Language classifier *)

Definition EXT_TO_LANG : list (string * string) :=
  [ ("bicep", "Bicep");
    ("json", "JSON");
    ("yaml", "YAML"); ("yml", "YAML");
    ("tf", "Terraform");
    ("ps1", "PowerShell"); ("psm1", "PowerShell");
    ("sh", "Shell");
    ("py", "Python");
    ("ts", "TypeScript"); ("tsx", "TypeScript");
    ("js", "JavaScript"); ("jsx", "JavaScript");
    ("cs", "C#");
    ("java", "Java");
    ("go", "Go");
    ("rb", "Ruby");
    ("php", "PHP");
    ("rs", "Rust");
    ("cpp", "C++"); ("cxx", "C++"); ("cc", "C++");
    ("c", "C");
    ("h", "C/C++ Header"); ("hpp", "C++ Header"); ("hxx", "C++ Header");
    ("scala", "Scala");
    ("kt", "Kotlin");
    ("md", "Markdown");
    ("csv", "CSV");
    ("xml", "XML");
    ("ini", "INI");
    ("toml", "TOML") ].

(** [d.get(k)] on a dict literal given as its key/value pairs. *)
Fixpoint dict_get (d : list (string * string)) (k : string) : option string :=
  match d with
  | [] => None
  | (k', v) :: d' => if String.eqb k' k then Some v else dict_get d' k
  end.

Definition ext_from_path (path : string) : string :=
  let name := Str.last_item (Str.rsplit1 "/" path) in
  if negb (Str.contains "." name) then ""
  else Str.lower (Str.last_item (Str.rsplit1 "." name)).

Definition lang_from_ext (ext : string) : string :=
  match dict_get EXT_TO_LANG ext with
  | Some l => l
  | None => "Other"
  end.

Definition classify (path : string) : string := lang_from_ext (ext_from_path path).


(** ** Counters

    A [collections.Counter] keyed by language, kept in insertion order (the
    order [items()] and [most_common()] start from). *)

Definition Counter : Type := list (string * N).

(** [c[k]]: a missing key counts 0 (and is not inserted by the lookup). *)
Fixpoint counter_get (c : Counter) (k : string) : N :=
  match c with
  | [] => 0%N
  | (k', v) :: c' => if String.eqb k' k then v else counter_get c' k
  end.

(** [c[k] += n]: an existing key keeps its place, a new key goes last. *)
Fixpoint counter_add (c : Counter) (k : string) (n : N) : Counter :=
  match c with
  | [] => [(k, n)]
  | (k', v) :: c' =>
      if String.eqb k' k then (k', (v + n)%N) :: c'
      else (k', v) :: counter_add c' k n
  end.

Definition counter_keys (c : Counter) : list string := map fst c.
Definition counter_values (c : Counter) : list N := map snd c.

(** [sum(c.values())] *)
Definition counter_total (c : Counter) : N := fold_right N.add 0%N (counter_values c).

(** [sorted(c.items(), key=itemgetter(1), reverse=True)]: the stable sort
    by decreasing count.  An entry goes in front of the first sorted entry
    whose count is not larger, so entries of equal count keep their
    order. *)
Fixpoint insert_desc (x : string * N) (l : list (string * N)) : list (string * N) :=
  match l with
  | [] => [x]
  | y :: r => if (snd x <? snd y)%N then y :: insert_desc x r else x :: y :: r
  end.

Fixpoint most_common (c : Counter) : list (string * N) :=
  match c with
  | [] => []
  | x :: r => insert_desc x (most_common r)
  end.

(** ** Floating point

    A finite binary64 value is the rational it denotes.  [fl] rounds a
    rational to the nearest value with a 53-bit significand, ties to even;
    the exponent is not bounded, so the model is exact for every magnitude
    between 2^-1022 and 2^1024 (the sizes handled here are byte counts). *)

Module Float.

(** Nearest integer, ties to the even one. *)
Definition round_half_even (q : Q) : Z :=
  let n := (2 * Qnum q + Zpos (Qden q))%Z in
  let d := (2 * Zpos (Qden q))%Z in
  let k := (n / d)%Z in
  if ((n mod d =? 0) && Z.odd k)%Z then (k - 1)%Z else k.

(** [q * 2^k] *)
Definition scale2 (q : Q) (k : Z) : Q :=
  if (0 <=? k)%Z then q * inject_Z (2 ^ k) else q / inject_Z (2 ^ (- k)).

(** The exponent [e] with [2^52 <= q / 2^e < 2^53], for a positive [q]. *)
Definition exponent (q : Q) : Z :=
  let e0 := (Z.log2 (Qnum q) - Z.log2 (Zpos (Qden q)) - 53)%Z in
  if Qle_bool (inject_Z (2 ^ 53)) (scale2 q (- e0)) then (e0 + 1)%Z else e0.

Definition fl_pos (q : Q) : Q :=
  let e := exponent q in
  scale2 (inject_Z (round_half_even (scale2 q (- e)))) e.

Definition fl (q : Q) : Q :=
  match Qnum q with
  | Z0 => 0
  | Zpos _ => fl_pos q
  | Zneg _ => - fl_pos (- q)
  end.

(** Half the gap between 1 and the next value: [2^-53]. *)
Definition unit_roundoff : Q := 1 # 9007199254740992.

(** [float(n)] for a Python int *)
Definition of_int (n : Z) : Q := fl (inject_Z n).

Definition mul (a b : Q) : Q := fl (a * b).

(** [a / b]; [b] is a float already *)
Definition div (a b : Q) : result Q :=
  if Qeq_bool b 0 then Raise (ZeroDivisionError "float division by zero")
  else Ok (fl (a / b)).

(** The decimal with two fractional digits nearest to [x], ties to even,
    as a count of hundredths.  This is the digit string that both
    [round(x, 2)] and the format [.2f] compute from the exact value of
    [x]. *)
Definition hundredths (x : Q) : Z := round_half_even (100 * x).

(** [100.0 * b / total]: both ints are converted, then one rounded
    product and one rounded quotient *)
Definition percent (b total : N) : result Q :=
  div (mul 100 (of_int (Z.of_N b))) (of_int (Z.of_N total)).

End Float.

(** ** Python values met by the non-code test

    The operand of [not in] on the line that feeds the code-only counter
    is a set display whose single element is itself a set display.  A set
    display hashes each element as it is added; a [str] is hashable, a
    [set] is not. *)

Module Py.

Inductive value : Type :=
  | Str (s : string)
  | SetOf (elts : list string).

Definition hash (v : value) : result string :=
  match v with
  | Str s => Ok s
  | SetOf _ => Raise (TypeError "unhashable type: 'set'")
  end.

(** The elements of a display are added from left to right; the first
    one that cannot be hashed raises. *)
Fixpoint add_all (elts : list value) (acc : list string) : result (list string) :=
  match elts with
  | [] => Ok acc
  | v :: r =>
      h <-- hash v ;;
      add_all r (if existsb (String.eqb h) acc then acc else acc ++ [h])
  end.

(** [{e1, ..., en}] once the elements are evaluated: the set's members *)
Definition set_display (elts : list value) : result (list string) :=
  add_all elts [].

(** [x not in s] for a string [x] and a set [s] *)
Definition not_in (x : string) (s : list string) : bool :=
  negb (existsb (String.eqb x) s).

End Py.

Definition NON_CODE_LANGS : list string := ["Markdown"; "CSV"].

(** [{{"Markdown","CSV"}}] *)
Definition non_code_operand : result (list string) :=
  inner <-- Py.set_display [Py.Str "Markdown"; Py.Str "CSV"] ;;
  Py.set_display [Py.SetOf inner].

(** [(not args.exclude_non_code) or (lang not in {{"Markdown","CSV"}})]:
    [or] evaluates its right operand only when the left one is false. *)
Definition counts_as_code (exclude_non_code : bool) (lang : string) : result bool :=
  if negb exclude_non_code then Ok true
  else (s <-- non_code_operand ;; Ok (Py.not_in lang s)).

(** The rule in the words of the specification: a row counts unless the
    flag is set and the language is one of [NON_CODE_LANGS]. *)
Definition spec_counts_as_code (exclude_non_code : bool) (lang : string) : bool :=
  negb (exclude_non_code && existsb (String.eqb lang) NON_CODE_LANGS).

(** ** The remote tenant *)

Record Project := { proj_id : string; proj_name : string }.

Record Repo := {
  repo_id : string;
  repo_name : string;
  defaultBranch : option string
}.

(** An entry of the tree listing as the service sends it. *)
Record TreeItem := {
  isFolder : option bool;
  gitObjectType : option string;
  size : option N;
  path : option string
}.

Record FileItem := { f_path : string; f_size : N }.

Record Change := {
  changeType : option string;
  item_path : option string
}.

(** What a generator over a paged endpoint delivers: the items of the
    pages that were fetched, and the exception of the page that failed,
    if one did. *)
Definition stream (A : Type) : Type := (list A * option exn)%type.

Record Tenant := {
  projects : result (list Project);
  repos : string -> result (list Repo);
  tree : string -> string -> string -> stream TreeItem;
  commits_since : string -> string -> string -> string -> result (list string);
  commit_changes : string -> string -> string -> result (list Change)
}.

(** ** Resource client *)

(** [ADO.list_files]: blobs that are not folders and have a path. *)
Definition file_of_item (it : TreeItem) : option FileItem :=
  if negb (default false (isFolder it))
     && bool_decide (gitObjectType it = Some "blob")
  then
    match path it with
    | Some p => Some {| f_path := p; f_size := default 0%N (size it) |}
    | None => None
    end
  else None.

Definition list_files (t : Tenant) (project_id repo_id branch_name : string)
  : stream FileItem :=
  let '(items, failure) := tree t project_id repo_id branch_name in
  (omap file_of_item items, failure).

(** [ADO.list_commits] followed by [[c["commitId"] for c in commits]]: the
    ids of the commits that the paging loop collects. *)
Definition list_commits (t : Tenant) (project_id repo_id branch_name from_date : string)
  : result (list string) :=
  commits_since t project_id repo_id branch_name from_date.

(** One change record of one commit, applied to [(changed, created)]. *)
Definition record_change (acc : gset string * gset string) (ch : Change)
  : gset string * gset string :=
  let '(changed, created) := acc in
  let ctype := Str.lower (default "" (changeType ch)) in
  match Str.truthy (item_path ch) with
  | None => acc
  | Some p =>
      if String.eqb ctype "add" then ({[p]} ∪ changed, {[p]} ∪ created)
      else if String.eqb ctype "edit" || String.eqb ctype "rename"
      then ({[p]} ∪ changed, created)
      else acc
  end.

Fixpoint scan_commits (t : Tenant) (project_id repo_id : string)
    (commit_ids : list string) (acc : gset string * gset string)
  : result (gset string * gset string) :=
  match commit_ids with
  | [] => Ok acc
  | cid :: rest =>
      chs <-- commit_changes t project_id repo_id cid ;;
      scan_commits t project_id repo_id rest (fold_left record_change chs acc)
  end.

Definition list_changed_paths_for_commits (t : Tenant) (project_id repo_id : string)
    (commit_ids : list string) (created_only : bool) : result (gset string) :=
  acc <-- scan_commits t project_id repo_id commit_ids (∅, ∅) ;;
  Ok (if created_only then snd acc else fst acc).

(** ** Report rows and console formatting *)

Record RepoRow := {
  project : string;
  repository : string;
  default_branch : string;
  language : string;
  bytes : N
}.

(** [percent_all_files] holds the decimal the report shows for the float
    that [round(x, 2)] returns: that float is the one nearest to
    [hundredths x / 100], and its shortest representation is that
    decimal. *)
Record TenantRow := {
  t_language : string;
  t_bytes : N;
  percent_all_files : Q
}.

Definition nl : string := String (ascii_of_N 10) EmptyString.

Fixpoint spaces (n : nat) : string :=
  match n with
  | O => EmptyString
  | S n' => String " " (spaces n')
  end.

(** [f"{s:15s}"] and friends: pad on the right up to the width *)
Definition ljust (width : nat) (s : string) : string :=
  s ++ spaces (width - String.length s).

Definition rjust (width : nat) (s : string) : string :=
  spaces (width - String.length s) ++ s.

(** The digits of [.2f] for a count of hundredths that is not negative. *)
Definition fixed2 (h : Z) : string :=
  let n := Z.to_N h in
  let frac := (n mod 100)%N in
  pretty (n / 100)%N ++ "." ++ (if (frac <? 10)%N then "0" else "") ++ pretty frac.

(** [f"{lang:15s} {pct:6.2f}%"] *)
Definition summary_line (lang : string) (pct : Q) : string :=
  ljust 15 lang ++ " " ++ rjust 6 (fixed2 (Float.hundredths pct)) ++ "%".

(** [os.path.join(a, b)] for a relative [b] *)
Definition path_join (a b : string) : string :=
  match a with
  | EmptyString => b
  | _ => if String.eqb (Str.last_item (Str.rsplit1 "/" a)) "" then a ++ b
         else a ++ "/" ++ b
  end.

(** ** The aggregation loop of [main] *)

Record Args := {
  out : string;
  org_url : option string;
  pat : option string;
  since_days : Z;
  since_iso : option string;
  created_only : bool;
  exclude_non_code : bool
}.

(** The local variables of [main] that outlive one repository, and the two
    console streams. *)
Record State := {
  per_repo_rows : list RepoRow;
  tenant_totals : Counter;
  tenant_totals_code_only : Counter;
  stdout : list string;
  stderr : list string
}.

Definition initial_state : State :=
  {| per_repo_rows := []; tenant_totals := []; tenant_totals_code_only := [];
     stdout := []; stderr := [] |}.

Definition append_row (st : State) (r : RepoRow) : State :=
  {| per_repo_rows := per_repo_rows st ++ [r];
     tenant_totals := tenant_totals st;
     tenant_totals_code_only := tenant_totals_code_only st;
     stdout := stdout st; stderr := stderr st |}.

Definition print_out (st : State) (line : string) : State :=
  {| per_repo_rows := per_repo_rows st;
     tenant_totals := tenant_totals st;
     tenant_totals_code_only := tenant_totals_code_only st;
     stdout := stdout st ++ [line]; stderr := stderr st |}.

Definition print_err (st : State) (line : string) : State :=
  {| per_repo_rows := per_repo_rows st;
     tenant_totals := tenant_totals st;
     tenant_totals_code_only := tenant_totals_code_only st;
     stdout := stdout st; stderr := stderr st ++ [line] |}.

Definition placeholder (pname rname branch : string) : RepoRow :=
  {| project := pname; repository := rname; default_branch := branch;
     language := ""; bytes := 0%N |}.

Definition exn_text (e : exn) : string :=
  match e with
  | HTTPError m | ConnectionError m | TypeError m | ZeroDivisionError m => m
  end.

(** One row of [lang_bytes.items()]: the row is appended, the tenant
    counter is fed, then the non-code test decides on the code-only
    counter. *)
Definition emit_language_row (a : Args) (pname rname branch : string)
    (st : State) (entry : string * N) : result State :=
  let '(lang, b) := entry in
  let row := {| project := pname; repository := rname; default_branch := branch;
                language := lang; bytes := b |} in
  let totals := counter_add (tenant_totals st) lang b in
  keep <-- counts_as_code (exclude_non_code a) lang ;;
  Ok {| per_repo_rows := per_repo_rows st ++ [row];
        tenant_totals := totals;
        tenant_totals_code_only :=
          if keep then counter_add (tenant_totals_code_only st) lang b
          else tenant_totals_code_only st;
        stdout := stdout st; stderr := stderr st |}.

Fixpoint emit_language_rows (a : Args) (pname rname branch : string)
    (entries : list (string * N)) (st : State) : result State :=
  match entries with
  | [] => Ok st
  | entry :: rest =>
      st' <-- emit_language_row a pname rname branch st entry ;;
      emit_language_rows a pname rname branch rest st'
  end.

(** The body of the loop over the file items: [(total_bytes, lang_bytes)]. *)
Definition count_file (recent_paths : option (gset string))
    (acc : N * Counter) (item : FileItem) : N * Counter :=
  let '(total_bytes, lang_bytes) := acc in
  match recent_paths with
  | Some paths =>
      if bool_decide (f_path item ∈ paths)
      then ((total_bytes + f_size item)%N,
            counter_add lang_bytes (classify (f_path item)) (f_size item))
      else acc
  | None =>
      ((total_bytes + f_size item)%N,
       counter_add lang_bytes (classify (f_path item)) (f_size item))
  end.

(** The [for] loop inside the [try]: the generator hands over its items
    and then either stops or raises. *)
Definition consume_files (recent_paths : option (gset string))
    (files : stream FileItem) : result (N * Counter) :=
  let '(items, failure) := files in
  let acc := fold_left (count_file recent_paths) items (0%N, []) in
  match failure with
  | Some e => Raise e
  | None => Ok acc
  end.

(** The optional recent filter of one repository. *)
Definition recent_filter (a : Args) (t : Tenant) (since : option string)
    (pid : string) (repo : Repo) (branch_name : string)
  : result (option (gset string)) :=
  match Str.truthy since with
  | None => Ok None
  | Some from_date =>
      commit_ids <-- list_commits t pid (repo_id repo) branch_name from_date ;;
      match commit_ids with
      | [] => Ok (Some ∅)
      | _ :: _ =>
          paths <-- list_changed_paths_for_commits t pid (repo_id repo)
                      commit_ids (created_only a) ;;
          Ok (Some paths)
      end
  end.

(** The body of [for repo in repos]. *)
Definition process_repo (a : Args) (t : Tenant) (since : option string)
    (p : Project) (repo : Repo) (st : State) : result State :=
  match Str.truthy (defaultBranch repo) with
  | None => Ok (append_row st (placeholder (proj_name p) (repo_name repo) ""))
  | Some branch =>
      let branch_name := Str.remove_all "refs/heads/" branch in
      recent_paths <-- recent_filter a t since (proj_id p) repo branch_name ;;
      match consume_files recent_paths
              (list_files t (proj_id p) (repo_id repo) branch_name) with
      | Raise (HTTPError e) =>
          Ok (print_err st ("  ! Error listing files for " ++ proj_name p ++ "/"
                            ++ repo_name repo ++ ": " ++ e))
      | Raise e => Raise e
      | Ok (total_bytes, lang_bytes) =>
          if (total_bytes =? 0)%N
          then Ok (append_row st (placeholder (proj_name p) (repo_name repo) branch))
          else emit_language_rows a (proj_name p) (repo_name repo) branch lang_bytes st
      end
  end.

Fixpoint process_repos (a : Args) (t : Tenant) (since : option string)
    (p : Project) (rs : list Repo) (st : State) : result State :=
  match rs with
  | [] => Ok st
  | repo :: rest =>
      st' <-- process_repo a t since p repo st ;;
      process_repos a t since p rest st'
  end.

(** The body of [for p in projects]. *)
Definition process_project (a : Args) (t : Tenant) (since : option string)
    (p : Project) (st : State) : result State :=
  rs <-- repos t (proj_id p) ;;
  process_repos a t since p rs
    (print_out st ("- " ++ proj_name p ++ ": " ++ pretty (length rs) ++ " repos")).

Fixpoint process_projects (a : Args) (t : Tenant) (since : option string)
    (ps : list Project) (st : State) : result State :=
  match ps with
  | [] => Ok st
  | p :: rest =>
      st' <-- process_project a t since p st ;;
      process_projects a t since rest st'
  end.

(** ** Reports and [main] *)

(** [sum(c.values()) or 1] *)
Definition total_or_1 (c : Counter) : N :=
  if (counter_total c =? 0)%N then 1%N else counter_total c.

(** The rows of the tenant report: [most_common()] order, the share
    rounded to two digits. *)
Fixpoint tenant_rows_of (total_all : N) (entries : list (string * N))
  : result (list TenantRow) :=
  match entries with
  | [] => Ok []
  | (lang, b) :: rest =>
      x <-- Float.percent b total_all ;;
      rows <-- tenant_rows_of total_all rest ;;
      Ok ({| t_language := lang; t_bytes := b;
             percent_all_files := Float.hundredths x # 100 |} :: rows)
  end.

Definition tenant_rows (totals : Counter) : result (list TenantRow) :=
  tenant_rows_of (total_or_1 totals) (most_common totals).

(** The language lines of the console summary. *)
Fixpoint summary_lines_of (total_code : N) (entries : list (string * N))
  : result (list string) :=
  match entries with
  | [] => Ok []
  | (lang, b) :: rest =>
      pct <-- Float.percent b total_code ;;
      lines <-- summary_lines_of total_code rest ;;
      Ok (summary_line lang pct :: lines)
  end.

Definition summary_lines (code_only : Counter) : result (list string) :=
  summary_lines_of (total_or_1 code_only) (most_common code_only).

(** A file written by [write_csv]: destination, header, rows. *)
Record Csv (Row : Type) := {
  csv_path : string;
  csv_header : list string;
  csv_rows : list Row
}.
Arguments csv_path {Row} c.
Arguments csv_header {Row} c.
Arguments csv_rows {Row} c.

(** What a run of [main] that returns leaves behind. *)
Record Outcome := {
  exit_status : Z;
  repo_csv : option (Csv RepoRow);
  tenant_csv : option (Csv TenantRow);
  summary : list string;
  console : list string;
  errors : list string
}.

(** The threshold date: [--since-iso] if given, else [--since-days] days
    before the current UTC date ([days_ago] is the clock), else none. *)
Definition resolve_since (days_ago : Z -> string) (a : Args) : option string :=
  match Str.truthy (since_iso a) with
  | Some s => Some s
  | None => if (0 <? since_days a)%Z then Some (days_ago (since_days a)) else None
  end.

Definition main (days_ago : Z -> string) (a : Args) (t : Tenant) : result Outcome :=
  match Str.truthy (org_url a), Str.truthy (pat a) with
  | Some _, Some _ =>
      let since := resolve_since days_ago a in
      ps <-- projects t ;;
      st <-- process_projects a t since ps
               (print_out initial_state ("Found " ++ pretty (length ps) ++ " projects")) ;;
      let repo_path := path_join (out a) "repo_language_stats.csv" in
      rows <-- tenant_rows (tenant_totals st) ;;
      let tenant_path := path_join (out a) "tenant_language_summary.csv" in
      lines <-- summary_lines (tenant_totals_code_only st) ;;
      Ok {| exit_status := 0;
            repo_csv := Some {| csv_path := repo_path;
                                csv_header := ["project"; "repository"; "default_branch";
                                               "language"; "bytes"];
                                csv_rows := per_repo_rows st |};
            tenant_csv := Some {| csv_path := tenant_path;
                                  csv_header := ["language"; "bytes"; "percent_all_files"];
                                  csv_rows := rows |};
            summary := lines;
            console := (stdout st
                        ++ [(nl ++ "== Tenant summary (code-only %) ==")%string]
                        ++ lines
                        ++ [(nl ++ "Wrote:" ++ nl ++ " - " ++ repo_path
                                ++ nl ++ " - " ++ tenant_path)%string])%list;
            errors := stderr st |}
  | _, _ =>
      Ok {| exit_status := 2; repo_csv := None; tenant_csv := None;
            summary := []; console := [];
            errors := ["Please set --org-url/--pat or ADO_ORG_URL/ADO_PAT."] |}
  end.

(** ** The scenario of the specification: project P, repository R on
    [main], files [a.py] (100 bytes) and [b.md] (50 bytes) *)

Module Scenario.

Definition blob (p : string) (n : N) : TreeItem :=
  {| isFolder := Some false; gitObjectType := Some "blob";
     size := Some n; path := Some p |}.

Definition tenant : Tenant :=
  {| projects := Ok [ {| proj_id := "p1"; proj_name := "P" |} ];
     repos := fun _ => Ok [ {| repo_id := "r1"; repo_name := "R";
                               defaultBranch := Some "refs/heads/main" |} ];
     tree := fun _ _ _ => ([blob "/a.py" 100; blob "/b.md" 50], None);
     commits_since := fun _ _ _ _ => Ok [];
     commit_changes := fun _ _ _ => Ok [] |}.

Definition args (exclude : bool) : Args :=
  {| out := "out/"; org_url := Some "https://dev.azure.com/org"; pat := Some "token";
     since_days := 0; since_iso := None; created_only := false;
     exclude_non_code := exclude |}.

Definition clock (n : Z) : string := "2024-01-01".

End Scenario.

(** The words of the specification: the final slash-separated segment of
    a path, and the extension of a segment. *)
Inductive final_segment : string -> string -> Prop :=
  | segment_whole (p : string) :
      Str.contains "/" p = false -> final_segment p p
  | segment_after (dir name : string) :
      Str.contains "/" name = false ->
      final_segment (dir ++ String "/" name)%string name.

Inductive extension_of : string -> string -> Prop :=
  | extension_none (name : string) :
      Str.contains "." name = false -> extension_of name ""
  | extension_some (stem e : string) :
      Str.contains "." e = false ->
      extension_of (stem ++ String "." e)%string (Str.lower e).

Definition change_kind (ch : Change) : string :=
  Str.lower (default "" (changeType ch)).

(** A change record counts for the path-set when it is an addition, or,
    unless only created paths are wanted, an edit or a rename. *)
Definition counted (created_only : bool) (ch : Change) : Prop :=
  change_kind ch = "add"
  \/ (created_only = false /\ (change_kind ch = "edit" \/ change_kind ch = "rename")).

Definition touches (created_only : bool) (ch : Change) (p : string) : Prop :=
  item_path ch = Some p /\ p <> "" /\ counted created_only ch.

Module Window.

Definition add (p : string) : Change :=
  {| changeType := Some "add"; item_path := Some p |}.
Definition edit (p : string) : Change :=
  {| changeType := Some "edit"; item_path := Some p |}.

(** Commit C1 adds [a.py]; commit C2 edits [a.py] and adds [b.md]. *)
Definition tenant : Tenant :=
  {| projects := Ok [];
     repos := fun _ => Ok [];
     tree := fun _ _ _ => ([], None);
     commits_since := fun _ _ _ _ => Ok ["C1"; "C2"];
     commit_changes := fun _ _ cid =>
       if String.eqb cid "C1" then Ok [add "a.py"]
       else if String.eqb cid "C2" then Ok [edit "a.py"; add "b.md"]
       else Raise (HTTPError "404 Client Error") |}.

End Window.

(** ** Reading the repository-level report back

    The tally a list of repository-level rows amounts to: placeholder rows
    (empty language) aside, every row feeds its language. *)
Definition tally_step (c : Counter) (r : RepoRow) : Counter :=
  if String.eqb (language r) "" then c else counter_add c (language r) (bytes r).

Definition tally_of (rows : list RepoRow) : Counter := fold_left tally_step rows [].

(** Sum of the [bytes] fields of the rows of language [l]. *)
Definition sum_bytes (l : string) (rows : list RepoRow) : N :=
  fold_right N.add 0%N
    (map bytes (List.filter (fun r => String.eqb (language r) l) rows)).

(** The languages of the rows in the order of their first row. *)
Definition first_seen (rows : list RepoRow) : list string :=
  fold_left (fun seen r =>
               if String.eqb (language r) "" || existsb (String.eqb (language r)) seen
               then seen else seen ++ [language r])
            rows [].

Definition entry_of (r : TenantRow) : string * N := (t_language r, t_bytes r).

(** Entries of a given count, in list order. *)
Definition with_count (v : N) (l : list (string * N)) : list (string * N) :=
  List.filter (fun e => (snd e =? v)%N) l.

(** No entry has a larger count than an entry before it. *)
Definition descending (l : list (string * N)) : Prop :=
  StronglySorted (fun x y => (snd y <= snd x)%N) l.

(** Sum of the [percent_all_files] column. *)
Definition percent_sum (rows : list TenantRow) : Q :=
  fold_right Qplus 0%Q (map percent_all_files rows).

Definition QN (n : N) : Q := inject_Z (Z.of_N n).

(** ** Words for the aggregation properties *)

(** [c.update(entries)] by repeated [c[k] += n] *)
Definition counter_update (c : Counter) (entries : list (string * N)) : Counter :=
  fold_left (fun c e => counter_add c (fst e) (snd e)) entries c.

Definition language_row (pname rname branch : string) (e : string * N) : RepoRow :=
  {| project := pname; repository := rname; default_branch := branch;
     language := fst e; bytes := snd e |}.

(** What holds of the variables of [main] between two repositories: both
    tenant counters are the tally of the rows emitted so far, and a
    counter that has an entry has a positive total. *)
Definition consistent (st : State) : Prop :=
  tenant_totals st = tally_of (per_repo_rows st)
  /\ tenant_totals_code_only st = tenant_totals st
  /\ (tenant_totals st = [] \/ (0 < counter_total (tenant_totals st))%N).

(** The files the loop counts under a filter, and their byte total. *)
Definition kept (recent_paths : option (gset string)) (items : list FileItem)
  : list FileItem :=
  match recent_paths with
  | Some paths => List.filter (fun f => bool_decide (f_path f ∈ paths)) items
  | None => items
  end.

Definition byte_total (items : list FileItem) : N :=
  fold_right N.add 0%N (map f_size items).

(** The ways the body of the repository loop can end without raising. *)
Inductive repo_step (a : Args) (t : Tenant) (since : option string)
    (p : Project) (repo : Repo) (st : State) : State -> Prop :=
  | step_no_branch :
      Str.truthy (defaultBranch repo) = None ->
      repo_step a t since p repo st
        (append_row st (placeholder (proj_name p) (repo_name repo) ""))
  | step_listing_failed branch recent files e :
      Str.truthy (defaultBranch repo) = Some branch ->
      recent_filter a t since (proj_id p) repo (Str.remove_all "refs/heads/" branch)
        = Ok recent ->
      list_files t (proj_id p) (repo_id repo) (Str.remove_all "refs/heads/" branch)
        = (files, Some (HTTPError e)) ->
      repo_step a t since p repo st
        (print_err st ("  ! Error listing files for " ++ proj_name p ++ "/"
                       ++ repo_name repo ++ ": " ++ e)%string)
  | step_nothing_counted branch recent files :
      Str.truthy (defaultBranch repo) = Some branch ->
      recent_filter a t since (proj_id p) repo (Str.remove_all "refs/heads/" branch)
        = Ok recent ->
      list_files t (proj_id p) (repo_id repo) (Str.remove_all "refs/heads/" branch)
        = (files, None) ->
      byte_total (kept recent files) = 0%N ->
      repo_step a t since p repo st
        (append_row st (placeholder (proj_name p) (repo_name repo) branch))
  | step_languages branch recent files st' :
      Str.truthy (defaultBranch repo) = Some branch ->
      recent_filter a t since (proj_id p) repo (Str.remove_all "refs/heads/" branch)
        = Ok recent ->
      list_files t (proj_id p) (repo_id repo) (Str.remove_all "refs/heads/" branch)
        = (files, None) ->
      byte_total (kept recent files) <> 0%N ->
      emit_language_rows a (proj_name p) (repo_name repo) branch
        (snd (fold_left (count_file recent) files (0%N, []))) st = Ok st' ->
      repo_step a t since p repo st st'.

(** The step emitted one placeholder row (empty language, zero bytes) and
    left both tenant counters as they were. *)
Definition placeholder_only (st st' : State) : Prop :=
  exists row,
    per_repo_rows st' = per_repo_rows st ++ [row]
    /\ language row = "" /\ bytes row = 0%N
    /\ tenant_totals st' = tenant_totals st
    /\ tenant_totals_code_only st' = tenant_totals_code_only st.

(** ** Two repositories, one of which has a failing request *)

Module Outage.

Inductive failing : Type := FilesFail | CommitsFail | ChangesFail.

Definition P : Project := {| proj_id := "p1"; proj_name := "P" |}.
Definition R1 : Repo :=
  {| repo_id := "r1"; repo_name := "R1"; defaultBranch := Some "refs/heads/main" |}.
Definition R2 : Repo :=
  {| repo_id := "r2"; repo_name := "R2"; defaultBranch := Some "refs/heads/main" |}.

Definition error : exn := HTTPError "500 Server Error".

(** R1 has one recent commit adding [/a.py]; R2 has one adding [/b.go].
    The named request of R1 answers with status 500. *)
Definition tenant (f : failing) : Tenant :=
  {| projects := Ok [P];
     repos := fun _ => Ok [R1; R2];
     tree := fun _ rid _ =>
       if String.eqb rid "r1" then
         match f with
         | FilesFail => ([], Some error)
         | _ => ([Scenario.blob "/a.py" 100], None)
         end
       else ([Scenario.blob "/b.go" 40], None);
     commits_since := fun _ rid _ _ =>
       if String.eqb rid "r1" then
         match f with
         | CommitsFail => Raise error
         | _ => Ok ["c1"]
         end
       else Ok ["c2"];
     commit_changes := fun _ rid _ =>
       if String.eqb rid "r1" then
         match f with
         | ChangesFail => Raise error
         | _ => Ok [Window.add "/a.py"]
         end
       else Ok [Window.add "/b.go"] |}.

Definition args : Args :=
  {| out := "out/"; org_url := Some "https://dev.azure.com/org"; pat := Some "token";
     since_days := 0; since_iso := Some "2024-01-01"; created_only := false;
     exclude_non_code := false |}.

End Outage.

(** ** A repository without recent commits, and one with an empty file *)

Module Quiet.

Definition P : Project := {| proj_id := "p1"; proj_name := "P" |}.
Definition R : Repo :=
  {| repo_id := "r1"; repo_name := "R"; defaultBranch := Some "refs/heads/main" |}.
Definition bare : Repo :=
  {| repo_id := "r0"; repo_name := "Bare"; defaultBranch := None |}.

(** No commit since the threshold; the branch holds [/a.py] (100 bytes). *)
Definition tenant : Tenant :=
  {| projects := Ok [P];
     repos := fun _ => Ok [R];
     tree := fun _ _ _ => ([Scenario.blob "/a.py" 100], None);
     commits_since := fun _ _ _ _ => Ok [];
     commit_changes := fun _ _ _ => Ok [] |}.

(** The branch holds [/a.py] (100 bytes) and an empty [/b.md]. *)
Definition tenant_with_empty_file : Tenant :=
  {| projects := Ok [P];
     repos := fun _ => Ok [R];
     tree := fun _ _ _ => ([Scenario.blob "/a.py" 100; Scenario.blob "/b.md" 0], None);
     commits_since := fun _ _ _ _ => Ok [];
     commit_changes := fun _ _ _ => Ok [] |}.

(** The branch holds only an empty [/notes.md]. *)
Definition tenant_all_empty : Tenant :=
  {| projects := Ok [P];
     repos := fun _ => Ok [R];
     tree := fun _ _ _ => ([Scenario.blob "/notes.md" 0], None);
     commits_since := fun _ _ _ _ => Ok [];
     commit_changes := fun _ _ _ => Ok [] |}.

End Quiet.

(** Sum of the [bytes] column of the tenant report. *)
Definition tenant_bytes (rows : list TenantRow) : N :=
  fold_right N.add 0%N (map t_bytes rows).

(** ** The HTTP client

    [ADO._get], [ADO.paged] and the request loops built on them, over a
    transport [http] that answers a URL with a response or fails to
    connect.  A body is read as far as the client reads it: the list under
    the key the endpoint uses ("value", "changes"), absent when the key
    is.  [time.sleep] is left out.  A loop that the service can keep going
    for ever takes fuel; [None] is a run that has not ended within it. *)

Module Url.

(** [urllib.parse.quote(s)] on the bytes of [s]: letters, digits,
    [_.-~] and the default safe [/] stay, any other byte becomes [%XX]. *)
Definition is_safe (a : ascii) : bool :=
  let n := N_of_ascii a in
  ((65 <=? n) && (n <=? 90) || (97 <=? n) && (n <=? 122) || (48 <=? n) && (n <=? 57))%N
  || Str.contains a "_.-~/".

Definition hex_digit (n : N) : ascii :=
  match String.get (N.to_nat n) "0123456789ABCDEF" with
  | Some c => c
  | None => "0"%char
  end.

Fixpoint quote (s : string) : string :=
  match s with
  | EmptyString => EmptyString
  | String a r =>
      if is_safe a then String a (quote r)
      else String "%" (String (hex_digit (N_of_ascii a / 16))
                         (String (hex_digit (N_of_ascii a mod 16)) (quote r)))
  end.

End Url.

Definition API_VER : string := "7.1-preview.1".

Module Client.

Record Response (A : Type) := {
  status : Z;
  reason : string;
  value : option (list A);
  continuation : option string
}.
Arguments status {A} r.
Arguments reason {A} r.
Arguments value {A} r.
Arguments continuation {A} r.

(** [Response.raise_for_status] *)
Definition raise_for_status {A} (url : string) (r : Response A) : result (Response A) :=
  if ((400 <=? status r) && (status r <? 500))%Z then
    Raise (HTTPError (pretty (status r) ++ " Client Error: " ++ reason r
                      ++ " for url: " ++ url))
  else if ((500 <=? status r) && (status r <? 600))%Z then
    Raise (HTTPError (pretty (status r) ++ " Server Error: " ++ reason r
                      ++ " for url: " ++ url))
  else Ok r.

(** [ADO._get] *)
Definition get {A} (http : string -> result (Response A)) (url : string)
  : result (Response A) :=
  r <-- http url ;; raise_for_status url r.

(** The URL of one page of [paged]. *)
Definition page_url (url : string) (continuation : option string) : string :=
  match Str.truthy continuation with
  | Some token =>
      url ++ (if Str.contains "?" url then "&" else "?")
          ++ "continuationToken=" ++ Url.quote token
  | None => url
  end.

(** [ADO.paged]: the items of the pages up to the first page without a
    continuation header, or up to the first request that raises. *)
Fixpoint paged {A} (fuel : nat) (http : string -> result (Response A))
    (url : string) (continuation : option string) : option (stream A) :=
  match fuel with
  | O => None
  | S fuel' =>
      match get http (page_url url continuation) with
      | Raise e => Some ([], Some e)
      | Ok r =>
          let items := default [] (value r) in
          match Str.truthy (Client.continuation r) with
          | None => Some (items, None)
          | Some token =>
              match paged fuel' http url (Some token) with
              | Some (rest, failure) => Some (items ++ rest, failure)
              | None => None
              end
          end
      end
  end.

(** [list(generator)] *)
Definition to_list {A} (s : stream A) : result (list A) :=
  match s with
  | (items, None) => Ok items
  | (_, Some e) => Raise e
  end.

(** [s.rstrip("/")] *)
Fixpoint rstrip_slash (s : string) : string :=
  match s with
  | EmptyString => EmptyString
  | String a r =>
      match rstrip_slash r with
      | EmptyString => if Ascii.eqb a "/" then EmptyString else String a EmptyString
      | r' => String a r'
      end
  end.

Definition projects_url (org_url : string) : string :=
  rstrip_slash org_url ++ "/_apis/projects?api-version=" ++ API_VER.

Definition repos_url (org_url project_id : string) : string :=
  rstrip_slash org_url ++ "/" ++ project_id
    ++ "/_apis/git/repositories?api-version=" ++ API_VER.

Definition files_url (org_url project_id repo_id branch_name : string) : string :=
  rstrip_slash org_url ++ "/" ++ project_id ++ "/_apis/git/repositories/" ++ repo_id
    ++ "/items" ++ "?recursionLevel=Full&includeContentMetadata=true"
    ++ "&versionDescriptor.version=" ++ Url.quote branch_name
    ++ "&api-version=" ++ API_VER.

Definition commits_url (org_url project_id repo_id branch_name from_date : string)
    (top skip : N) : string :=
  rstrip_slash org_url ++ "/" ++ project_id ++ "/_apis/git/repositories/" ++ repo_id
    ++ "/commits" ++ "?searchCriteria.itemVersion.version=" ++ Url.quote branch_name
    ++ "&searchCriteria.fromDate=" ++ Url.quote from_date
    ++ "&$top=" ++ pretty top ++ "&$skip=" ++ pretty skip
    ++ "&api-version=" ++ API_VER.

(** [ADO.list_projects], [ADO.list_repos] *)
Definition list_projects (fuel : nat) (http : string -> result (Response Project))
    (org_url : string) : option (result (list Project)) :=
  option_map to_list (paged fuel http (projects_url org_url) None).

Definition list_repos (fuel : nat) (http : string -> result (Response Repo))
    (org_url project_id : string) : option (result (list Repo)) :=
  option_map to_list (paged fuel http (repos_url org_url project_id) None).

(** [ADO.list_files]: the generator filters the pages as they come. *)
Definition list_files (fuel : nat) (http : string -> result (Response TreeItem))
    (org_url project_id repo_id branch_name : string) : option (stream FileItem) :=
  match paged fuel http (files_url org_url project_id repo_id branch_name) None with
  | Some (items, failure) => Some (omap file_of_item items, failure)
  | None => None
  end.

(** The [while] loop of [ADO.list_commits]: [commits] collected so far,
    next request at [skip]. *)
Fixpoint commits_loop {A} (fuel : nat) (http : string -> result (Response A))
    (url_at : N -> string) (top skip : N) (commits : list A)
  : option (result (list A)) :=
  match fuel with
  | O => None
  | S fuel' =>
      match get http (url_at skip) with
      | Raise e => Some (Raise e)
      | Ok r =>
          match default [] (value r) with
          | [] => Some (Ok commits)
          | batch =>
              if (N.of_nat (length batch) <? top)%N then Some (Ok (commits ++ batch))
              else commits_loop fuel' http url_at top (skip + top)%N (commits ++ batch)
          end
      end
  end.

(** [ADO.list_commits] *)
Definition list_commits {A} (fuel : nat) (http : string -> result (Response A))
    (org_url project_id repo_id branch_name from_date : string)
  : option (result (list A)) :=
  commits_loop fuel http
    (commits_url org_url project_id repo_id branch_name from_date 200) 200 0 [].

(** A chain of pages: each response but the last names the next page. *)
Inductive chain {A} (http : string -> result (Response A)) (url : string)
  : option string -> list (Response A) -> Prop :=
  | chain_last continuation r :
      get http (page_url url continuation) = Ok r ->
      Str.truthy (Client.continuation r) = None ->
      chain http url continuation [r]
  | chain_next continuation r token rest :
      get http (page_url url continuation) = Ok r ->
      Str.truthy (Client.continuation r) = Some token ->
      chain http url (Some token) rest ->
      chain http url continuation (r :: rest).

(** The items of a list of pages, in order. *)
Definition items_of {A} (pages : list (Response A)) : list A :=
  concat (map (fun r => default [] (value r)) pages).

(** A service that hands out the list [l] in pages of [top]. *)
Definition serves {A} (http : string -> result (Response A)) (url_at : N -> string)
    (top : N) (l : list A) : Prop :=
  forall k : nat, k <= length l / N.to_nat top ->
    exists r, get http (url_at (N.of_nat k * top)%N) = Ok r
      /\ value r = Some (take (N.to_nat top) (drop (k * N.to_nat top) l)).

End Client.

(** Pages that each name a next page, followed by a request that raises. *)
Inductive broken_chain {A} (http : string -> result (Client.Response A)) (url : string)
  : option string -> list (Client.Response A) -> exn -> Prop :=
  | broken_here continuation e :
      Client.get http (Client.page_url url continuation) = Raise e ->
      broken_chain http url continuation [] e
  | broken_next continuation r token rest e :
      Client.get http (Client.page_url url continuation) = Ok r ->
      Str.truthy (Client.continuation r) = Some token ->
      broken_chain http url (Some token) rest e ->
      broken_chain http url continuation (r :: rest) e.

Module Pages.

Definition ok {A} (items : list A) (next : option string) : Client.Response A :=
  {| Client.status := 200; Client.reason := "OK";
     Client.value := Some items; Client.continuation := next |}.

Definition P1 : Project := {| proj_id := "p1"; proj_name := "One" |}.
Definition P2 : Project := {| proj_id := "p2"; proj_name := "Two" |}.
Definition P3 : Project := {| proj_id := "p3"; proj_name := "Three" |}.

Definition url : string := Client.projects_url "https://dev.azure.com/org/".

(** Two pages of projects; the token of the first is [t 1]. *)
Definition http (u : string) : result (Client.Response Project) :=
  if String.eqb u url then Ok (ok [P1; P2] (Some "t 1"))
  else if String.eqb u (url ++ "&continuationToken=t%201")%string then Ok (ok [P3] None)
  else Ok {| Client.status := 404; Client.reason := "Not Found";
             Client.value := None; Client.continuation := None |}.

(** The same service with the second page out of order. *)
Definition http_broken (u : string) : result (Client.Response Project) :=
  if String.eqb u url then Ok (ok [P1; P2] (Some "t 1"))
  else Ok {| Client.status := 503; Client.reason := "Service Unavailable";
             Client.value := None; Client.continuation := None |}.

(** Three commits, served whole at any offset. *)
Definition commits_http (u : string) : result (Client.Response string) :=
  Ok (ok ["c1"; "c2"; "c3"] None).

End Pages.

(** The first [k] offsets are answered with full pages. *)
Definition full_pages {A} (http : string -> result (Client.Response A))
    (url_at : N -> string) (top : N) (k : nat) : Prop :=
  forall j : nat, j < k ->
    exists r batch, Client.get http (url_at (N.of_nat j * top)%N) = Ok r
      /\ Client.value r = Some batch /\ N.of_nat (length batch) = top.

Module History.

(** 250 commit ids. *)
Definition commits : list string := map (fun n : nat => ("c" ++ pretty n)%string) (seq 0 250).

Definition url_at : N -> string :=
  Client.commits_url "https://dev.azure.com/org" "p1" "r1" "main" "2024-01-01" 200.

(** The service pages [commits] by 200. *)
Definition http (u : string) : result (Client.Response string) :=
  if String.eqb u (url_at 0) then Ok (Pages.ok (take 200 commits) None)
  else if String.eqb u (url_at 200) then Ok (Pages.ok (drop 200 commits) None)
  else Ok (Pages.ok [] None).

(** The same service, out of order from the second page on. *)
Definition http_broken (u : string) : result (Client.Response string) :=
  if String.eqb u (url_at 0) then Ok (Pages.ok (take 200 commits) None)
  else Ok {| Client.status := 500; Client.reason := "Internal Server Error";
             Client.value := None; Client.continuation := None |}.

End History.

(** ** Words for the properties of the traversal *)

(** [st'] continues [st]: rows and console lines were only added at the
    end, and no count of a tenant counter went down. *)
Definition extends (st st' : State) : Prop :=
  (exists rows, per_repo_rows st' = per_repo_rows st ++ rows)
  /\ (exists lines, stdout st' = stdout st ++ lines)
  /\ (exists lines, stderr st' = stderr st ++ lines)
  /\ (forall l, (counter_get (tenant_totals st) l
                 <= counter_get (tenant_totals st') l)%N)
  /\ (forall l, (counter_get (tenant_totals_code_only st) l
                 <= counter_get (tenant_totals_code_only st') l)%N).

(** Bytes of the files classified as language [l]. *)
Definition bytes_of_language (l : string) (files : list FileItem) : N :=
  byte_total (List.filter (fun f => String.eqb (classify (f_path f)) l) files).

(** Sum of the [bytes] column of the repository-level report. *)
Definition report_bytes (rows : list RepoRow) : N :=
  fold_right N.add 0%N (map bytes rows).

(** The line the run writes to the error stream for a repository whose
    file listing failed with [e]. *)
Definition error_line (p : Project) (repo : Repo) (e : string) : string :=
  "  ! Error listing files for " ++ proj_name p ++ "/" ++ repo_name repo ++ ": " ++ e.

(** [old] occurs somewhere in [s]. *)
Fixpoint occurs (old s : string) : bool :=
  match Str.strip_prefix old s with
  | Some _ => true
  | None =>
      match s with
      | EmptyString => false
      | String _ r => occurs old r
      end
  end.

Module Offline.

(** The scenario's tenant with its commit endpoints out of order. *)
Definition tenant : Tenant :=
  {| projects := projects Scenario.tenant;
     repos := repos Scenario.tenant;
     tree := tree Scenario.tenant;
     commits_since := fun _ _ _ _ => Raise (HTTPError "503 Server Error");
     commit_changes := fun _ _ _ => Raise (HTTPError "503 Server Error") |}.

End Offline.

(** The labels the classifier gives. *)
Definition is_label (l : string) : Prop :=
  l = "Other" \/ In l (map snd EXT_TO_LANG).

(** A repository is accounted for by a row or by an error line. *)
Definition accounted (p : Project) (repo : Repo) (st : State) : Prop :=
  (exists row, In row (per_repo_rows st)
               /\ project row = proj_name p /\ repository row = repo_name repo)
  \/ (exists e, In (error_line p repo e) (stderr st)).

(** The text a language line of the summary has for a tenant row. *)
Definition summary_of_row (r : TenantRow) : string :=
  ljust 15 (t_language r) ++ " " ++ rjust 6 (fixed2 (Qnum (percent_all_files r))) ++ "%".

(** What the characters of a decoded string and of its lower-cased form
    have in common: a code point is below U+110000, a byte outside any
    sequence is not an ASCII character. *)
Definition well_formed (i : Unicode.item) : Prop :=
  match i with
  | Unicode.Point c => (c < 1114112)%N
  | Unicode.Stray a => (128 <= N_of_ascii a)%N
  end.

(** An entry of the lower-case table stays below U+110000, and where it
    maps to ASCII it maps to the letters [a] to [z]. *)
Definition range_ok (r : N * N * N * N) : bool :=
  let '(first, last, _, target) := r in
  ((first <=? last) && (target + (last - first) <? 1114112)
   && ((128 <=? target) || ((97 <=? target) && (target + (last - first) <=? 122))))%N.

Definition is_lower_letter (a : ascii) : bool :=
  let n := N_of_ascii a in ((97 <=? n) && (n <=? 122))%N.

(** * Properties *)

(** Running [main] on a concrete tenant, and reading a report of the
    outcome. *)
Tactic Notation "run_main" ident(o) ident(E) :=
  match goal with
  | |- context [main ?c ?a ?t] =>
      destruct (main c a t) as [o|] eqn:E; [|vm_compute in E; discriminate E]
  end.

Tactic Notation "read_report" constr(f) ident(o) ident(E) ident(r) ident(Er) :=
  destruct (f o) as [r|] eqn:Er;
  [|vm_compute in E; inversion E; subst o; discriminate Er].

(** ** Classifier *)

Lemma cut_last_none c s : Str.cut_last c s = None <-> Str.contains c s = false.
Proof.
  induction s as [|a r IH]; simpl; [tauto|].
  destruct (Str.cut_last c r) as [[h t]|].
  - split; [discriminate|]. intros H. apply orb_false_iff in H as [_ H].
    apply IH in H. discriminate.
  - destruct (Ascii.eqb a c); simpl; split; try discriminate; tauto.
Qed.

Lemma cut_last_some c s h t :
  Str.cut_last c s = Some (h, t) -> s = (h ++ String c t)%string /\ Str.contains c t = false.
Proof.
  revert h t. induction s as [|a r IH]; simpl; intros h t H; [discriminate|].
  destruct (Str.cut_last c r) as [[h' t']|] eqn:E.
  - inversion H; subst. destruct (IH _ _ eq_refl) as [-> Ht]. auto.
  - destruct (Ascii.eqb_spec a c) as [->|]; [|discriminate].
    inversion H; subst. split; [reflexivity|]. apply cut_last_none, E.
Qed.

Lemma cut_last_app c h t :
  Str.contains c t = false -> Str.cut_last c (h ++ String c t)%string = Some (h, t).
Proof.
  intros Ht. induction h as [|a h IH]; simpl.
  - apply cut_last_none in Ht. rewrite Ht, Ascii.eqb_refl. reflexivity.
  - rewrite IH. reflexivity.
Qed.

Lemma contains_app c h t : Str.contains c (h ++ String c t)%string = true.
Proof.
  induction h as [|a h IH]; simpl.
  - rewrite Ascii.eqb_refl. reflexivity.
  - rewrite IH. apply orb_true_r.
Qed.

(** [s.rsplit(c, 1)[-1]] is what follows the last [c], or all of [s]. *)
Lemma last_rsplit1_none c s :
  Str.contains c s = false -> Str.last_item (Str.rsplit1 c s) = s.
Proof.
  intros H. unfold Str.rsplit1. apply cut_last_none in H. rewrite H. reflexivity.
Qed.

Lemma last_rsplit1_app c h t :
  Str.contains c t = false -> Str.last_item (Str.rsplit1 c (h ++ String c t)%string) = t.
Proof.
  intros H. unfold Str.rsplit1. rewrite cut_last_app by assumption. reflexivity.
Qed.

Lemma final_segment_last p name :
  final_segment p name -> Str.last_item (Str.rsplit1 "/" p) = name.
Proof.
  intros [q H|dir n H]; [apply last_rsplit1_none | apply last_rsplit1_app]; exact H.
Qed.

Lemma final_segment_exists p : exists name, final_segment p name.
Proof.
  destruct (Str.cut_last "/" p) as [[h t]|] eqn:E.
  - apply cut_last_some in E as [-> Ht]. exists t. constructor. exact Ht.
  - exists p. constructor. apply cut_last_none, E.
Qed.

Lemma extension_exists name : exists e, extension_of name e.
Proof.
  destruct (Str.cut_last "." name) as [[h t]|] eqn:E.
  - apply cut_last_some in E as [-> Ht]. exists (Str.lower t). constructor. exact Ht.
  - exists "". constructor. apply cut_last_none, E.
Qed.

Lemma ext_from_path_spec p name e :
  final_segment p name -> extension_of name e -> ext_from_path p = e.
Proof.
  intros Hs He. unfold ext_from_path. rewrite (final_segment_last _ _ Hs).
  destruct He as [n H|stem x H].
  - rewrite H. reflexivity.
  - rewrite contains_app. simpl. rewrite last_rsplit1_app by assumption. reflexivity.
Qed.

(** C9. The classifier is a total function of the path alone.  The
    extension it uses is the lower-cased text after the last dot of the
    final slash-separated segment, and the empty string when that segment
    has no dot; every path has such a segment and extension.  The label is
    the table entry of the extension, and "Other" when the table has none
    (the empty extension included).  [src/app/main.py] is Python, [README]
    and [archive.tar.gz] (extension [gz]) are Other.  The lower-casing is
    that of Python, on code points: [notes.ÉXT] has the extension [éxt],
    and [App.KT] written with the Kelvin sign (U+212A) for its K has the
    extension [kt] and is Kotlin. *)
Theorem classifier_spec :
  (forall p name e, final_segment p name -> extension_of name e ->
     ext_from_path p = e /\ classify p = lang_from_ext e)
  /\ (forall p, exists name e, final_segment p name /\ extension_of name e)
  /\ (forall e l, dict_get EXT_TO_LANG e = Some l -> lang_from_ext e = l)
  /\ (forall e, dict_get EXT_TO_LANG e = None -> lang_from_ext e = "Other")
  /\ lang_from_ext "" = "Other"
  /\ (ext_from_path "src/app/main.py" = "py" /\ classify "src/app/main.py" = "Python")
  /\ (ext_from_path "README" = "" /\ classify "README" = "Other")
  /\ (ext_from_path "archive.tar.gz" = "gz" /\ classify "archive.tar.gz" = "Other")
  /\ ext_from_path "notes.ÉXT" = "éxt"
  /\ (ext_from_path ("App." ++ Unicode.utf8 0x212A ++ "T") = "kt"
      /\ classify ("App." ++ Unicode.utf8 0x212A ++ "T") = "Kotlin").
Proof.
  split; [|split; [|split; [|split]]].
  - intros p name e Hs He. unfold classify.
    rewrite (ext_from_path_spec _ _ _ Hs He). split; reflexivity.
  - intros p. destruct (final_segment_exists p) as [name Hn].
    destruct (extension_exists name) as [e He]. eauto.
  - intros e l H. unfold lang_from_ext. rewrite H. reflexivity.
  - intros e H. unfold lang_from_ext. rewrite H. reflexivity.
  - repeat split; vm_compute; reflexivity.
Qed.

Lemma classifier_spec_witness :
  final_segment "docs/Guide.MD" "Guide.MD" /\ extension_of "Guide.MD" "md"
  /\ ext_from_path "docs/Guide.MD" = "md"
  /\ classify "docs/Guide.MD" = "Markdown".
Proof.
  assert (Hs : final_segment "docs/Guide.MD" "Guide.MD")
    by (apply (segment_after "docs" "Guide.MD"); reflexivity).
  assert (He : extension_of "Guide.MD" "md")
    by (apply (extension_some "Guide" "MD"); reflexivity).
  split; [exact Hs|]. split; [exact He|].
  destruct (proj1 classifier_spec "docs/Guide.MD" "Guide.MD" "md" Hs He) as [H1 H2].
  split; [exact H1|]. rewrite H2. reflexivity.
Defined.

(** ** Changed paths of a set of commits *)

Lemma truthy_some o p : Str.truthy o = Some p <-> o = Some p /\ p <> "".
Proof.
  destruct o as [[|a s]|]; simpl; split.
  - discriminate.
  - intros [H Hne]. inversion H; subst. contradiction.
  - intros H. split; [exact H|]. inversion H. discriminate.
  - tauto.
  - discriminate.
  - intros [H _]. discriminate.
Qed.

Lemma record_change_spec acc ch p :
  (p ∈ fst (record_change acc ch) <-> p ∈ fst acc \/ touches false ch p)
  /\ (p ∈ snd (record_change acc ch) <-> p ∈ snd acc \/ touches true ch p).
Proof.
  destruct acc as [changed created]. unfold record_change, touches, counted.
  fold (change_kind ch).
  destruct (Str.truthy (item_path ch)) as [q|] eqn:Hq.
  - apply truthy_some in Hq as [Hq Hne]. rewrite Hq.
    destruct (String.eqb_spec (change_kind ch) "add") as [Ha|Ha].
    + simpl. split; split.
      * rewrite elem_of_union, elem_of_singleton. intros [->|?]; auto 10.
      * rewrite elem_of_union, elem_of_singleton.
        intros [?|(H & _ & _)]; [auto|]. inversion H; auto.
      * rewrite elem_of_union, elem_of_singleton. intros [->|?]; auto 10.
      * rewrite elem_of_union, elem_of_singleton.
        intros [?|(H & _ & _)]; [auto|]. inversion H; auto.
    + destruct (String.eqb_spec (change_kind ch) "edit") as [He|He];
      [|destruct (String.eqb_spec (change_kind ch) "rename") as [Hr|Hr]];
      simpl; (split; split);
      try (rewrite elem_of_union, elem_of_singleton);
      try (intros [->|?]; auto 10; fail);
      try (intros [?|(H & _ & Hc)]; [auto|]; inversion H; auto; fail);
      try tauto;
      try (intros [?|(H & _ & [Hc|[Hc _]])]; [auto|congruence|discriminate]);
      try (intros [?|(H & _ & [Hc|[_ [Hc|Hc]]])]; [auto|congruence..]).
  - simpl. assert (Hn : forall q, ~ (item_path ch = Some q /\ q <> "")).
    { intros q [H1 H2]. assert (H : Str.truthy (item_path ch) = Some q)
        by (apply truthy_some; auto). congruence. }
    split; split; auto; intros [?|(H1 & H2 & _)]; auto; exfalso; eapply Hn; eauto.
Qed.

Lemma fold_record_spec chs acc p :
  (p ∈ fst (fold_left record_change chs acc)
     <-> p ∈ fst acc \/ exists ch, ch ∈ chs /\ touches false ch p)
  /\ (p ∈ snd (fold_left record_change chs acc)
     <-> p ∈ snd acc \/ exists ch, ch ∈ chs /\ touches true ch p).
Proof.
  revert acc. induction chs as [|ch chs IH]; intros acc; simpl.
  - split; split; auto; intros [?|[ch [H _]]]; auto; inversion H.
  - destruct (IH (record_change acc ch)) as [IH1 IH2].
    destruct (record_change_spec acc ch p) as [R1 R2].
    rewrite IH1, IH2, R1, R2. clear.
    split; split.
    + intros [[?|?]|[c [? ?]]]; eauto using list_elem_of_here, list_elem_of_further.
    + intros [?|[c [Hc ?]]]; auto. apply elem_of_cons in Hc as [->|?]; eauto.
    + intros [[?|?]|[c [? ?]]]; eauto using list_elem_of_here, list_elem_of_further.
    + intros [?|[c [Hc ?]]]; auto. apply elem_of_cons in Hc as [->|?]; eauto.
Qed.

Lemma scan_commits_spec t pid rid cids chss :
  Forall2 (fun cid chs => commit_changes t pid rid cid = Ok chs) cids chss ->
  forall acc, exists acc',
    scan_commits t pid rid cids acc = Ok acc'
    /\ forall p,
        (p ∈ fst acc' <-> p ∈ fst acc
           \/ exists chs ch, chs ∈ chss /\ ch ∈ chs /\ touches false ch p)
        /\ (p ∈ snd acc' <-> p ∈ snd acc
           \/ exists chs ch, chs ∈ chss /\ ch ∈ chs /\ touches true ch p).
Proof.
  induction 1 as [|cid chs cids chss Hc _ IH]; intros acc; simpl.
  - exists acc. split; [reflexivity|]. intros p.
    split; split; auto; intros [?|(c & ? & H & _)]; auto; inversion H.
  - rewrite Hc. simpl.
    destruct (IH (fold_left record_change chs acc)) as (acc' & -> & Hacc).
    exists acc'. split; [reflexivity|]. intros p.
    destruct (Hacc p) as [H1 H2]. destruct (fold_record_spec chs acc p) as [F1 F2].
    rewrite H1, H2, F1, F2. clear.
    split; split.
    + intros [[?|[c [? ?]]]|(cs & c & ? & ? & ?)];
        eauto 8 using list_elem_of_here, list_elem_of_further.
    + intros [?|(cs & c & Hcs & ? & ?)]; auto.
      apply elem_of_cons in Hcs as [->|?]; eauto 8.
    + intros [[?|[c [? ?]]]|(cs & c & ? & ? & ?)];
        eauto 8 using list_elem_of_here, list_elem_of_further.
    + intros [?|(cs & c & Hcs & ? & ?)]; auto.
      apply elem_of_cons in Hcs as [->|?]; eauto 8.
Qed.

(** C4. When every per-commit request succeeds, the changed-paths
    resolution returns exactly the paths (non-empty ones; a record without
    a path is skipped) that some change record of some given commit
    touches with kind add, edit or rename, and with [created_only] exactly
    those that some record adds: a union over the commits, so a path added
    in one commit and edited in a later one is still in the created set.
    For C1 (adds a.py) and C2 (edits a.py, adds b.md) both modes give
    {a.py, b.md}; C2 alone with [created_only] gives {b.md}. *)
Theorem changed_paths_union :
  (forall t pid rid cids chss created_only,
     Forall2 (fun cid chs => commit_changes t pid rid cid = Ok chs) cids chss ->
     exists paths,
       list_changed_paths_for_commits t pid rid cids created_only = Ok paths
       /\ forall p, p ∈ paths <->
            exists chs ch, chs ∈ chss /\ ch ∈ chs /\ touches created_only ch p)
  /\ list_changed_paths_for_commits Window.tenant "P" "R" ["C1"; "C2"] true
     = Ok ({["a.py"]} ∪ {["b.md"]})
  /\ list_changed_paths_for_commits Window.tenant "P" "R" ["C1"; "C2"] false
     = Ok ({["a.py"]} ∪ {["b.md"]})
  /\ list_changed_paths_for_commits Window.tenant "P" "R" ["C2"] true
     = Ok {["b.md"]}.
Proof.
  split.
  - intros t pid rid cids chss created_only H.
    destruct (scan_commits_spec t pid rid cids chss H (∅, ∅)) as (acc & Hs & Hacc).
    unfold list_changed_paths_for_commits. rewrite Hs. simpl.
    eexists. split; [reflexivity|]. intros p. destruct (Hacc p) as [H1 H2].
    destruct created_only; [rewrite H2 | rewrite H1]; simpl;
      (split; [intros [Hp|?]; [set_solver|assumption] | auto]).
  - unfold list_changed_paths_for_commits. simpl.
    repeat split; f_equal; apply set_eq; intros x; set_solver.
Qed.

Lemma changed_paths_union_witness :
  exists paths,
    list_changed_paths_for_commits Window.tenant "P" "R" ["C1"; "C2"] true = Ok paths
    /\ ("a.py" ∈ paths <->
        exists chs ch, chs ∈ [[Window.add "a.py"];
                               [Window.edit "a.py"; Window.add "b.md"]]
                       /\ ch ∈ chs /\ touches true ch "a.py").
Proof.
  destruct (proj1 changed_paths_union Window.tenant "P" "R" ["C1"; "C2"]
              [[Window.add "a.py"]; [Window.edit "a.py"; Window.add "b.md"]] true)
    as (paths & Hp & Hin).
  - repeat constructor.
  - exists paths. split; [exact Hp|]. apply Hin.
Defined.

(** ** Counters and their most-common order *)

Lemma counter_keys_add c k n :
  counter_keys (counter_add c k n)
  = if existsb (String.eqb k) (counter_keys c) then counter_keys c
    else counter_keys c ++ [k].
Proof.
  induction c as [|[k' v] c IH]; simpl; [reflexivity|].
  rewrite (String.eqb_sym k k').
  destruct (String.eqb k' k); simpl; [reflexivity|].
  fold (counter_keys c). fold (counter_keys (counter_add c k n)). rewrite IH.
  destruct (existsb (String.eqb k) (counter_keys c)); reflexivity.
Qed.

Lemma counter_get_add c k n k' :
  counter_get (counter_add c k n) k'
  = if String.eqb k k' then (counter_get c k + n)%N else counter_get c k'.
Proof.
  induction c as [|[k0 v] c IH]; simpl.
  - destruct (String.eqb k k'); reflexivity.
  - destruct (String.eqb_spec k0 k) as [->|Hne]; simpl.
    + destruct (String.eqb_spec k k') as [->|]; [reflexivity|reflexivity].
    + destruct (String.eqb_spec k0 k') as [->|].
      * destruct (String.eqb_spec k k') as [->|]; [contradiction|reflexivity].
      * exact IH.
Qed.

Lemma counter_total_add c k n :
  counter_total (counter_add c k n) = (counter_total c + n)%N.
Proof.
  unfold counter_total, counter_values.
  induction c as [|[k' v] c IH]; simpl; [lia|].
  destruct (String.eqb k' k); simpl; [lia|]. rewrite IH. lia.
Qed.

Lemma existsb_eqb_In k l : existsb (String.eqb k) l = true <-> In k l.
Proof.
  rewrite existsb_exists. split.
  - intros (x & Hx & E). apply String.eqb_eq in E. subst. exact Hx.
  - intros H. exists k. split; [exact H|apply String.eqb_refl].
Qed.

Lemma counter_add_NoDup c k n :
  NoDup (counter_keys c) -> NoDup (counter_keys (counter_add c k n)).
Proof.
  intros H. rewrite counter_keys_add.
  destruct (existsb (String.eqb k) (counter_keys c)) eqn:E; [exact H|].
  apply NoDup_app. repeat split; [exact H| |apply NoDup_singleton].
  intros x Hx Hx'. apply list_elem_of_In in Hx, Hx'. destruct Hx' as [<-|[]].
  apply existsb_eqb_In in Hx. congruence.
Qed.

Lemma counter_get_In c k v :
  NoDup (counter_keys c) -> In (k, v) c -> counter_get c k = v.
Proof.
  induction c as [|[k' v'] c IH]; simpl; intros Hnd Hin; [contradiction|].
  apply NoDup_cons in Hnd as [Hk Hnd].
  destruct Hin as [E|Hin].
  - inversion E; subst. rewrite String.eqb_refl. reflexivity.
  - destruct (String.eqb_spec k' k) as [->|]; [|auto].
    exfalso. apply Hk. apply list_elem_of_In. apply (in_map fst) in Hin. exact Hin.
Qed.

Lemma insert_desc_perm x l : Permutation (insert_desc x l) (x :: l).
Proof.
  induction l as [|y r IH]; simpl; [reflexivity|].
  destruct (snd x <? snd y)%N; [|reflexivity].
  rewrite IH. apply perm_swap.
Qed.

Lemma most_common_perm c : Permutation (most_common c) c.
Proof.
  induction c as [|x r IH]; simpl; [reflexivity|].
  rewrite insert_desc_perm. apply perm_skip, IH.
Qed.

Lemma insert_desc_descending x l : descending l -> descending (insert_desc x l).
Proof.
  unfold descending. induction 1 as [|y r Hr IH Hy]; simpl.
  - repeat constructor.
  - destruct (N.ltb_spec (snd x) (snd y)).
    + constructor; [exact IH|].
      assert (Hp := insert_desc_perm x r).
      apply Forall_forall. intros z Hz.
      apply list_elem_of_In in Hz.
      apply (Permutation_in _ Hp) in Hz. destruct Hz as [<-|Hz]; [lia|].
      rewrite Forall_forall in Hy. apply Hy. apply list_elem_of_In. exact Hz.
    + constructor; [constructor; assumption|].
      constructor; [exact H|].
      eapply Forall_impl; [exact Hy|]. simpl. intros z Hz. lia.
Qed.

Lemma most_common_descending c : descending (most_common c).
Proof.
  induction c as [|x r IH]; simpl; [constructor|].
  apply insert_desc_descending, IH.
Qed.

Lemma insert_desc_with_count v x l :
  with_count v (insert_desc x l) = with_count v (x :: l).
Proof.
  unfold with_count. induction l as [|y r IH]; simpl; [reflexivity|].
  destruct (N.ltb_spec (snd x) (snd y)); simpl; [|reflexivity].
  rewrite IH. simpl.
  destruct (N.eqb_spec (snd x) v), (N.eqb_spec (snd y) v); try reflexivity. lia.
Qed.

(** Stability: the entries of any one count come out in the order the
    counter holds them. *)
Lemma most_common_stable v c : with_count v (most_common c) = with_count v c.
Proof.
  induction c as [|x r IH]; simpl; [reflexivity|].
  rewrite insert_desc_with_count. unfold with_count in *. simpl. rewrite IH. reflexivity.
Qed.

(** ** Rounding to binary64 *)

Section FloatError.
Local Open Scope Q_scope.

Lemma round_half_even_bound q :
  Qabs (inject_Z (Float.round_half_even q) - q) <= 1 # 2.
Proof.
  destruct q as [n d]. unfold Float.round_half_even. simpl.
  assert (Hd : (0 < 2 * Z.pos d)%Z) by lia.
  pose proof (Z.div_mod (2 * n + Z.pos d) (2 * Z.pos d) ltac:(lia)) as Hdm.
  pose proof (Z.mod_pos_bound (2 * n + Z.pos d) (2 * Z.pos d) Hd) as Hr.
  set (k := ((2 * n + Z.pos d) / (2 * Z.pos d))%Z) in *.
  set (r := ((2 * n + Z.pos d) mod (2 * Z.pos d))%Z) in *.
  assert (Hgoal : forall m : Z, (2 * Z.abs (m * Z.pos d - n) <= Z.pos d)%Z ->
            Qabs (inject_Z m - (n # d)) <= 1 # 2).
  { intros m Hm. unfold Qabs, Qle, Qminus, Qplus, Qopp, inject_Z; simpl.
    rewrite Z.mul_1_r. lia. }
  apply Hgoal.
  destruct ((r =? 0)%Z && Z.odd k) eqn:E.
  - apply andb_true_iff in E as [E _]. apply Z.eqb_eq in E. nia.
  - assert (Hk : r <> 0%Z \/ Z.odd k = false).
    { apply andb_false_iff in E as [E|E]; [left; apply Z.eqb_neq, E|right; exact E]. }
    nia.
Qed.


Lemma scale2_spec q k : Float.scale2 q k == q * 2 ^ k.
Proof.
  unfold Float.scale2. destruct (Z.leb_spec 0 k) as [Hk|Hk].
  - rewrite Zpower_Qpower by assumption. reflexivity.
  - rewrite Zpower_Qpower by lia. unfold Qdiv.
    rewrite <- Qpower_opp, Z.opp_involutive. reflexivity.
Qed.

Lemma pow2_pos k : 0 < 2 ^ k.
Proof. apply Qpower_0_lt. reflexivity. Qed.

Lemma pow2_add x y : (2:Q) ^ (x + y) == 2 ^ x * 2 ^ y.
Proof. apply Qpower_plus. discriminate. Qed.

Lemma pow2_cancel k : (2:Q) ^ k * 2 ^ (- k) == 1.
Proof. rewrite <- pow2_add, Z.add_opp_diag_r. reflexivity. Qed.

Lemma pow2_of_Z k : (0 <= k)%Z -> inject_Z (2 ^ k) == 2 ^ k.
Proof. intros H. rewrite Zpower_Qpower by assumption. reflexivity. Qed.

Lemma ratio_ge_pow2 (n : Z) (d : positive) a b :
  (0 <= a)%Z -> (0 <= b)%Z -> (2 ^ a <= n)%Z -> (Z.pos d <= 2 ^ b)%Z ->
  (2:Q) ^ (a - b) <= n # d.
Proof.
  intros Ha Hb Hn Hd.
  rewrite Zle_Qle in Hn, Hd. rewrite pow2_of_Z in Hn, Hd by assumption.
  replace (a - b)%Z with (a + - b)%Z by lia. rewrite pow2_add.
  pose proof (pow2_cancel b) as Hc.
  pose proof (pow2_pos a) as Pa. pose proof (pow2_pos b) as Pb.
  pose proof (pow2_pos (- b)) as Pnb.
  assert (Hq : (n # d) * inject_Z (Z.pos d) == inject_Z n).
  { unfold Qeq, Qmult, inject_Z; simpl. lia. }
  assert (Hd0 : 0 < inject_Z (Z.pos d)) by (unfold Qlt; simpl; lia).
  set (Q0 := n # d) in *. set (D := inject_Z (Z.pos d)) in *.
  set (N := inject_Z n) in *. set (A := 2 ^ a) in *. set (B := 2 ^ b) in *.
  set (Bi := 2 ^ (- b)) in *.
  assert (Hq0 : 0 <= Q0) by nra.
  assert (H1 : Q0 * D <= Q0 * B) by nra.
  assert (H2 : A * Bi <= N * Bi) by nra.
  assert (H4 : (Q0 * D) * Bi <= (Q0 * B) * Bi)
    by (apply Qmult_le_compat_r; [exact H1|apply Qlt_le_weak, Pnb]).
  assert (H5 : (Q0 * B) * Bi == Q0) by (rewrite <- Qmult_assoc, Hc; ring).
  assert (H6 : N * Bi == (Q0 * D) * Bi) by (rewrite Hq; reflexivity).
  lra.
Qed.

Lemma exponent_lower q : 0 < q -> 2 ^ 52 <= q * 2 ^ (- Float.exponent q).
Proof.
  intros Hq. destruct q as [n d].
  assert (Hn : (0 < n)%Z) by (unfold Qlt in Hq; simpl in Hq; lia).
  unfold Float.exponent. simpl Qnum. simpl Qden.
  set (a := Z.log2 n). set (b := Z.log2 (Z.pos d)).
  assert (Ha : (0 <= a)%Z) by apply Z.log2_nonneg.
  assert (Hb : (0 <= b)%Z) by apply Z.log2_nonneg.
  destruct (Z.log2_spec n Hn) as [Hn1 _]. fold a in Hn1.
  destruct (Z.log2_spec (Z.pos d) ltac:(lia)) as [_ Hd1]. fold b in Hd1.
  assert (Hr : (2:Q) ^ (a - (b + 1)) <= n # d).
  { apply ratio_ge_pow2; unfold Z.succ in *; lia. }
  assert (H0 : 2 ^ 52 <= (n # d) * 2 ^ (- (a - b - 53))).
  { assert (E : (2:Q) ^ 52 == 2 ^ (a - (b + 1)) * 2 ^ (- (a - b - 53))).
    { rewrite <- pow2_add. replace (a - (b + 1) + - (a - b - 53))%Z with 52%Z by lia.
      reflexivity. }
    rewrite E. apply Qmult_le_compat_r; [exact Hr|apply Qlt_le_weak, pow2_pos]. }
  destruct (Qle_bool _ _) eqn:Eb; [|exact H0].
  apply Qle_bool_iff in Eb. rewrite scale2_spec in Eb.
  replace (- (a - b - 53 + 1))%Z with (- (a - b - 53) + - 1)%Z by lia.
  rewrite pow2_add.
  set (s := (n # d) * 2 ^ (- (a - b - 53))) in *.
  assert (E1 : (n # d) * (2 ^ (- (a - b - 53)) * 2 ^ (-1)) == s * (1 # 2))
    by (unfold s; change ((2:Q) ^ (-1)) with (1 # 2); ring).
  rewrite E1.
  change (inject_Z (2 ^ 53)) with ((2:Q) ^ 53) in Eb.
  assert (E53 : (2:Q) ^ 53 == 2 * 2 ^ 52) by reflexivity.
  lra.
Qed.


Lemma fl_pos_err q : 0 < q -> Qabs (Float.fl_pos q - q) <= q * Float.unit_roundoff.
Proof.
  intros Hq. unfold Float.fl_pos.
  pose proof (exponent_lower q Hq) as He.
  set (e := Float.exponent q) in *.
  pose proof (round_half_even_bound (Float.scale2 q (- e))) as Hm.
  set (m := inject_Z (Float.round_half_even (Float.scale2 q (- e)))) in *.
  rewrite scale2_spec in Hm. rewrite scale2_spec.
  pose proof (pow2_cancel e) as Hc.
  pose proof (pow2_pos e) as Pp. pose proof (pow2_pos (- e)) as Pn.
  set (P := 2 ^ e) in *. set (Pi := 2 ^ (- e)) in *.
  apply Qabs_Qle_condition in Hm as [Hm1 Hm2].
  apply Qabs_Qle_condition.
  assert (E52 : (2:Q) ^ 52 == 4503599627370496) by reflexivity.
  rewrite E52 in He. unfold Float.unit_roundoff.
  assert (Hq' : q * Pi * P == q) by (rewrite <- Qmult_assoc, (Qmult_comm Pi), Hc; ring).
  assert (H1 : 4503599627370496 * P <= q * Pi * P)
    by (apply Qmult_le_compat_r; [exact He|apply Qlt_le_weak, Pp]).
  assert (H2 : (m - q * Pi) * P <= (1 # 2) * P)
    by (apply Qmult_le_compat_r; [exact Hm2|apply Qlt_le_weak, Pp]).
  assert (H3 : (- (1 # 2)) * P <= (m - q * Pi) * P)
    by (apply Qmult_le_compat_r; [exact Hm1|apply Qlt_le_weak, Pp]).
  assert (H4 : (m - q * Pi) * P == m * P - q * Pi * P) by ring.
  split; lra.
Qed.

Lemma fl_err q : 0 <= q -> Qabs (Float.fl q - q) <= q * Float.unit_roundoff.
Proof.
  intros Hq. destruct q as [[|n|n] d]; unfold Float.fl; simpl Qnum.
  - apply Qabs_Qle_condition. unfold Float.unit_roundoff, Qle; simpl. lia.
  - apply fl_pos_err. reflexivity.
  - exfalso. unfold Qle in Hq. simpl in Hq. lia.
Qed.

Lemma fl_bounds q :
  0 <= q -> q * (1 - Float.unit_roundoff) <= Float.fl q <= q * (1 + Float.unit_roundoff).
Proof.
  intros Hq. pose proof (fl_err q Hq) as H.
  apply Qabs_Qle_condition in H as [H1 H2]. split; lra.
Qed.

Lemma percent_chain (u b B P T Tf Y X : Q) :
  0 <= u -> u <= 1 # 16 -> 0 <= b -> 0 < T ->
  b * (1 - u) <= B <= b * (1 + u) ->
  100 * B * (1 - u) <= P <= 100 * B * (1 + u) ->
  T * (1 - u) <= Tf <= T * (1 + u) ->
  Y * Tf == P ->
  Y * (1 - u) <= X <= Y * (1 + u) ->
  100 * b * (1 - 5 * u) <= X * T <= 100 * b * (1 + 5 * u).
Proof.
  intros Hu Hu' Hb HT [HB1 HB2] [HP1 HP2] [HT1 HT2] HY [HX1 HX2].
  assert (HTf : 0 < Tf) by nra.
  assert (HB0 : 0 <= B) by nra.
  assert (HP0 : 0 <= P) by nra.
  assert (HY0 : 0 <= Y) by nra.
  assert (Hup : 0 < 1 + u) by lra.
  assert (Hum : 0 < 1 - u) by lra.
  split.
  - assert (S1 : P <= Y * T * (1 + u)) by nra.
    assert (S2 : 100 * b * ((1 - u) * (1 - u)) <= P) by nra.
    assert (S3 : Y * T * (1 - u) <= X * T) by nra.
    assert (S2' : 100 * b * ((1 - u) * (1 - u)) * (1 - u) <= P * (1 - u))
      by (apply Qmult_le_compat_r; [exact S2|lra]).
    assert (S1' : P * (1 - u) <= Y * T * (1 + u) * (1 - u))
      by (apply Qmult_le_compat_r; [exact S1|lra]).
    assert (S3' : Y * T * (1 - u) * (1 + u) <= X * T * (1 + u))
      by (apply Qmult_le_compat_r; [exact S3|lra]).
    assert (S6 : (1 - 5 * u) * (1 + u) <= (1 - u) * (1 - u) * (1 - u)) by nra.
    assert (S6' : (1 - 5 * u) * (1 + u) * (100 * b)
                  <= (1 - u) * (1 - u) * (1 - u) * (100 * b))
      by (apply Qmult_le_compat_r; [exact S6|lra]).
    apply (Qmult_le_r _ _ (1 + u)); [exact Hup|]. lra.
  - assert (S1 : Y * T * (1 - u) <= P) by nra.
    assert (S2 : P <= 100 * b * ((1 + u) * (1 + u))) by nra.
    assert (S3 : X * T <= Y * T * (1 + u)) by nra.
    assert (S2' : P * (1 + u) <= 100 * b * ((1 + u) * (1 + u)) * (1 + u))
      by (apply Qmult_le_compat_r; [exact S2|lra]).
    assert (S1' : Y * T * (1 - u) * (1 + u) <= P * (1 + u))
      by (apply Qmult_le_compat_r; [exact S1|lra]).
    assert (S3' : X * T * (1 - u) <= Y * T * (1 + u) * (1 - u))
      by (apply Qmult_le_compat_r; [exact S3|lra]).
    assert (S6 : (1 + u) * (1 + u) * (1 + u) <= (1 + 5 * u) * (1 - u)) by nra.
    assert (S6' : (1 + u) * (1 + u) * (1 + u) * (100 * b)
                  <= (1 + 5 * u) * (1 - u) * (100 * b))
      by (apply Qmult_le_compat_r; [exact S6|lra]).
    apply (Qmult_le_r _ _ (1 - u)); [exact Hum|]. lra.
Qed.

End FloatError.

(** The model against values CPython prints for
    [round(100.0 * b / total, 2)]: 1.01 for 203/20000 (the exact share
    1.015 is a tie that exact arithmetic would send to 1.02), 0.12 and
    0.38 for the representable ties 0.125 and 0.375, and 12.5 for two
    counts beyond 2^53. *)
Example percent_203_20000 :
  (x <-- Float.percent 203 20000 ;; Ok (Float.hundredths x)) = Ok 101%Z.
Proof. vm_compute. reflexivity. Qed.

Example percent_1_800 :
  (x <-- Float.percent 1 800 ;; Ok (Float.hundredths x)) = Ok 12%Z.
Proof. vm_compute. reflexivity. Qed.

Example percent_3_800 :
  (x <-- Float.percent 3 800 ;; Ok (Float.hundredths x)) = Ok 38%Z.
Proof. vm_compute. reflexivity. Qed.

Example percent_beyond_2_53 :
  (x <-- Float.percent 12345678901234567890 98765432109876543210 ;;
   Ok (Float.hundredths x)) = Ok 1250%Z.
Proof. vm_compute. reflexivity. Qed.

(** ** Percentages *)

Section Percent.
Local Open Scope Q_scope.

Lemma QN_nonneg n : 0 <= QN n.
Proof. unfold QN, Qle; simpl. lia. Qed.

Lemma QN_pos n : (0 < n)%N -> 0 < QN n.
Proof. intros H. unfold QN, Qlt; simpl. lia. Qed.

Lemma QN_add a b : QN (a + b) == QN a + QN b.
Proof. unfold QN. rewrite N2Z.inj_add, inject_Z_plus. reflexivity. Qed.

(** The share computed in floating point is within five unit roundoffs of
    the exact one; no division by zero when the total is positive. *)
Lemma percent_spec b total :
  (0 < total)%N ->
  exists x, Float.percent b total = Ok x
    /\ 100 * QN b * (1 - 5 * Float.unit_roundoff) <= x * QN total
       <= 100 * QN b * (1 + 5 * Float.unit_roundoff).
Proof.
  intros Ht. unfold Float.percent, Float.div, Float.mul, Float.of_int.
  fold (QN b). fold (QN total).
  pose proof (QN_nonneg b) as Hb. pose proof (QN_pos total Ht) as HT.
  pose proof (fl_bounds (QN b) Hb) as HB.
  set (B := Float.fl (QN b)) in *.
  assert (HB0 : 0 <= 100 * B) by (unfold Float.unit_roundoff in HB; nra).
  pose proof (fl_bounds (100 * B) HB0) as HP.
  set (P := Float.fl (100 * B)) in *.
  pose proof (fl_bounds (QN total) (Qlt_le_weak _ _ HT)) as HTf.
  set (Tf := Float.fl (QN total)) in *.
  assert (HTf0 : 0 < Tf) by (unfold Float.unit_roundoff in HTf; nra).
  destruct (Qeq_bool Tf 0) eqn:E.
  { apply Qeq_bool_iff in E. lra. }
  assert (HP0 : 0 <= P) by (unfold Float.unit_roundoff in HP; nra).
  assert (HY : (P / Tf) * Tf == P) by (field; lra).
  assert (HY0 : 0 <= P / Tf).
  { apply Qle_shift_div_l; [exact HTf0|lra]. }
  pose proof (fl_bounds (P / Tf) HY0) as HX.
  eexists. split; [reflexivity|].
  apply (percent_chain Float.unit_roundoff (QN b) B P (QN total) Tf (P / Tf));
    try assumption; try (unfold Float.unit_roundoff; lra).
Qed.

Lemma hundredths_spec x :
  Qabs (inject_Z (Float.hundredths x) - 100 * x) <= 1 # 2.
Proof. apply round_half_even_bound. Qed.

(** One row: the rounded share, scaled by the total, against the exact
    one. *)
Lemma percent_row_bound b total x :
  (0 < total)%N ->
  Float.percent b total = Ok x ->
  Qabs (inject_Z (Float.hundredths x) * QN total - 10000 * QN b)
  <= (1 # 2) * QN total + 50000 * Float.unit_roundoff * QN b.
Proof.
  intros Ht Hx. destruct (percent_spec b total Ht) as (x' & Hx' & H1 & H2).
  rewrite Hx in Hx'. inversion Hx'; subst x'. clear Hx'.
  pose proof (hundredths_spec x) as Hh.
  apply Qabs_Qle_condition in Hh as [Hh1 Hh2].
  pose proof (QN_pos total Ht) as HT.
  set (h := inject_Z (Float.hundredths x)) in *.
  assert (A1 : (h - 100 * x) * QN total <= (1 # 2) * QN total)
    by (apply Qmult_le_compat_r; [exact Hh2|lra]).
  assert (A2 : (- (1 # 2)) * QN total <= (h - 100 * x) * QN total)
    by (apply Qmult_le_compat_r; [exact Hh1|lra]).
  apply Qabs_Qle_condition. split; lra.
Qed.

End Percent.

(** ** The tenant report of a counter *)

Section TenantRows.
Local Open Scope Q_scope.

Lemma total_or_1_pos c : (0 < total_or_1 c)%N.
Proof. unfold total_or_1. destruct (N.eqb_spec (counter_total c) 0); lia. Qed.

Lemma hundredths_as_decimal h : 100 * (h # 100) == inject_Z h.
Proof. unfold Qeq, Qmult, inject_Z; simpl. lia. Qed.

Lemma tenant_rows_of_spec total entries :
  (0 < total)%N ->
  exists rows,
    tenant_rows_of total entries = Ok rows
    /\ map entry_of rows = entries
    /\ Forall (fun r => exists x, Float.percent (t_bytes r) total = Ok x
                 /\ percent_all_files r = Float.hundredths x # 100) rows
    /\ Qabs (100 * percent_sum rows * QN total - 10000 * QN (counter_total entries))
       <= (1 # 2) * QN total * inject_Z (Z.of_nat (length entries))
          + 50000 * Float.unit_roundoff * QN (counter_total entries).
Proof.
  intros Ht. induction entries as [|[lang b] rest IH].
  - exists []. split; [reflexivity|]. split; [reflexivity|]. split; [constructor|].
    apply Qabs_Qle_condition.
    change (percent_sum []) with 0. change (QN (counter_total [])) with 0.
    change (inject_Z (Z.of_nat (@length (string * N) []))) with 0. split; lra.
  - destruct IH as (rows & Hr & Hm & Hall & Hsum).
    destruct (percent_spec b total Ht) as (x & Hx & _).
    set (row := {| t_language := lang; t_bytes := b;
                   percent_all_files := Float.hundredths x # 100 |}).
    exists (row :: rows).
    split; [simpl; rewrite Hx, Hr; reflexivity|].
    split; [simpl; rewrite Hm; reflexivity|].
    split; [constructor; [exists x; auto|exact Hall]|].
    change (length ((lang, b) :: rest)) with (S (length rest)).
    pose proof (percent_row_bound b total x Ht Hx) as Hrow.
    apply Qabs_Qle_condition in Hrow as [R1 R2].
    apply Qabs_Qle_condition in Hsum as [S1 S2].
    assert (Ec : QN (counter_total ((lang, b) :: rest)) == QN b + QN (counter_total rest)).
    { unfold counter_total; simpl. apply QN_add. }
    assert (El : inject_Z (Z.of_nat (S (length rest)))
                 == inject_Z (Z.of_nat (length rest)) + 1).
    { rewrite Nat2Z.inj_succ. unfold Z.succ. rewrite inject_Z_plus. reflexivity. }
    assert (Ep : percent_sum (row :: rows)
                 == (Float.hundredths x # 100) + percent_sum rows) by reflexivity.
    pose proof (hundredths_as_decimal (Float.hundredths x)) as Eh.
    rewrite Ec, El, Ep.
    set (h := Float.hundredths x # 100) in *.
    set (S := percent_sum rows) in *.
    assert (Eh' : 100 * (h + S) * QN total
                  == inject_Z (Float.hundredths x) * QN total + 100 * S * QN total).
    { rewrite <- Eh. ring. }
    rewrite Eh'.
    apply Qabs_Qle_condition. split; lra.
Qed.

Lemma tenant_rows_ok c :
  exists rows, tenant_rows c = Ok rows /\ map entry_of rows = most_common c.
Proof.
  destruct (tenant_rows_of_spec (total_or_1 c) (most_common c) (total_or_1_pos c))
    as (rows & H1 & H2 & _).
  exists rows. auto.
Qed.

Lemma summary_lines_of_ok total entries :
  (0 < total)%N ->
  exists lines, summary_lines_of total entries = Ok lines
                /\ length lines = length entries.
Proof.
  intros Ht. induction entries as [|[lang b] rest (lines & Hl & Hn)].
  - exists []. auto.
  - destruct (percent_spec b total Ht) as (x & Hx & _).
    exists (summary_line lang x :: lines). simpl. rewrite Hx, Hl. simpl. auto.
Qed.

Lemma summary_lines_ok c :
  exists lines, summary_lines c = Ok lines /\ length lines = length (most_common c).
Proof. apply summary_lines_of_ok, total_or_1_pos. Qed.

End TenantRows.

(** ** One repository *)

Lemma dict_get_value d k v :
  dict_get d k = Some v -> In v (map snd d).
Proof.
  induction d as [|[k' v'] d IH]; simpl; [discriminate|].
  destruct (String.eqb k' k); intros H; [inversion H; auto|auto].
Qed.

Lemma lang_from_ext_nonempty e : lang_from_ext e <> "".
Proof.
  unfold lang_from_ext. destruct (dict_get EXT_TO_LANG e) as [l|] eqn:E; [|discriminate].
  apply dict_get_value in E. simpl in E.
  repeat (destruct E as [<-|E]; [discriminate|]). contradiction.
Qed.

Lemma classify_nonempty p : classify p <> "".
Proof. apply lang_from_ext_nonempty. Qed.

Lemma counter_keys_add_In c k n k' :
  In k' (counter_keys (counter_add c k n)) <-> In k' (counter_keys c) \/ k' = k.
Proof.
  rewrite counter_keys_add.
  destruct (existsb (String.eqb k) (counter_keys c)) eqn:E.
  - apply existsb_eqb_In in E. split; [auto|]. intros [H| ->]; assumption.
  - rewrite in_app_iff. simpl. intuition.
Qed.

Lemma count_file_total recent acc item :
  counter_total (snd acc) = fst acc ->
  counter_total (snd (count_file recent acc item)) = fst (count_file recent acc item).
Proof.
  destruct acc as [t c]. simpl. intros H. unfold count_file.
  destruct recent as [paths|]; [destruct (bool_decide _)|]; simpl;
    rewrite ?counter_total_add; lia.
Qed.

Lemma count_file_keys recent acc item :
  ~ In "" (counter_keys (snd acc)) ->
  ~ In "" (counter_keys (snd (count_file recent acc item))).
Proof.
  destruct acc as [t c]. simpl. intros H. unfold count_file.
  destruct recent as [paths|]; [destruct (bool_decide _)|]; simpl; auto;
    rewrite counter_keys_add_In; intros [?|E]; auto;
    symmetry in E; revert E; apply classify_nonempty.
Qed.

Lemma count_file_NoDup recent acc item :
  NoDup (counter_keys (snd acc)) ->
  NoDup (counter_keys (snd (count_file recent acc item))).
Proof.
  destruct acc as [t c]. simpl. intros H. unfold count_file.
  destruct recent as [paths|]; [destruct (bool_decide _)|]; simpl; auto;
    apply counter_add_NoDup, H.
Qed.

Lemma count_files_spec recent items acc :
  counter_total (snd acc) = fst acc ->
  ~ In "" (counter_keys (snd acc)) ->
  NoDup (counter_keys (snd acc)) ->
  let acc' := fold_left (count_file recent) items acc in
  counter_total (snd acc') = fst acc'
  /\ ~ In "" (counter_keys (snd acc'))
  /\ NoDup (counter_keys (snd acc')).
Proof.
  revert acc. induction items as [|item items IH]; intros acc H1 H2 H3; simpl; [auto|].
  apply IH; auto using count_file_total, count_file_keys, count_file_NoDup.
Qed.

(** The total the loop reaches is the byte total of the files it keeps. *)
Lemma count_files_total recent items acc :
  fst (fold_left (count_file recent) items acc)
  = (fst acc + byte_total (kept recent items))%N.
Proof.
  revert acc. induction items as [|item items IH]; intros [t c].
  - destruct recent; unfold byte_total; simpl; lia.
  - change (fold_left (count_file recent) (item :: items) (t, c))
      with (fold_left (count_file recent) items (count_file recent (t, c) item)).
    rewrite IH. unfold count_file, kept, byte_total.
    destruct recent as [paths|]; simpl; [|lia].
    destruct (bool_decide (f_path item ∈ paths)); simpl; lia.
Qed.

Lemma counts_as_code_spec exclude lang :
  counts_as_code exclude lang
  = if exclude then Raise (TypeError "unhashable type: 'set'") else Ok true.
Proof. destruct exclude; reflexivity. Qed.

Lemma emit_language_rows_ok a pn rn br entries st st' :
  emit_language_rows a pn rn br entries st = Ok st' ->
  (entries = [] \/ exclude_non_code a = false)
  /\ per_repo_rows st' = per_repo_rows st ++ map (language_row pn rn br) entries
  /\ tenant_totals st' = counter_update (tenant_totals st) entries
  /\ tenant_totals_code_only st' = counter_update (tenant_totals_code_only st) entries
  /\ stdout st' = stdout st /\ stderr st' = stderr st.
Proof.
  revert st. induction entries as [|[lang b] rest IH]; intros st; simpl.
  - intros H. inversion H; subst. rewrite app_nil_r. auto 10.
  - unfold emit_language_row. rewrite counts_as_code_spec.
    destruct (exclude_non_code a) eqn:E; simpl; [discriminate|].
    intros H. apply IH in H as (_ & H1 & H2 & H3 & H4 & H5). simpl in *.
    rewrite H1, H2, H3, H4, H5, <- app_assoc. auto 10.
Qed.

Lemma emit_language_rows_false a pn rn br entries st :
  exclude_non_code a = false ->
  exists st', emit_language_rows a pn rn br entries st = Ok st'.
Proof.
  intros E. revert st. induction entries as [|[lang b] rest IH]; intros st; simpl.
  - eauto.
  - unfold emit_language_row. rewrite counts_as_code_spec, E. simpl. apply IH.
Qed.

Lemma emit_language_rows_true a pn rn br entry rest st :
  exclude_non_code a = true ->
  emit_language_rows a pn rn br (entry :: rest) st
  = Raise (TypeError "unhashable type: 'set'").
Proof.
  intros E. simpl. destruct entry as [lang b]. unfold emit_language_row.
  rewrite counts_as_code_spec, E. reflexivity.
Qed.

Lemma tally_of_app rows rows' :
  tally_of (rows ++ rows') = fold_left tally_step rows' (tally_of rows).
Proof. unfold tally_of. apply fold_left_app. Qed.

Lemma tally_of_language_rows pn rn br entries c :
  ~ In "" (counter_keys entries) ->
  fold_left tally_step (map (language_row pn rn br) entries) c = counter_update c entries.
Proof.
  revert c. induction entries as [|[lang b] rest IH]; intros c Hk; simpl; [reflexivity|].
  simpl in Hk. unfold tally_step at 2. simpl.
  destruct (String.eqb_spec lang "") as [->|_]; [tauto|].
  apply IH. tauto.
Qed.

Lemma counter_total_update c entries :
  counter_total (counter_update c entries) = (counter_total c + counter_total entries)%N.
Proof.
  revert c. induction entries as [|[lang b] rest IH]; intros c; simpl.
  - unfold counter_total at 3. simpl. lia.
  - unfold counter_update in *. simpl. rewrite IH, counter_total_add.
    unfold counter_total at 4. simpl. fold (counter_values rest).
    fold (counter_total rest). lia.
Qed.

Lemma append_placeholder_consistent st pn rn br :
  consistent st -> consistent (append_row st (placeholder pn rn br)).
Proof.
  intros (H1 & H2 & H3). unfold consistent. simpl.
  rewrite tally_of_app. simpl. auto.
Qed.

Lemma print_err_consistent st line : consistent st -> consistent (print_err st line).
Proof. intros H. exact H. Qed.

Lemma print_out_consistent st line : consistent st -> consistent (print_out st line).
Proof. intros H. exact H. Qed.

Lemma process_repo_step a t since p repo st st' :
  process_repo a t since p repo st = Ok st' <-> repo_step a t since p repo st st'.
Proof.
  unfold process_repo. split.
  - destruct (Str.truthy (defaultBranch repo)) as [branch|] eqn:Hb.
    + destruct (recent_filter a t since (proj_id p) repo
                  (Str.remove_all "refs/heads/" branch)) as [recent|e] eqn:Hr;
        simpl; [|discriminate].
      destruct (list_files t (proj_id p) (repo_id repo)
                  (Str.remove_all "refs/heads/" branch)) as [files failure] eqn:Hf.
      unfold consume_files.
      destruct failure as [[e|e|e|e]|]; try discriminate.
      * intros H. inversion H; subst. eapply step_listing_failed; eauto.
      * destruct (fold_left (count_file recent) files (0%N, [])) as [total lang_bytes] eqn:Hc.
        assert (Ht : total = byte_total (kept recent files)).
        { pose proof (count_files_total recent files (0%N, [])) as H.
          rewrite Hc in H. simpl in H. exact H. }
        destruct (N.eqb_spec total 0) as [E|E].
        -- intros H. inversion H; subst. eapply step_nothing_counted; eauto.
        -- intros H. eapply step_languages; eauto; [congruence|].
           rewrite Hc. exact H.
    + intros H. inversion H; subst. apply step_no_branch. exact Hb.
  - intros [Hb|branch recent files e Hb Hr Hf|branch recent files Hb Hr Hf Hz
            |branch recent files st'' Hb Hr Hf Hz He].
    + rewrite Hb. reflexivity.
    + rewrite Hb, Hr. simpl. rewrite Hf. reflexivity.
    + rewrite Hb, Hr. simpl. rewrite Hf. unfold consume_files.
      destruct (fold_left (count_file recent) files (0%N, [])) as [total lang_bytes] eqn:Hc.
      pose proof (count_files_total recent files (0%N, [])) as H.
      rewrite Hc in H. simpl in H. rewrite H, Hz. reflexivity.
    + rewrite Hb, Hr. simpl. rewrite Hf. unfold consume_files.
      destruct (fold_left (count_file recent) files (0%N, [])) as [total lang_bytes] eqn:Hc.
      pose proof (count_files_total recent files (0%N, [])) as H.
      rewrite Hc in H. simpl in H. rewrite N.add_0_l in H. rewrite H.
      destruct (N.eqb_spec (byte_total (kept recent files)) 0); [contradiction|].
      simpl in He. exact He.
Qed.

Lemma repo_step_consistent a t since p repo st st' :
  consistent st -> repo_step a t since p repo st st' -> consistent st'.
Proof.
  intros Hc [Hb|branch recent files e Hb Hr Hf|branch recent files Hb Hr Hf Hz
            |branch recent files st'' Hb Hr Hf Hz He].
  - apply append_placeholder_consistent, Hc.
  - apply print_err_consistent, Hc.
  - apply append_placeholder_consistent, Hc.
  - destruct Hc as (C1 & C2 & C3).
    apply emit_language_rows_ok in He as (_ & E1 & E2 & E3 & _).
    destruct (count_files_spec recent files (0%N, [])) as (T1 & T2 & T3);
      [reflexivity|simpl; tauto|constructor|].
    set (lang_bytes := snd (fold_left (count_file recent) files (0%N, []))) in *.
    unfold consistent. rewrite E1, E2, E3, tally_of_app.
    rewrite tally_of_language_rows by exact T2.
    rewrite C2, C1. split; [reflexivity|]. split; [reflexivity|].
    right. rewrite counter_total_update.
    rewrite count_files_total in T1. simpl in T1. lia.
Qed.

Lemma process_repos_consistent a t since p rs st st' :
  consistent st -> process_repos a t since p rs st = Ok st' -> consistent st'.
Proof.
  revert st. induction rs as [|repo rs IH]; intros st Hc; simpl.
  - intros H. inversion H; subst. exact Hc.
  - destruct (process_repo a t since p repo st) as [st1|e] eqn:E; simpl; [|discriminate].
    apply IH. eapply repo_step_consistent; [exact Hc|]. apply process_repo_step, E.
Qed.

Lemma process_projects_consistent a t since ps st st' :
  consistent st -> process_projects a t since ps st = Ok st' -> consistent st'.
Proof.
  revert st. induction ps as [|p ps IH]; intros st Hc; simpl.
  - intros H. inversion H; subst. exact Hc.
  - unfold process_project.
    destruct (repos t (proj_id p)) as [rs|e]; simpl; [|discriminate].
    destruct (process_repos a t since p rs _) as [st1|e] eqn:E; simpl; [|discriminate].
    apply IH. eapply process_repos_consistent; [|exact E].
    apply print_out_consistent, Hc.
Qed.

Lemma initial_consistent : consistent initial_state.
Proof. unfold consistent. simpl. auto. Qed.

(** What a run that returns leaves: either the configuration was
    incomplete, or the reports are those of a consistent final state. *)
Lemma main_outcome clock a t o :
  main clock a t = Ok o ->
  (exit_status o = 2%Z /\ repo_csv o = None /\ tenant_csv o = None /\ summary o = [])
  \/ exists st rows,
       consistent st
       /\ exit_status o = 0%Z
       /\ repo_csv o = Some {| csv_path := path_join (out a) "repo_language_stats.csv";
                               csv_header := ["project"; "repository"; "default_branch";
                                              "language"; "bytes"];
                               csv_rows := per_repo_rows st |}
       /\ tenant_rows (tenant_totals st) = Ok rows
       /\ tenant_csv o = Some {| csv_path := path_join (out a) "tenant_language_summary.csv";
                                 csv_header := ["language"; "bytes"; "percent_all_files"];
                                 csv_rows := rows |}
       /\ summary_lines (tenant_totals_code_only st) = Ok (summary o)
       /\ errors o = stderr st.
Proof.
  unfold main.
  destruct (Str.truthy (org_url a)); [destruct (Str.truthy (pat a))|];
    try (intros H; inversion H; subst; left; simpl; auto; fail).
  destruct (projects t) as [ps|e]; simpl; [|discriminate].
  destruct (process_projects a t _ ps _) as [st|e] eqn:E; simpl; [|discriminate].
  destruct (tenant_rows (tenant_totals st)) as [rows|e] eqn:Er; simpl; [|discriminate].
  destruct (summary_lines (tenant_totals_code_only st)) as [lines|e] eqn:El; simpl;
    [|discriminate].
  intros H. inversion H; subst; clear H. right. exists st, rows. simpl.
  split; [|auto 10].
  eapply process_projects_consistent; [|exact E].
  apply print_out_consistent, initial_consistent.
Qed.

(** ** Placeholder rows *)

Lemma append_placeholder_only st pn rn br :
  placeholder_only st (append_row st (placeholder pn rn br)).
Proof. exists (placeholder pn rn br). simpl. auto. Qed.

(** C5. A repository without a default-branch reference gets exactly one
    row with empty language and zero bytes, and neither tenant counter
    changes.  The same holds for a repository with a branch whose files,
    after the filter, total zero bytes (its filter was resolved and its
    listing completed). *)
Theorem placeholder_rows a t since p repo st :
  Str.truthy (defaultBranch repo) = None
  \/ (exists branch recent files,
        Str.truthy (defaultBranch repo) = Some branch
        /\ recent_filter a t since (proj_id p) repo (Str.remove_all "refs/heads/" branch)
           = Ok recent
        /\ list_files t (proj_id p) (repo_id repo) (Str.remove_all "refs/heads/" branch)
           = (files, None)
        /\ byte_total (kept recent files) = 0%N) ->
  exists st', process_repo a t since p repo st = Ok st' /\ placeholder_only st st'.
Proof.
  intros [Hb|(branch & recent & files & Hb & Hr & Hf & Hz)].
  - eexists. split; [apply process_repo_step, step_no_branch, Hb|].
    apply append_placeholder_only.
  - eexists. split; [apply process_repo_step; eapply step_nothing_counted; eauto|].
    apply append_placeholder_only.
Qed.

Lemma placeholder_rows_witness :
  (exists st', process_repo (Scenario.args false) Quiet.tenant None Quiet.P Quiet.bare
                 initial_state = Ok st'
               /\ placeholder_only initial_state st')
  /\ (exists st', process_repo (Scenario.args false) Quiet.tenant_all_empty None
                    Quiet.P Quiet.R initial_state = Ok st'
                  /\ placeholder_only initial_state st').
Proof.
  split.
  - apply (placeholder_rows (Scenario.args false) Quiet.tenant None Quiet.P Quiet.bare).
    left. reflexivity.
  - apply (placeholder_rows (Scenario.args false) Quiet.tenant_all_empty None
             Quiet.P Quiet.R).
    right. exists "refs/heads/main", None, [{| f_path := "/notes.md"; f_size := 0 |}].
    repeat split; reflexivity.
Defined.

(** ** A recency filter that matches nothing *)

Lemma kept_nothing paths files :
  (forall f, f ∈ files -> f_path f ∉ paths) -> kept (Some paths) files = [].
Proof.
  induction files as [|f files IH]; intros H; simpl; [reflexivity|].
  rewrite bool_decide_eq_false_2 by (apply H; left).
  apply IH. intros g Hg. apply H. right. exact Hg.
Qed.

(** The claim as first written fails: with no commit since the threshold
    the filter is the empty set, nothing is counted, and the repository
    still gets its placeholder row in the report. *)
Lemma recency_no_match_counterexample :
  recent_filter Outage.args Quiet.tenant (Some "2024-01-01") "p1" Quiet.R "main"
    = Ok (Some ∅)
  /\ process_repo Outage.args Quiet.tenant (Some "2024-01-01") Quiet.P Quiet.R initial_state
     = Ok (append_row initial_state (placeholder "P" "R" "refs/heads/main"))
  /\ per_repo_rows (append_row initial_state (placeholder "P" "R" "refs/heads/main"))
     <> per_repo_rows initial_state
  /\ exists o rc,
       main Scenario.clock Outage.args Quiet.tenant = Ok o
       /\ repo_csv o = Some rc
       /\ csv_rows rc = [placeholder "P" "R" "refs/heads/main"].
Proof.
  split; [reflexivity|]. split; [reflexivity|]. split; [discriminate|].
  eexists. eexists. split; [vm_compute; reflexivity|]. split; reflexivity.
Qed.

(** C3, amended.  Under an active recency filter, a repository without
    commits since the threshold gets the empty path-set (not the absent
    one); and a repository whose path-set matches none of its files
    contributes no language row and no counter update: the one row it
    contributes is the zero-byte placeholder carrying its default branch. *)
Theorem recency_no_match a t since p repo st from_date branch :
  Str.truthy since = Some from_date ->
  Str.truthy (defaultBranch repo) = Some branch ->
  (list_commits t (proj_id p) (repo_id repo) (Str.remove_all "refs/heads/" branch) from_date
     = Ok [] ->
   recent_filter a t since (proj_id p) repo (Str.remove_all "refs/heads/" branch)
     = Ok (Some ∅))
  /\ (forall paths files,
        recent_filter a t since (proj_id p) repo (Str.remove_all "refs/heads/" branch)
          = Ok (Some paths) ->
        list_files t (proj_id p) (repo_id repo) (Str.remove_all "refs/heads/" branch)
          = (files, None) ->
        (forall f, f ∈ files -> f_path f ∉ paths) ->
        process_repo a t since p repo st
          = Ok (append_row st (placeholder (proj_name p) (repo_name repo) branch))
        /\ placeholder_only st
             (append_row st (placeholder (proj_name p) (repo_name repo) branch))).
Proof.
  intros Hs Hb. split.
  - intros Hc. unfold recent_filter. rewrite Hs, Hc. reflexivity.
  - intros paths files Hr Hf Hnone. split; [|apply append_placeholder_only].
    apply process_repo_step. eapply step_nothing_counted; eauto.
    rewrite kept_nothing by exact Hnone. reflexivity.
Qed.

Lemma recency_no_match_witness :
  recent_filter Outage.args Quiet.tenant (Some "2024-01-01") "p1" Quiet.R "main"
    = Ok (Some ∅)
  /\ process_repo Outage.args Quiet.tenant (Some "2024-01-01") Quiet.P Quiet.R initial_state
     = Ok (append_row initial_state (placeholder "P" "R" "refs/heads/main")).
Proof.
  destruct (recency_no_match Outage.args Quiet.tenant (Some "2024-01-01") Quiet.P Quiet.R
              initial_state "2024-01-01" "refs/heads/main" eq_refl eq_refl) as [H1 H2].
  split; [apply H1; reflexivity|].
  apply (H2 ∅ [{| f_path := "/a.py"; f_size := 100 |}]); [reflexivity..|].
  intros f _. apply not_elem_of_empty.
Defined.

(** ** Failing requests *)

(** A failure of the file listing is caught: the repository is left out,
    one line goes to the error stream, rows and counters stay. *)
Lemma file_listing_failure_skips a t since p repo st branch recent files e :
  Str.truthy (defaultBranch repo) = Some branch ->
  recent_filter a t since (proj_id p) repo (Str.remove_all "refs/heads/" branch)
    = Ok recent ->
  list_files t (proj_id p) (repo_id repo) (Str.remove_all "refs/heads/" branch)
    = (files, Some (HTTPError e)) ->
  exists st',
    process_repo a t since p repo st = Ok st'
    /\ per_repo_rows st' = per_repo_rows st
    /\ tenant_totals st' = tenant_totals st
    /\ tenant_totals_code_only st' = tenant_totals_code_only st
    /\ stderr st' = stderr st ++ [("  ! Error listing files for " ++ proj_name p ++ "/"
                                   ++ repo_name repo ++ ": " ++ e)%string].
Proof.
  intros Hb Hr Hf. eexists. split.
  - apply process_repo_step. eapply step_listing_failed; eauto.
  - simpl. auto.
Qed.

(** A failure while the recent filter is resolved is outside the [try]:
    it leaves the repository loop, and the loops around it. *)
Lemma recent_filter_failure_propagates a t since p repo rest st branch e :
  Str.truthy (defaultBranch repo) = Some branch ->
  recent_filter a t since (proj_id p) repo (Str.remove_all "refs/heads/" branch)
    = Raise e ->
  process_repo a t since p repo st = Raise e
  /\ process_repos a t since p (repo :: rest) st = Raise e.
Proof.
  intros Hb Hr.
  assert (H : process_repo a t since p repo st = Raise e)
    by (unfold process_repo; rewrite Hb, Hr; reflexivity).
  split; [exact H|]. simpl. rewrite H. reflexivity.
Qed.

Lemma commit_listing_failure a t since p repo branch from_date e :
  Str.truthy since = Some from_date ->
  list_commits t (proj_id p) (repo_id repo) (Str.remove_all "refs/heads/" branch) from_date
    = Raise e ->
  recent_filter a t since (proj_id p) repo (Str.remove_all "refs/heads/" branch) = Raise e.
Proof. intros Hs Hc. unfold recent_filter. rewrite Hs, Hc. reflexivity. Qed.

(** C2, at the failing input.  Project P holds R1 and R2 and a recency
    threshold is set.  When R1's file listing answers 500 the run skips R1,
    logs it with project and repository name, reports R2 and exits 0.  When
    R1's commit listing, or the changed-paths request of its commit,
    answers 500, the error leaves [main]: R2 is not processed and no
    report is written. *)
Theorem listing_failure_runs :
  (exists o rc,
     main Scenario.clock Outage.args (Outage.tenant Outage.FilesFail) = Ok o
     /\ exit_status o = 0%Z
     /\ errors o = ["  ! Error listing files for P/R1: 500 Server Error"]
     /\ repo_csv o = Some rc
     /\ csv_rows rc = [language_row "P" "R2" "refs/heads/main" ("Go", 40%N)])
  /\ main Scenario.clock Outage.args (Outage.tenant Outage.CommitsFail)
     = Raise (HTTPError "500 Server Error")
  /\ main Scenario.clock Outage.args (Outage.tenant Outage.ChangesFail)
     = Raise (HTTPError "500 Server Error").
Proof.
  split.
  - eexists. eexists. split; [vm_compute; reflexivity|]. repeat split; reflexivity.
  - split; vm_compute; reflexivity.
Qed.

(** ** The code-only counter *)

Lemma non_code_operand_raises :
  non_code_operand = Raise (TypeError "unhashable type: 'set'").
Proof. reflexivity. Qed.

(** Without the flag every language row feeds the code-only counter; with
    it, the first language row raises. *)
Lemma code_only_feed a pn rn br st lang b :
  (exclude_non_code a = false ->
   exists st', emit_language_row a pn rn br st (lang, b) = Ok st'
     /\ tenant_totals_code_only st' = counter_add (tenant_totals_code_only st) lang b)
  /\ (exclude_non_code a = true ->
      emit_language_row a pn rn br st (lang, b)
      = Raise (TypeError "unhashable type: 'set'")).
Proof.
  unfold emit_language_row. rewrite counts_as_code_spec.
  split; intros ->; simpl; eauto.
Qed.

(** C1, at the failing input.  In the scenario of the specification
    (a.py 100 bytes, b.md 50 bytes) with [exclude_non_code] set, the test
    on the first language row raises [TypeError] and the run ends without
    a summary, where "Python 100.00%" is expected: with the flag the test
    does not follow the rule of the specification, not even for Python.
    Without the flag it does, and the summary lists both languages
    against the combined total. *)
Theorem exclude_non_code_scenario :
  main Scenario.clock (Scenario.args true) Scenario.tenant
    = Raise (TypeError "unhashable type: 'set'")
  /\ counts_as_code true "Python" <> Ok (spec_counts_as_code true "Python")
  /\ (forall lang, counts_as_code false lang = Ok (spec_counts_as_code false lang))
  /\ exists o,
       main Scenario.clock (Scenario.args false) Scenario.tenant = Ok o
       /\ summary o = ["Python           66.67%"; "Markdown         33.33%"].
Proof.
  split; [vm_compute; reflexivity|].
  split; [discriminate|]. split; [reflexivity|].
  eexists. split; vm_compute; reflexivity.
Qed.

(** ** The tally of a report *)

Lemma tally_fold_NoDup rows c :
  NoDup (counter_keys c) -> NoDup (counter_keys (fold_left tally_step rows c)).
Proof.
  revert c. induction rows as [|r rows IH]; intros c H; simpl; [exact H|].
  apply IH. unfold tally_step. destruct (String.eqb (language r) ""); [exact H|].
  apply counter_add_NoDup, H.
Qed.

Lemma tally_NoDup rows : NoDup (counter_keys (tally_of rows)).
Proof. apply tally_fold_NoDup. constructor. Qed.

Lemma tally_fold_keys rows c l :
  In l (counter_keys (fold_left tally_step rows c))
  <-> In l (counter_keys c) \/ (l <> "" /\ exists r, In r rows /\ language r = l).
Proof.
  revert c. induction rows as [|r rows IH]; intros c; simpl.
  - split; [auto|]. intros [H|(_ & r & [] & _)]. exact H.
  - rewrite IH. unfold tally_step.
    destruct (String.eqb_spec (language r) "") as [E|E].
    + split.
      * intros [H|(Hl & r' & Hr & El)]; eauto 8.
      * intros [H|(Hl & r' & [<-|Hr] & El)]; eauto 8. congruence.
    + rewrite counter_keys_add_In. split.
      * intros [[H| ->]|(Hl & r' & Hr & El)]; eauto 8.
      * intros [H|(Hl & r' & [<-|Hr] & El)]; eauto 8.
Qed.

Lemma tally_keys rows l :
  In l (counter_keys (tally_of rows))
  <-> l <> "" /\ exists r, In r rows /\ language r = l.
Proof.
  unfold tally_of. rewrite tally_fold_keys. simpl. tauto.
Qed.

Lemma tally_fold_get rows c l :
  l <> "" ->
  counter_get (fold_left tally_step rows c) l = (counter_get c l + sum_bytes l rows)%N.
Proof.
  intros Hl. revert c. induction rows as [|r rows IH]; intros c; simpl.
  - unfold sum_bytes. simpl. lia.
  - rewrite IH. unfold tally_step, sum_bytes. simpl.
    destruct (String.eqb_spec (language r) "") as [E|E].
    + destruct (String.eqb_spec (language r) l) as [E'|E']; [congruence|reflexivity].
    + rewrite counter_get_add.
      destruct (String.eqb_spec (language r) l) as [E'|E']; simpl; [|reflexivity].
      rewrite E'. lia.
Qed.

Lemma tally_get rows l :
  l <> "" -> counter_get (tally_of rows) l = sum_bytes l rows.
Proof. intros Hl. unfold tally_of. rewrite tally_fold_get by exact Hl. reflexivity. Qed.

Lemma tally_fold_first_seen rows c :
  counter_keys (fold_left tally_step rows c)
  = fold_left (fun seen r =>
                 if String.eqb (language r) "" || existsb (String.eqb (language r)) seen
                 then seen else seen ++ [language r])
              rows (counter_keys c).
Proof.
  revert c. induction rows as [|r rows IH]; intros c; simpl; [reflexivity|].
  rewrite IH. f_equal. unfold tally_step.
  destruct (String.eqb (language r) ""); simpl; [reflexivity|].
  apply counter_keys_add.
Qed.

(** The tally holds the languages in the order of their first row. *)
Lemma tally_first_seen rows : counter_keys (tally_of rows) = first_seen rows.
Proof. apply tally_fold_first_seen. Qed.

Lemma tally_fold_total_zero rows c :
  (forall r, In r rows -> bytes r = 0%N) ->
  counter_total (fold_left tally_step rows c) = counter_total c.
Proof.
  revert c. induction rows as [|r rows IH]; intros c H; simpl; [reflexivity|].
  rewrite IH by (intros r' Hr'; apply H; right; exact Hr').
  unfold tally_step. destruct (String.eqb (language r) ""); [reflexivity|].
  rewrite counter_total_add, (H r) by (left; reflexivity). lia.
Qed.

Lemma tenant_rows_entries c rows :
  tenant_rows c = Ok rows -> map entry_of rows = most_common c.
Proof.
  intros H. destruct (tenant_rows_ok c) as (rows' & H1 & H2). congruence.
Qed.

Lemma In_most_common c e : In e (most_common c) <-> In e c.
Proof.
  split; apply Permutation_in; [|symmetry]; apply most_common_perm.
Qed.

(** ** Tenant rows against repository rows *)

Lemma main_reports clock a t o rc tc :
  main clock a t = Ok o -> repo_csv o = Some rc -> tenant_csv o = Some tc ->
  exists st,
    consistent st
    /\ csv_rows rc = per_repo_rows st
    /\ tenant_rows (tenant_totals st) = Ok (csv_rows tc)
    /\ csv_header tc = ["language"; "bytes"; "percent_all_files"]
    /\ summary_lines (tenant_totals_code_only st) = Ok (summary o).
Proof.
  intros Hm Hrc Htc.
  destruct (main_outcome clock a t o Hm) as [(_ & H & _)|(st & rows & Hc & _ & H1 & H2 & H3 & H4 & _)].
  - congruence.
  - exists st. rewrite Hrc in H1. rewrite Htc in H3.
    inversion H1; subst rc. inversion H3; subst tc. simpl. auto.
Qed.

Lemma tenant_languages_keys c rows :
  map entry_of rows = most_common c ->
  Permutation (map t_language rows) (counter_keys c).
Proof.
  intros H. unfold counter_keys. rewrite <- (most_common_perm c), <- H.
  rewrite map_map. reflexivity.
Qed.

(** The claim as first written fails on an empty file: the run over
    [a.py] (100 bytes) and an empty [b.md], no recency filter, has a tenant
    row for Markdown, and no repository row of Markdown with nonzero
    bytes. *)
Lemma tenant_languages_counterexample :
  exists o rc tc,
    main Scenario.clock (Scenario.args false) Quiet.tenant_with_empty_file = Ok o
    /\ resolve_since Scenario.clock (Scenario.args false) = None
    /\ repo_csv o = Some rc /\ tenant_csv o = Some tc
    /\ (exists row, In row (csv_rows tc) /\ t_language row = "Markdown")
    /\ ~ (exists r, In r (csv_rows rc) /\ language r = "Markdown" /\ bytes r <> 0%N).
Proof.
  eexists. eexists. eexists.
  split; [vm_compute; reflexivity|]. split; [reflexivity|].
  split; [reflexivity|]. split; [reflexivity|]. split.
  - eexists. split; [right; left; reflexivity|reflexivity].
  - intros (r & [<-|[<-|[]]] & Hl & Hb).
    + discriminate Hl.
    + apply Hb. reflexivity.
Qed.

(** C6, amended.  In the reports of a run (in particular of one without
    recency filter) every tenant-level row carries the sum of the bytes of
    the repository-level rows of its language, no language has two tenant
    rows, and the languages with a tenant row are exactly the non-empty
    labels of the repository-level rows, a row of zero bytes included. *)
Theorem tenant_rows_match_report clock a t o rc tc :
  main clock a t = Ok o -> repo_csv o = Some rc -> tenant_csv o = Some tc ->
  NoDup (map t_language (csv_rows tc))
  /\ (forall row, In row (csv_rows tc) ->
        t_bytes row = sum_bytes (t_language row) (csv_rows rc))
  /\ (forall l, (exists row, In row (csv_rows tc) /\ t_language row = l)
                <-> (l <> "" /\ exists r, In r (csv_rows rc) /\ language r = l)).
Proof.
  intros Hm Hrc Htc.
  destruct (main_reports clock a t o rc tc Hm Hrc Htc) as (st & (C1 & _) & Er & Et & _).
  apply tenant_rows_entries in Et. rewrite Er. rewrite C1 in Et.
  set (rows := csv_rows tc) in *. set (c := tally_of (per_repo_rows st)) in *.
  pose proof (tenant_languages_keys c rows Et) as Hp.
  assert (Hkeys : forall l, (exists row, In row rows /\ t_language row = l)
                            <-> In l (counter_keys c)).
  { intros l. split.
    - intros (row & Hr & <-). apply (Permutation_in _ Hp). apply in_map, Hr.
    - intros H. apply (Permutation_in _ (Permutation_sym Hp)) in H.
      apply in_map_iff in H as (row & E & Hr). eauto. }
  split; [|split].
  - rewrite Hp. apply tally_NoDup.
  - intros row Hr.
    assert (Hin : In (entry_of row) c).
    { apply In_most_common. rewrite <- Et. apply in_map, Hr. }
    assert (Hk : In (t_language row) (counter_keys c)) by (apply Hkeys; eauto).
    apply tally_keys in Hk as [Hne _].
    rewrite <- (tally_get _ _ Hne). fold c. symmetry.
    apply counter_get_In; [apply tally_NoDup|exact Hin].
  - intros l. rewrite Hkeys. apply tally_keys.
Qed.

Lemma tenant_rows_match_report_witness :
  exists o rc tc,
    main Scenario.clock (Scenario.args false) Scenario.tenant = Ok o
    /\ repo_csv o = Some rc /\ tenant_csv o = Some tc
    /\ NoDup (map t_language (csv_rows tc))
    /\ (forall row, In row (csv_rows tc) ->
          t_bytes row = sum_bytes (t_language row) (csv_rows rc)).
Proof.
  run_main o E. read_report repo_csv o E rc Erc. read_report tenant_csv o E tc Etc.
  exists o, rc, tc.
  destruct (tenant_rows_match_report Scenario.clock (Scenario.args false) Scenario.tenant
              o rc tc E Erc Etc) as (H1 & H2 & _).
  auto.
Defined.

(** ** Order of the tenant rows *)

Lemma with_count_languages v c :
  NoDup (counter_keys c) ->
  map fst (with_count v c)
  = List.filter (fun l => (counter_get c l =? v)%N) (counter_keys c).
Proof.
  unfold with_count. induction c as [|[k n] c IH]; intros Hnd; simpl; [reflexivity|].
  apply NoDup_cons in Hnd as [Hk Hnd]. rewrite String.eqb_refl.
  assert (E : List.filter (fun l => ((if String.eqb k l then n else counter_get c l) =? v)%N)
                (counter_keys c)
              = List.filter (fun l => (counter_get c l =? v)%N) (counter_keys c)).
  { apply filter_ext_in. intros l Hl.
    destruct (String.eqb_spec k l) as [->|]; [|reflexivity].
    exfalso. apply Hk. apply list_elem_of_In. exact Hl. }
  fold (counter_keys c). rewrite E, <- (IH Hnd).
  destruct (n =? v)%N; reflexivity.
Qed.

(** C8. The tenant rows of a run are in descending order of bytes; the
    rows of any one byte count come in the order in which the tenant
    counter holds their languages, which is the order of their first row
    in the repository-level report; and the whole sequence is a function
    of the repository-level rows, so a given input always gives the same
    order. *)
Theorem tenant_order clock a t o rc tc :
  main clock a t = Ok o -> repo_csv o = Some rc -> tenant_csv o = Some tc ->
  descending (map entry_of (csv_rows tc))
  /\ (forall v, with_count v (map entry_of (csv_rows tc))
                = with_count v (tally_of (csv_rows rc)))
  /\ counter_keys (tally_of (csv_rows rc)) = first_seen (csv_rows rc)
  /\ (forall v, map fst (with_count v (map entry_of (csv_rows tc)))
                = List.filter (fun l => (sum_bytes l (csv_rows rc) =? v)%N)
                    (first_seen (csv_rows rc)))
  /\ map entry_of (csv_rows tc) = most_common (tally_of (csv_rows rc)).
Proof.
  intros Hm Hrc Htc.
  destruct (main_reports clock a t o rc tc Hm Hrc Htc) as (st & (C1 & _) & Er & Et & _).
  apply tenant_rows_entries in Et. rewrite Er, Et, C1.
  split; [apply most_common_descending|].
  split; [intros v; apply most_common_stable|].
  split; [apply tally_first_seen|].
  split; [|reflexivity].
  intros v. rewrite most_common_stable, with_count_languages by apply tally_NoDup.
  rewrite tally_first_seen. apply filter_ext_in. intros l Hl.
  rewrite <- tally_first_seen in Hl. apply tally_keys in Hl as [Hne _].
  rewrite tally_get by exact Hne. reflexivity.
Qed.

Lemma tenant_order_witness :
  exists o rc tc,
    main Scenario.clock (Scenario.args false) Scenario.tenant = Ok o
    /\ repo_csv o = Some rc /\ tenant_csv o = Some tc
    /\ descending (map entry_of (csv_rows tc))
    /\ map entry_of (csv_rows tc) = most_common (tally_of (csv_rows rc)).
Proof.
  run_main o E. read_report repo_csv o E rc Erc. read_report tenant_csv o E tc Etc.
  exists o, rc, tc.
  destruct (tenant_order Scenario.clock (Scenario.args false) Scenario.tenant
              o rc tc E Erc Etc) as (H1 & _ & _ & _ & H5).
  auto.
Defined.

Example most_common_ties :
  most_common [("Go", 5%N); ("Python", 9%N); ("Rust", 5%N); ("C", 9%N)]
  = [("Python", 9%N); ("C", 9%N); ("Go", 5%N); ("Rust", 5%N)].
Proof. reflexivity. Qed.

(** ** A run without bytes *)

Lemma main_returns clock a t ps st :
  Str.truthy (org_url a) <> None -> Str.truthy (pat a) <> None ->
  projects t = Ok ps ->
  process_projects a t (resolve_since clock a) ps
    (print_out initial_state ("Found " ++ pretty (length ps) ++ " projects")%string) = Ok st ->
  exists o rows lines,
    main clock a t = Ok o
    /\ exit_status o = 0%Z
    /\ tenant_rows (tenant_totals st) = Ok rows
    /\ summary_lines (tenant_totals_code_only st) = Ok lines
    /\ tenant_csv o = Some {| csv_path := path_join (out a) "tenant_language_summary.csv";
                              csv_header := ["language"; "bytes"; "percent_all_files"];
                              csv_rows := rows |}
    /\ summary o = lines.
Proof.
  intros Hu Hp Hps Hst. unfold main.
  destruct (Str.truthy (org_url a)); [|contradiction].
  destruct (Str.truthy (pat a)); [|contradiction].
  rewrite Hps. simpl. rewrite Hst. simpl.
  destruct (tenant_rows_ok (tenant_totals st)) as (rows & Hr & _).
  destruct (summary_lines_ok (tenant_totals_code_only st)) as (lines & Hl & _).
  rewrite Hr, Hl. simpl. eexists. exists rows, lines. repeat split; assumption.
Qed.

Lemma no_bytes_no_tally st :
  consistent st -> (forall r, In r (per_repo_rows st) -> bytes r = 0%N) ->
  tenant_totals st = [] /\ tenant_totals_code_only st = [].
Proof.
  intros (C1 & C2 & C3) Hz. rewrite C2.
  assert (H : counter_total (tenant_totals st) = 0%N).
  { rewrite C1. unfold tally_of. rewrite tally_fold_total_zero by exact Hz. reflexivity. }
  destruct C3 as [E|E]; [auto|lia].
Qed.

(** C10. The percentage computations never divide by zero: for every
    counter the tenant rows and the summary lines are computed, an empty
    counter using the denominator 1.  A run whose repository-level rows all
    have zero bytes has empty tenant counters: its tenant report is written
    with the header and no data row, and its summary has no language line.
    The reports are written whenever the aggregation loop returns. *)
Theorem no_bytes_run :
  (forall c, exists rows lines, tenant_rows c = Ok rows /\ summary_lines c = Ok lines)
  /\ (total_or_1 [] = 1%N /\ tenant_rows [] = Ok [] /\ summary_lines [] = Ok [])
  /\ (forall clock a t o rc,
        main clock a t = Ok o -> repo_csv o = Some rc ->
        (forall r, In r (csv_rows rc) -> bytes r = 0%N) ->
        exists tc, tenant_csv o = Some tc
          /\ csv_header tc = ["language"; "bytes"; "percent_all_files"]
          /\ csv_rows tc = []
          /\ summary o = []
          /\ exit_status o = 0%Z)
  /\ (forall clock a t ps st,
        Str.truthy (org_url a) <> None -> Str.truthy (pat a) <> None ->
        projects t = Ok ps ->
        process_projects a t (resolve_since clock a) ps
          (print_out initial_state ("Found " ++ pretty (length ps) ++ " projects")%string)
          = Ok st ->
        exists o, main clock a t = Ok o).
Proof.
  split; [|split; [|split]].
  - intros c. destruct (tenant_rows_ok c) as (rows & Hr & _).
    destruct (summary_lines_ok c) as (lines & Hl & _). eauto.
  - repeat split; reflexivity.
  - intros clock a t o rc Hm Hrc Hz.
    destruct (main_outcome clock a t o Hm)
      as [(_ & H & _)|(st & rows & Hc & Hx & H1 & H2 & H3 & H4 & _)]; [congruence|].
    rewrite Hrc in H1. inversion H1; subst rc. simpl in Hz.
    destruct (no_bytes_no_tally st Hc Hz) as [E1 E2].
    rewrite E1 in H2. rewrite E2 in H4.
    inversion H2; subst rows. inversion H4 as [H5].
    eexists. split; [exact H3|]. simpl. auto.
  - intros clock a t ps st Hu Hp Hps Hst.
    destruct (main_returns clock a t ps st Hu Hp Hps Hst) as (o & _ & _ & Ho & _). eauto.
Qed.

Lemma no_bytes_run_witness :
  exists o tc,
    main Scenario.clock (Scenario.args false) Quiet.tenant_all_empty = Ok o
    /\ tenant_csv o = Some tc
    /\ csv_header tc = ["language"; "bytes"; "percent_all_files"]
    /\ csv_rows tc = []
    /\ summary o = [].
Proof.
  run_main o E. read_report repo_csv o E rc Erc.
  destruct (proj1 (proj2 (proj2 no_bytes_run)) Scenario.clock (Scenario.args false)
              Quiet.tenant_all_empty o rc E Erc)
    as (tc & H1 & H2 & H3 & H4 & _).
  - vm_compute in E. inversion E; subst o. simpl in Erc. inversion Erc; subst rc.
    simpl. intros r [<-|[]]. reflexivity.
  - exists o, tc. auto.
Defined.

(** ** Percentages sum to 100 *)

Section PercentSum.
Local Open Scope Q_scope.

Lemma counter_total_perm (l l' : list (string * N)) :
  Permutation l l' -> counter_total l = counter_total l'.
Proof.
  unfold counter_total, counter_values.
  induction 1 as [|x l l' _ IH|x y l|l l' l'' _ IH1 _ IH2]; simpl; lia.
Qed.

Lemma tenant_bytes_entries rows : tenant_bytes rows = counter_total (map entry_of rows).
Proof.
  unfold tenant_bytes, counter_total, counter_values.
  rewrite map_map. reflexivity.
Qed.

(** The column of shares, times 100, is a sum of integers. *)
Lemma percent_sum_integer total rows :
  Forall (fun r => exists x, Float.percent (t_bytes r) total = Ok x
            /\ percent_all_files r = Float.hundredths x # 100) rows ->
  exists H : Z, 100 * percent_sum rows == inject_Z H.
Proof.
  induction 1 as [|r rows (x & _ & Hx) _ (H & IH)].
  - exists 0%Z. reflexivity.
  - exists (Float.hundredths x + H)%Z.
    change (percent_sum (r :: rows)) with (percent_all_files r + percent_sum rows).
    rewrite Hx, inject_Z_plus, <- IH, <- hundredths_as_decimal. ring.
Qed.

(** An integer within [n/2 + e] of 10000, for [e < 1/2], is within
    [n/2]. *)
Lemma integer_gap (H n : Z) :
  Qabs (inject_Z H - 10000)
    <= (1 # 2) * inject_Z n + 50000 * Float.unit_roundoff ->
  Qabs (inject_Z H - 10000) <= (1 # 2) * inject_Z n.
Proof.
  intros Hb. apply Qabs_Qle_condition in Hb as [H1 H2].
  unfold Float.unit_roundoff in H1, H2.
  assert (Z1 : (2 * H - 20000 < n + 1)%Z).
  { rewrite Zlt_Qlt, inject_Z_plus. unfold Z.sub. rewrite inject_Z_plus, inject_Z_mult.
    change (inject_Z 2) with 2. change (inject_Z (- (20000))) with (- (20000)).
    change (inject_Z 1) with 1. lra. }
  assert (Z2 : (- (n + 1) < 2 * H - 20000)%Z).
  { rewrite Zlt_Qlt, inject_Z_opp, inject_Z_plus. unfold Z.sub.
    rewrite inject_Z_plus, inject_Z_mult.
    change (inject_Z 2) with 2. change (inject_Z (- (20000))) with (- (20000)).
    change (inject_Z 1) with 1. lra. }
  assert (Z3 : (2 * H - 20000 <= n)%Z) by lia.
  assert (Z4 : (- n <= 2 * H - 20000)%Z) by lia.
  rewrite Zle_Qle in Z3, Z4. rewrite inject_Z_opp in Z4. unfold Z.sub in Z3, Z4.
  rewrite inject_Z_plus, inject_Z_mult in Z3, Z4.
  change (inject_Z 2) with 2 in Z3, Z4.
  change (inject_Z (- (20000))) with (- (20000)) in Z3, Z4.
  apply Qabs_Qle_condition. split; lra.
Qed.

(** C7. When the tenant report of a run has at least one row, the total
    of its bytes column is positive, each [percent_all_files] is the
    two-digit rounding of 100 times the row's bytes over that total as the
    floating-point expression computes it, and the column sums to 100
    within 0.005 per row. *)
Theorem percent_sum_tolerance clock a t o tc :
  main clock a t = Ok o -> tenant_csv o = Some tc -> csv_rows tc <> [] ->
  (0 < tenant_bytes (csv_rows tc))%N
  /\ Forall (fun r => exists x,
               Float.percent (t_bytes r) (tenant_bytes (csv_rows tc)) = Ok x
               /\ percent_all_files r = Float.hundredths x # 100) (csv_rows tc)
  /\ Qabs (percent_sum (csv_rows tc) - 100)
     <= (5 # 1000) * inject_Z (Z.of_nat (length (csv_rows tc))).
Proof.
  intros Hm Htc Hne.
  destruct (main_outcome clock a t o Hm)
    as [(_ & _ & H & _)|(st & rows & (C1 & C2 & C3) & _ & _ & H2 & H3 & _)]; [congruence|].
  rewrite Htc in H3. inversion H3; subst tc. cbn [csv_rows] in *. clear H3 Htc.
  set (c := tenant_totals st) in *.
  pose proof (tenant_rows_entries c rows H2) as He.
  assert (Hc : c <> []).
  { intros E. rewrite E in He. simpl in He. destruct rows; [contradiction|discriminate]. }
  destruct C3 as [E|Hpos]; [contradiction|].
  assert (Et : total_or_1 c = counter_total c).
  { unfold total_or_1. destruct (N.eqb_spec (counter_total c) 0); [lia|reflexivity]. }
  assert (Eb : tenant_bytes rows = counter_total c).
  { rewrite tenant_bytes_entries, He. apply counter_total_perm, most_common_perm. }
  unfold tenant_rows in H2. rewrite Et in H2.
  destruct (tenant_rows_of_spec (counter_total c) (most_common c) Hpos)
    as (rows' & Hr & _ & Hall & Hsum).
  rewrite H2 in Hr. inversion Hr; subst rows'. clear Hr.
  rewrite Eb. split; [exact Hpos|]. split; [exact Hall|].
  rewrite (counter_total_perm _ _ (most_common_perm c)) in Hsum.
  assert (El : length (most_common c) = length rows)
    by (rewrite <- He; apply length_map).
  rewrite El in Hsum.
  destruct (percent_sum_integer _ _ Hall) as (H & EH).
  pose proof (QN_pos _ Hpos) as HT.
  set (T := QN (counter_total c)) in *.
  set (n := inject_Z (Z.of_nat (length rows))) in *.
  assert (Hgap : Qabs (inject_Z H - 10000) <= (1 # 2) * n + 50000 * Float.unit_roundoff).
  { apply Qabs_Qle_condition in Hsum as [S1 S2]. apply Qabs_Qle_condition.
    assert (S1' : - ((1 # 2) * n + 50000 * Float.unit_roundoff) * T
                  <= (inject_Z H - 10000) * T) by (rewrite <- EH; lra).
    assert (S2' : (inject_Z H - 10000) * T
                  <= ((1 # 2) * n + 50000 * Float.unit_roundoff) * T) by (rewrite <- EH; lra).
    split; [apply (Qmult_le_r _ _ T HT); exact S1'|apply (Qmult_le_r _ _ T HT); exact S2']. }
  apply integer_gap in Hgap. apply Qabs_Qle_condition in Hgap as [G1 G2].
  apply Qabs_Qle_condition. rewrite <- EH in G1, G2. unfold n. split; lra.
Qed.

Lemma percent_sum_tolerance_witness :
  exists o tc,
    main Scenario.clock (Scenario.args false) Scenario.tenant = Ok o
    /\ tenant_csv o = Some tc
    /\ Qabs (percent_sum (csv_rows tc) - 100)
       <= (5 # 1000) * inject_Z (Z.of_nat (length (csv_rows tc))).
Proof.
  run_main o E. read_report tenant_csv o E tc Etc.
  exists o, tc. split; [reflexivity|]. split; [exact Etc|].
  apply (percent_sum_tolerance Scenario.clock (Scenario.args false) Scenario.tenant
           o tc E Etc).
  vm_compute in E. inversion E; subst o. simpl in Etc. inversion Etc; subst tc.
  discriminate.
Defined.

End PercentSum.

(** * The HTTP client *)

(** ** Continuation-token paging *)

Lemma paged_step {A} fuel (http : string -> result (Client.Response A)) url cont r token :
  Client.get http (Client.page_url url cont) = Ok r ->
  Str.truthy (Client.continuation r) = Some token ->
  Client.paged (S fuel) http url cont
  = match Client.paged fuel http url (Some token) with
    | Some (rest, failure) => Some (default [] (Client.value r) ++ rest, failure)
    | None => None
    end.
Proof. intros Hg Ht. simpl. rewrite Hg, Ht. reflexivity. Qed.

Lemma paged_chain_gen {A} (http : string -> result (Client.Response A)) url cont pages :
  Client.chain http url cont pages ->
  forall fuel,
    (length pages <= fuel ->
     Client.paged fuel http url cont = Some (Client.items_of pages, None))
    /\ (fuel < length pages -> Client.paged fuel http url cont = None).
Proof.
  induction 1 as [cont r Hg Ht|cont r token rest Hg Ht _ IH]; intros fuel.
  - split; intros Hf; simpl in Hf.
    + destruct fuel as [|fuel]; [lia|]. simpl. rewrite Hg, Ht.
      unfold Client.items_of. simpl. rewrite app_nil_r. reflexivity.
    + assert (fuel = 0) by lia. subst. reflexivity.
  - split; intros Hf; simpl in Hf.
    + destruct fuel as [|fuel]; [lia|].
      rewrite (paged_step _ _ _ _ _ _ Hg Ht).
      destruct (IH fuel) as [IH1 _]. rewrite IH1 by lia. reflexivity.
    + destruct fuel as [|fuel]; [reflexivity|].
      rewrite (paged_step _ _ _ _ _ _ Hg Ht).
      destruct (IH fuel) as [_ IH2]. rewrite IH2 by lia. reflexivity.
Qed.

(** X1. When the service answers the first URL and then each
    continuation URL in turn, every page but the last naming a token,
    [paged] yields the items of all pages in page order and stops; it takes
    exactly one request per page (less fuel than pages does not end), and
    [list_projects] returns that list. *)
Theorem paged_chain {A} (http : string -> result (Client.Response A)) url pages fuel :
  Client.chain http url None pages ->
  (length pages <= fuel ->
   Client.paged fuel http url None = Some (Client.items_of pages, None)
   /\ option_map Client.to_list (Client.paged fuel http url None)
      = Some (Ok (Client.items_of pages)))
  /\ (fuel < length pages -> Client.paged fuel http url None = None).
Proof.
  intros Hc. destruct (paged_chain_gen http url None pages Hc fuel) as [H1 H2].
  split; [|exact H2]. intros Hf. rewrite (H1 Hf). split; reflexivity.
Qed.

Lemma paged_chain_witness :
  Client.list_projects 2 Pages.http "https://dev.azure.com/org/"
    = Some (Ok [Pages.P1; Pages.P2; Pages.P3])
  /\ Client.paged 1 Pages.http Pages.url None = None.
Proof.
  assert (Hc : Client.chain Pages.http Pages.url None
                 [Pages.ok [Pages.P1; Pages.P2] (Some "t 1"); Pages.ok [Pages.P3] None]).
  { eapply Client.chain_next; [reflexivity|reflexivity|].
    apply Client.chain_last; reflexivity. }
  split.
  - apply (proj1 (paged_chain Pages.http Pages.url _ 2 Hc)). simpl. lia.
  - apply (proj2 (paged_chain Pages.http Pages.url _ 1 Hc)). simpl. lia.
Defined.

Lemma paged_broken_gen {A} (http : string -> result (Client.Response A)) url cont pages e :
  broken_chain http url cont pages e ->
  forall fuel, length pages < fuel ->
    Client.paged fuel http url cont = Some (Client.items_of pages, Some e).
Proof.
  induction 1 as [cont e Hg|cont r token rest e Hg Ht _ IH]; intros fuel Hf; simpl in Hf.
  - destruct fuel as [|fuel]; [lia|]. simpl. rewrite Hg. reflexivity.
  - destruct fuel as [|fuel]; [lia|].
    rewrite (paged_step _ _ _ _ _ _ Hg Ht), IH by lia. reflexivity.
Qed.

(** X2. When a request fails after some pages (an error status or a
    transport error), the generator has yielded the items of the pages
    before it and then raises that error; [list(...)] of it, as in
    [list_projects] and [list_repos], raises and returns none of them. *)
Theorem paged_failure {A} (http : string -> result (Client.Response A)) url pages e fuel :
  broken_chain http url None pages e ->
  length pages < fuel ->
  Client.paged fuel http url None = Some (Client.items_of pages, Some e)
  /\ option_map Client.to_list (Client.paged fuel http url None) = Some (Raise e).
Proof.
  intros Hb Hf. rewrite (paged_broken_gen http url None pages e Hb fuel Hf).
  split; reflexivity.
Qed.

Lemma paged_failure_witness :
  Client.paged 2 Pages.http_broken Pages.url None
    = Some ([Pages.P1; Pages.P2],
            Some (HTTPError
              ("503 Server Error: Service Unavailable for url: "
               ++ Pages.url ++ "&continuationToken=t%201")%string))
  /\ Client.list_projects 2 Pages.http_broken "https://dev.azure.com/org/"
     = Some (Raise (HTTPError
              ("503 Server Error: Service Unavailable for url: "
               ++ Pages.url ++ "&continuationToken=t%201")%string)).
Proof.
  apply (paged_failure Pages.http_broken Pages.url
           [Pages.ok [Pages.P1; Pages.P2] (Some "t 1")]).
  - eapply broken_next; [reflexivity|reflexivity|]. apply broken_here. reflexivity.
  - simpl. lia.
Defined.

(** ** Offset paging of the commit history *)

Lemma div_bounds (n t : nat) : 0 < t -> (n / t) * t <= n /\ n < (n / t + 1) * t.
Proof.
  intros Ht. pose proof (Nat.Div0.mul_div_le n t).
  pose proof (Nat.mul_succ_div_gt n t ltac:(lia)). lia.
Qed.

Lemma commits_loop_serves {A} (http : string -> result (Client.Response A)) url_at t
    (l : list A) :
  0 < t ->
  Client.serves http url_at (N.of_nat t) l ->
  forall fuel k, k * t <= length l ->
    (length l / t - k < fuel ->
     Client.commits_loop fuel http url_at (N.of_nat t) (N.of_nat k * N.of_nat t)
       (take (k * t) l) = Some (Ok l))
    /\ (fuel <= length l / t - k ->
        Client.commits_loop fuel http url_at (N.of_nat t) (N.of_nat k * N.of_nat t)
          (take (k * t) l) = None).
Proof.
  intros Ht Hs. destruct (div_bounds (length l) t Ht) as [D1 D2].
  induction fuel as [|fuel IH]; intros k Hk.
  { split; [lia|reflexivity]. }
  assert (Hkd : k <= length l / t) by (apply Nat.div_le_lower_bound; lia).
  destruct (Hs k) as (r & Hg & Hv); [rewrite Nat2N.id; exact Hkd|].
  rewrite Nat2N.id in Hv. simpl. rewrite Hg, Hv. simpl.
  pose proof (length_take l (k * t)) as Lt.
  pose proof (length_drop l (k * t)) as Ld.
  destruct (take t (drop (k * t) l)) as [|x batch] eqn:Eb.
  - assert (Hd : drop (k * t) l = []).
    { destruct (drop (k * t) l); [reflexivity|]. destruct t; [lia|discriminate]. }
    rewrite Hd in Ld. simpl in Ld.
    assert (El : length l = k * t) by lia.
    assert (Ediv : length l / t = k) by (rewrite El; apply Nat.div_mul; lia).
    split; [|lia]. intros _. rewrite take_ge by lia. reflexivity.
  - pose proof (length_take (drop (k * t) l) t) as Lb. rewrite Eb, Ld in Lb.
    simpl length in Lb.
    destruct (N.ltb_spec (N.of_nat (S (length batch))) (N.of_nat t)) as [Hlt|Hge].
    + assert (Hshort : length l - k * t < t) by lia.
      assert (Ediv : length l / t = k).
      { symmetry. apply Nat.div_unique with (length l - k * t); lia. }
      split; [|lia]. intros _. rewrite <- Eb.
      rewrite (take_ge (drop (k * t) l) t) by lia.
      rewrite take_drop. reflexivity.
    + assert (Hfull : (k + 1) * t <= length l) by lia.
      assert (Ea : take (k * t) l ++ x :: batch = take ((k + 1) * t) l).
      { rewrite <- Eb. replace ((k + 1) * t) with (k * t + t) by lia.
        apply take_take_drop. }
      assert (Es : (N.of_nat k * N.of_nat t + N.of_nat t)%N
                   = (N.of_nat (k + 1) * N.of_nat t)%N) by lia.
      rewrite Ea, Es. destruct (IH (k + 1) Hfull) as [I1 I2].
      assert (Hk1 : k + 1 <= length l / t) by (apply Nat.div_le_lower_bound; lia).
      split; intros Hf; [apply I1|apply I2]; lia.
Qed.

(** X3. Against a service that holds a list of commits and answers each
    offset with the next 200 of them, [list_commits] returns exactly that
    list, in order, after [n / 200 + 1] requests (a last, short or empty
    page ends the loop; a list whose length is a multiple of 200 costs
    one request for an empty page). *)
Theorem list_commits_round_trip {A} (http : string -> result (Client.Response A))
    org_url project_id repo_id branch_name from_date (l : list A) fuel :
  Client.serves http
    (Client.commits_url org_url project_id repo_id branch_name from_date 200) 200 l ->
  (length l / 200 < fuel ->
   Client.list_commits fuel http org_url project_id repo_id branch_name from_date
     = Some (Ok l))
  /\ (fuel <= length l / 200 ->
      Client.list_commits fuel http org_url project_id repo_id branch_name from_date
        = None).
Proof.
  intros Hs.
  destruct (commits_loop_serves http
              (Client.commits_url org_url project_id repo_id branch_name from_date 200)
              200 l ltac:(lia) Hs fuel 0 ltac:(lia)) as [H1 H2].
  unfold Client.list_commits. change (take (0 * 200) l) with (@nil A) in H1, H2.
  split; intros Hf; [apply H1|apply H2]; lia.
Qed.

Lemma list_commits_round_trip_witness :
  Client.list_commits 2 History.http "https://dev.azure.com/org" "p1" "r1"
    "main" "2024-01-01" = Some (Ok History.commits)
  /\ length History.commits = 250.
Proof.
  assert (Hs : Client.serves History.http History.url_at 200 History.commits).
  { intros k Hk. change (length History.commits / N.to_nat 200) with 1 in Hk.
    assert (Hk' : k = 0 \/ k = 1) by lia.
    destruct Hk' as [->| ->]; eexists; (split; [vm_compute; reflexivity|reflexivity]). }
  split; [|reflexivity].
  apply (proj1 (list_commits_round_trip History.http "https://dev.azure.com/org"
                  "p1" "r1" "main" "2024-01-01" History.commits 2 Hs)).
  change (length History.commits / 200) with 1. lia.
Defined.

Lemma commits_loop_failure {A} (http : string -> result (Client.Response A)) url_at t e :
  0 < t ->
  forall n fuel j commits,
    full_pages http url_at (N.of_nat t) (j + n) ->
    Client.get http (url_at (N.of_nat (j + n) * N.of_nat t)%N) = Raise e ->
    n < fuel ->
    Client.commits_loop fuel http url_at (N.of_nat t) (N.of_nat j * N.of_nat t) commits
    = Some (Raise e).
Proof.
  intros Ht. induction n as [|n IH]; intros fuel j commits Hfull Hfail Hf.
  - destruct fuel as [|fuel]; [lia|]. simpl. rewrite Nat.add_0_r in Hfail.
    rewrite Hfail. reflexivity.
  - destruct fuel as [|fuel]; [lia|].
    destruct (Hfull j ltac:(lia)) as (r & batch & Hg & Hv & Hl).
    simpl. rewrite Hg, Hv. simpl.
    destruct batch as [|x batch]; [simpl in Hl; lia|].
    change (S (length batch)) with (length (x :: batch)).
    rewrite Hl, N.ltb_irrefl.
    replace (N.of_nat j * N.of_nat t + N.of_nat t)%N
      with (N.of_nat (S j) * N.of_nat t)%N by lia.
    apply IH; [|rewrite <- Hfail; f_equal; f_equal; lia|lia].
    intros i Hi. apply Hfull. lia.
Qed.

(** X4. When the requests for the first [k] offsets return full pages of
    200 commits and the next request fails, [list_commits] raises that
    error: the commits collected from the earlier pages are not
    returned. *)
Theorem list_commits_failure {A} (http : string -> result (Client.Response A))
    org_url project_id repo_id branch_name from_date k e fuel :
  full_pages http
    (Client.commits_url org_url project_id repo_id branch_name from_date 200) 200 k ->
  Client.get http
    (Client.commits_url org_url project_id repo_id branch_name from_date 200
       (N.of_nat k * 200)%N) = Raise e ->
  k < fuel ->
  Client.list_commits fuel http org_url project_id repo_id branch_name from_date
    = Some (Raise e).
Proof.
  intros Hfull Hfail Hf. unfold Client.list_commits.
  apply (commits_loop_failure http _ 200 e ltac:(lia) k fuel 0 []); assumption.
Qed.

Lemma list_commits_failure_witness :
  Client.list_commits 2 History.http_broken "https://dev.azure.com/org" "p1" "r1"
    "main" "2024-01-01"
  = Some (Raise (HTTPError ("500 Server Error: Internal Server Error for url: "
                            ++ History.url_at 200)%string)).
Proof.
  apply (list_commits_failure History.http_broken "https://dev.azure.com/org" "p1" "r1"
           "main" "2024-01-01" 1).
  - intros j Hj. assert (j = 0) by lia. subst j.
    exists (Pages.ok (take 200 History.commits) None), (take 200 History.commits).
    split; [vm_compute; reflexivity|]. split; reflexivity.
  - vm_compute. reflexivity.
  - lia.
Defined.

(** ** The continuation parameter *)

Lemma hex_digit_safe n : Url.is_safe (Url.hex_digit n) = true.
Proof.
  unfold Url.hex_digit. generalize (N.to_nat n). intros m.
  do 16 (destruct m as [|m]; [reflexivity|]). reflexivity.
Qed.

Lemma quote_chars s a :
  Str.contains a (Url.quote s) = true -> Url.is_safe a = true \/ a = "%"%char.
Proof.
  induction s as [|c s IH]; cbn [Url.quote]; [discriminate|].
  destruct (Url.is_safe c) eqn:Ec; cbn [Str.contains]; intros H.
  - apply orb_true_iff in H as [H|H]; [|auto].
    apply Ascii.eqb_eq in H. subst. auto.
  - apply orb_true_iff in H as [H|H]; [apply Ascii.eqb_eq in H; subst; auto|].
    apply orb_true_iff in H as [H|H];
      [apply Ascii.eqb_eq in H; subst; auto using hex_digit_safe|].
    apply orb_true_iff in H as [H|H];
      [apply Ascii.eqb_eq in H; subst; auto using hex_digit_safe|auto].
Qed.

(** X5. The URL of a further page is the listing URL with one added
    parameter: the separator is [&] when the listing URL already has a
    query and [?] otherwise, and the quoted token holds no [&], [?], [=],
    [#] or space, so a token cannot add or cut a parameter.  An empty
    token asks for the listing URL itself, like no token. *)
Theorem page_url_parameter url token :
  token <> "" ->
  Client.page_url url (Some token)
  = (url ++ (if Str.contains "?" url then "&" else "?")
         ++ "continuationToken=" ++ Url.quote token)%string
  /\ Forall (fun c => Str.contains c (Url.quote token) = false)
       ["&"; "?"; "="; "#"; " "]%char
  /\ Client.page_url url (Some "") = url
  /\ Client.page_url url None = url.
Proof.
  intros Hne. split; [|split; [|split; reflexivity]].
  - unfold Client.page_url. destruct token; [contradiction|reflexivity].
  - repeat constructor;
      (destruct (Str.contains _ (Url.quote token)) eqn:E; [|reflexivity];
       apply quote_chars in E as [E|E]; discriminate E).
Qed.

Lemma page_url_parameter_witness :
  Client.page_url "https://h/items?recursionLevel=Full" (Some "a&b=c d")
  = "https://h/items?recursionLevel=Full&continuationToken=a%26b%3Dc%20d".
Proof.
  rewrite (proj1 (page_url_parameter "https://h/items?recursionLevel=Full" "a&b=c d"
                    ltac:(discriminate))).
  reflexivity.
Defined.

(** * More on the changed paths *)

Lemma record_change_created_subset acc ch :
  snd acc ⊆ fst acc -> snd (record_change acc ch) ⊆ fst (record_change acc ch).
Proof.
  intros H p Hp. destruct (record_change_spec acc ch p) as [R1 R2].
  apply R1. apply R2 in Hp as [Hp|(Hi & Hne & Hc)]; [left; auto|].
  right. repeat split; auto. destruct Hc as [Hc|[Hc _]]; [left; exact Hc|discriminate].
Qed.

Lemma scan_commits_created_subset t pid rid cids acc acc' :
  snd acc ⊆ fst acc ->
  scan_commits t pid rid cids acc = Ok acc' -> snd acc' ⊆ fst acc'.
Proof.
  revert acc. induction cids as [|cid cids IH]; intros acc Hs; simpl.
  - intros H. inversion H; subst. exact Hs.
  - destruct (commit_changes t pid rid cid) as [chs|e]; simpl; [|discriminate].
    apply IH. clear IH. revert acc Hs.
    induction chs as [|ch chs IHc]; intros acc Hs; simpl; [exact Hs|].
    apply IHc, record_change_created_subset, Hs.
Qed.

(** X6. Both modes make the same requests and differ only in the set
    they hand back.  So the created-only resolution returns whenever the
    full one does, and the other way round; one raises exactly the error
    the other raises; and every path of the created-only result is a
    path of the full result. *)
Theorem created_paths_subset t pid rid cids :
  (forall changed,
     list_changed_paths_for_commits t pid rid cids false = Ok changed ->
     exists created,
       list_changed_paths_for_commits t pid rid cids true = Ok created
       /\ created ⊆ changed)
  /\ (forall created,
       list_changed_paths_for_commits t pid rid cids true = Ok created ->
       exists changed,
         list_changed_paths_for_commits t pid rid cids false = Ok changed
         /\ created ⊆ changed)
  /\ (forall e,
       list_changed_paths_for_commits t pid rid cids false = Raise e
       <-> list_changed_paths_for_commits t pid rid cids true = Raise e).
Proof.
  unfold list_changed_paths_for_commits.
  destruct (scan_commits t pid rid cids (∅, ∅)) as [acc|e] eqn:E; simpl.
  - assert (Hs : snd acc ⊆ fst acc)
      by (eapply scan_commits_created_subset; [|exact E]; simpl; set_solver).
    split; [|split].
    + intros changed [= <-]. exists (snd acc). split; [reflexivity|exact Hs].
    + intros created [= <-]. exists (fst acc). split; [reflexivity|exact Hs].
    + intros e. split; discriminate.
  - split; [|split]; [discriminate|discriminate|].
    intros e'. split; intros H; exact H.
Qed.

Lemma created_paths_subset_witness :
  list_changed_paths_for_commits Window.tenant "P" "R" ["C2"] false
  = Ok ({["a.py"]} ∪ {["b.md"]})
  /\ exists created,
       list_changed_paths_for_commits Window.tenant "P" "R" ["C2"] true = Ok created
       /\ created ⊆ ({["a.py"]} ∪ {["b.md"]} : gset string).
Proof.
  assert (H : list_changed_paths_for_commits Window.tenant "P" "R" ["C2"] false
              = Ok ({["a.py"]} ∪ {["b.md"]})).
  { unfold list_changed_paths_for_commits. simpl.
    f_equal; try (apply set_eq; set_solver). }
  split; [exact H|].
  exact (proj1 (created_paths_subset Window.tenant "P" "R" ["C2"]) _ H).
Defined.

Lemma scan_commits_responses t pid rid cids :
  (forall cid, In cid cids -> exists chs, commit_changes t pid rid cid = Ok chs) ->
  exists chss,
    Forall2 (fun cid chs => commit_changes t pid rid cid = Ok chs) cids chss
    /\ forall chs, chs ∈ chss <->
         exists cid, In cid cids /\ commit_changes t pid rid cid = Ok chs.
Proof.
  induction cids as [|cid cids IH]; intros H.
  - exists []. split; [constructor|]. intros chs. split.
    + intros Hin. inversion Hin.
    + intros (c & [] & _).
  - destruct (H cid (or_introl eq_refl)) as [chs Hc].
    destruct IH as (chss & HF & Hm); [intros c Hin; apply H; right; exact Hin|].
    exists (chs :: chss). split; [constructor; assumption|].
    intros chs'. rewrite elem_of_cons, Hm. split.
    + intros [->|(c & Hin & Hc')]; [exists cid|exists c]; simpl; auto.
    + intros (c & [<-|Hin] & Hc'); [left; congruence|right; eauto].
Qed.

Lemma changed_paths_by_commit t pid rid cids created_only :
  (forall cid, In cid cids -> exists chs, commit_changes t pid rid cid = Ok chs) ->
  exists paths,
    list_changed_paths_for_commits t pid rid cids created_only = Ok paths
    /\ forall p, p ∈ paths <->
         exists cid chs ch, In cid cids /\ commit_changes t pid rid cid = Ok chs
                            /\ ch ∈ chs /\ touches created_only ch p.
Proof.
  intros H. destruct (scan_commits_responses t pid rid cids H) as (chss & HF & Hm).
  destruct (scan_commits_spec t pid rid cids chss HF (∅, ∅)) as (acc & Hs & Hacc).
  unfold list_changed_paths_for_commits. rewrite Hs. simpl.
  eexists. split; [reflexivity|]. intros p. destruct (Hacc p) as [H1 H2].
  assert (Hx : forall b, (exists chs ch, chs ∈ chss /\ ch ∈ chs /\ touches b ch p)
                         <-> exists cid chs ch, In cid cids
                               /\ commit_changes t pid rid cid = Ok chs
                               /\ ch ∈ chs /\ touches b ch p).
  { intros b. split.
    - intros (chs & ch & Hin & Hch & Ht). apply Hm in Hin as (cid & Hc & Hr). eauto 8.
    - intros (cid & chs & ch & Hc & Hr & Hch & Ht). exists chs, ch.
      split; [apply Hm; eauto|auto]. }
  destruct created_only; [rewrite H2|rewrite H1]; rewrite <- Hx; simpl;
    (split; [intros [Hp|?]; [set_solver|assumption]|auto]).
Qed.

(** X7. The result depends on which commits are given, not on their
    order or on repetitions: two lists with the same commit ids, all of
    whose requests succeed, give the same path-set. *)
Theorem changed_paths_order_free t pid rid cids cids' created_only :
  (forall cid, In cid cids <-> In cid cids') ->
  (forall cid, In cid cids -> exists chs, commit_changes t pid rid cid = Ok chs) ->
  exists paths,
    list_changed_paths_for_commits t pid rid cids created_only = Ok paths
    /\ list_changed_paths_for_commits t pid rid cids' created_only = Ok paths.
Proof.
  intros Hsame Hok.
  destruct (changed_paths_by_commit t pid rid cids created_only Hok) as (s1 & E1 & M1).
  destruct (changed_paths_by_commit t pid rid cids' created_only) as (s2 & E2 & M2).
  { intros cid Hin. apply Hok, Hsame, Hin. }
  exists s1. split; [exact E1|]. rewrite E2. f_equal. apply set_eq. intros p.
  rewrite M1, M2. split; intros (cid & chs & ch & Hin & Hrest);
    exists cid, chs, ch; (split; [apply Hsame, Hin|exact Hrest]).
Qed.

Lemma changed_paths_order_free_witness :
  exists paths,
    list_changed_paths_for_commits Window.tenant "P" "R" ["C1"; "C2"] false = Ok paths
    /\ list_changed_paths_for_commits Window.tenant "P" "R" ["C2"; "C1"; "C2"] false
       = Ok paths.
Proof.
  apply (changed_paths_order_free Window.tenant "P" "R" ["C1"; "C2"] ["C2"; "C1"; "C2"]).
  - intros cid. simpl. tauto.
  - intros cid [<-|[<-|[]]]; eexists; reflexivity.
Defined.

(** X8. The first commit whose request fails ends the resolution with
    that error, whatever the commits before it changed and whatever comes
    after it: no partial path-set is returned. *)
Theorem changed_paths_failure t pid rid before cid after created_only e :
  (forall c, In c before -> exists chs, commit_changes t pid rid c = Ok chs) ->
  commit_changes t pid rid cid = Raise e ->
  list_changed_paths_for_commits t pid rid (before ++ cid :: after) created_only
  = Raise e.
Proof.
  intros Hok Hfail. unfold list_changed_paths_for_commits.
  assert (H : forall acc, scan_commits t pid rid (before ++ cid :: after) acc = Raise e).
  { induction before as [|c before IH]; intros acc; simpl.
    - rewrite Hfail. reflexivity.
    - destruct (Hok c (or_introl eq_refl)) as [chs Hc]. rewrite Hc. simpl.
      apply IH. intros c' Hin. apply Hok. right. exact Hin. }
  rewrite H. reflexivity.
Qed.

Lemma changed_paths_failure_witness :
  list_changed_paths_for_commits Window.tenant "P" "R" (["C1"] ++ "C9" :: ["C2"]) true
  = Raise (HTTPError "404 Client Error").
Proof.
  apply (changed_paths_failure Window.tenant "P" "R" ["C1"] "C9" ["C2"] true).
  - intros c [<-|[]]. eexists. reflexivity.
  - reflexivity.
Defined.

(** * More on the classifier *)

Lemma contains_app_false c h t :
  Str.contains c (h ++ t)%string = false ->
  Str.contains c h = false /\ Str.contains c t = false.
Proof.
  induction h as [|a h IH]; simpl; [auto|].
  intros H. apply orb_false_iff in H as [H1 H2]. rewrite H1. auto.
Qed.

Lemma final_segment_of p :
  let name := Str.last_item (Str.rsplit1 "/" p) in
  Str.contains "/" name = false
  /\ (p = name \/ exists dir, p = (dir ++ String "/" name)%string).
Proof.
  unfold Str.rsplit1. destruct (Str.cut_last "/" p) as [[h t]|] eqn:E; simpl.
  - apply cut_last_some in E as [-> Ht]. split; [exact Ht|]. right. eauto.
  - split; [apply cut_last_none, E|auto].
Qed.

(** X9. Only the last segment of a path counts: a path under any
    directory, whatever dots the directory names hold, has the extension
    and the language of its file name. *)
Theorem classify_ignores_directory dir name :
  Str.contains "/" name = false ->
  ext_from_path (dir ++ String "/" name) = ext_from_path name
  /\ classify (dir ++ String "/" name) = classify name.
Proof.
  intros H. unfold classify.
  assert (E : ext_from_path (dir ++ String "/" name) = ext_from_path name).
  { unfold ext_from_path.
    rewrite (last_rsplit1_app "/" dir name H), (last_rsplit1_none "/" name H).
    reflexivity. }
  rewrite E. split; reflexivity.
Qed.

Lemma classify_ignores_directory_witness :
  ext_from_path "release-1.2/docs.d/README" = ""
  /\ classify "release-1.2/docs.d/README" = "Other".
Proof.
  destruct (classify_ignores_directory "release-1.2/docs.d" "README" eq_refl) as [H1 H2].
  split; [exact (eq_trans H1 eq_refl)|exact (eq_trans H2 eq_refl)].
Defined.

(** ** The case mapping *)

Lemma lower_ascii_not_upper a : Str.is_upper (Str.lower_ascii a) = false.
Proof. destruct a as [[] [] [] [] [] [] [] []]; reflexivity. Qed.

Lemma is_upper_bounds a :
  Str.is_upper a = true <-> (65 <= N_of_ascii a <= 90)%N.
Proof.
  unfold Str.is_upper. rewrite andb_true_iff, !N.leb_le. reflexivity.
Qed.

Lemma is_lower_letter_bounds a :
  is_lower_letter a = true <-> (97 <= N_of_ascii a <= 122)%N.
Proof.
  unfold is_lower_letter. rewrite andb_true_iff, !N.leb_le. reflexivity.
Qed.

Lemma payload_bound a x : Unicode.payload a = Some x -> (x < 64)%N.
Proof.
  unfold Unicode.payload.
  destruct (N.leb_spec 128 (N_of_ascii a)); simpl; [|discriminate].
  destruct (N.ltb_spec (N_of_ascii a) 192); [|discriminate].
  intros [= <-]. lia.
Qed.

Lemma read_point a r c w :
  Unicode.read (String a r) = Some (c, w) ->
  (c < 1114112)%N /\ ((c < 128)%N -> c = N_of_ascii a).
Proof.
  unfold Unicode.read. pose proof (N_ascii_bounded a) as Hb.
  destruct (N.ltb_spec (N_of_ascii a) 128); [intros [= <- <-]; lia|].
  destruct (N.ltb_spec (N_of_ascii a) 192); [discriminate|].
  destruct (N.ltb_spec (N_of_ascii a) 224).
  { destruct r as [|b r]; [discriminate|].
    destruct (Unicode.payload b) as [x|] eqn:Ex; [|discriminate].
    apply payload_bound in Ex.
    destruct (N.leb_spec 128 ((N_of_ascii a - 192) * 64 + x)); [|discriminate].
    intros [= <- <-]. lia. }
  destruct (N.ltb_spec (N_of_ascii a) 240).
  { destruct r as [|b [|b' r]]; try discriminate.
    destruct (Unicode.payload b) as [x|] eqn:Ex; [|discriminate].
    destruct (Unicode.payload b') as [y|] eqn:Ey; [|discriminate].
    apply payload_bound in Ex, Ey.
    destruct (N.leb_spec 2048 ((N_of_ascii a - 224) * 4096 + x * 64 + y)); [|discriminate].
    intros [= <- <-]. lia. }
  destruct r as [|b [|b' [|b'' r]]]; try discriminate.
  destruct (Unicode.payload b) as [x|] eqn:Ex; [|discriminate].
  destruct (Unicode.payload b') as [y|] eqn:Ey; [|discriminate].
  destruct (Unicode.payload b'') as [z|] eqn:Ez; [|discriminate].
  destruct (N.leb_spec 65536 ((N_of_ascii a - 240) * 262144 + x * 4096 + y * 64 + z));
    [|discriminate].
  destruct (N.ltb_spec ((N_of_ascii a - 240) * 262144 + x * 4096 + y * 64 + z) 1114112);
    [|discriminate].
  intros [= <- <-]. lia.
Qed.

Lemma read_none a r : Unicode.read (String a r) = None -> (128 <= N_of_ascii a)%N.
Proof.
  unfold Unicode.read. destruct (N.ltb_spec (N_of_ascii a) 128); [discriminate|auto].
Qed.

(** Decoding invents no ASCII character. *)
Lemma decode_from_items k s :
  Forall well_formed (Unicode.decode_from k s)
  /\ forall c, In (Unicode.Point c) (Unicode.decode_from k s) -> (c < 128)%N ->
       Str.contains (ascii_of_N c) s = true.
Proof.
  revert k. induction s as [|a r IH]; intros k; [split; [constructor|intros c []]|].
  cbn [Unicode.decode_from Str.contains]. destruct k as [|k].
  - destruct (Unicode.read (String a r)) as [[c0 w]|] eqn:E.
    + destruct (read_point _ _ _ _ E) as [Hc Ha].
      destruct (IH (Nat.pred w)) as [IH1 IH2]. split; [constructor; assumption|].
      intros c [[= <-]|Hin] Hlt.
      * rewrite (Ha Hlt), ascii_N_embedding, Ascii.eqb_refl. reflexivity.
      * rewrite (IH2 c Hin Hlt). apply orb_true_r.
    + apply read_none in E. destruct (IH 0%nat) as [IH1 IH2].
      split; [constructor; assumption|].
      intros c [[=]|Hin] Hlt. rewrite (IH2 c Hin Hlt). apply orb_true_r.
  - destruct (IH k) as [IH1 IH2]. split; [assumption|].
    intros c Hin Hlt. rewrite (IH2 c Hin Hlt). apply orb_true_r.
Qed.

Lemma simple_lower_in_cases t c :
  forallb range_ok t = true ->
  Unicode.simple_lower_in t c = c
  \/ ((Unicode.simple_lower_in t c < 1114112)%N
      /\ ((128 <= Unicode.simple_lower_in t c)%N
          \/ (97 <= Unicode.simple_lower_in t c <= 122)%N)).
Proof.
  induction t as [|[[[first last] step] target] t IH]; [left; reflexivity|].
  cbn [forallb Unicode.simple_lower_in]. intros H.
  apply andb_true_iff in H as [H Ht].
  destruct ((first <=? c)%N && (c <=? last)%N && ((c - first) mod step =? 0)%N) eqn:E;
    [|auto].
  right. unfold range_ok in H.
  apply andb_true_iff in E as [E _]. apply andb_true_iff in E as [E1 E2].
  apply andb_true_iff in H as [H H3]. apply andb_true_iff in H as [H1 H2].
  apply N.leb_le in E1, E2, H1. apply N.ltb_lt in H2.
  split; [lia|]. apply orb_true_iff in H3 as [H3|H3].
  - apply N.leb_le in H3. lia.
  - apply andb_true_iff in H3 as [H3 H4]. apply N.leb_le in H3, H4. lia.
Qed.

Lemma lower_ranges_ok : forallb range_ok Unicode.lower_ranges = true.
Proof. vm_compute. reflexivity. Qed.

Lemma lower_ranges_head :
  exists t, Unicode.lower_ranges = (65, 90, 1, 97)%N :: t.
Proof. eexists. reflexivity. Qed.

Lemma simple_lower_upper c :
  (65 <= c <= 90)%N -> Unicode.simple_lower_in Unicode.lower_ranges c = (c + 32)%N.
Proof.
  intros H. destruct lower_ranges_head as [t ->]. cbn [Unicode.simple_lower_in].
  replace ((65 <=? c)%N) with true by (symmetry; apply N.leb_le; lia).
  replace ((c <=? 90)%N) with true by (symmetry; apply N.leb_le; lia).
  rewrite N.mod_1_r. simpl. lia.
Qed.

(** Lower-casing a code point gives code points; an ASCII character
    among them is the character itself, not a capital, or one of the
    letters [a] to [z]. *)
Lemma to_lower_points c d :
  (c < 1114112)%N -> In d (Unicode.to_lower c) ->
  (d < 1114112)%N
  /\ ((d < 128)%N ->
      (d = c /\ Str.is_upper (ascii_of_N c) = false)
      \/ (97 <= d <= 122)%N).
Proof.
  intros Hc. unfold Unicode.to_lower. destruct (N.eqb_spec c 304) as [->|Hne].
  - intros [<-|[<-|[]]]; split; lia.
  - intros [<-|[]].
    destruct (simple_lower_in_cases Unicode.lower_ranges c lower_ranges_ok) as [E|[H1 H2]].
    + rewrite E. split; [assumption|]. intros Hlt. left. split; [reflexivity|].
      destruct (Str.is_upper (ascii_of_N c)) eqn:Eu; [|reflexivity].
      apply is_upper_bounds in Eu. rewrite N_ascii_embedding in Eu by lia.
      rewrite (simple_lower_upper c Eu) in E. lia.
    + split; [assumption|]. intros Hlt. right. lia.
Qed.

Lemma lower_from_items before after :
  Forall well_formed after ->
  Forall well_formed (Unicode.lower_from before after)
  /\ forall d, In (Unicode.Point d) (Unicode.lower_from before after) -> (d < 128)%N ->
       (In (Unicode.Point d) after /\ Str.is_upper (ascii_of_N d) = false)
       \/ (97 <= d <= 122)%N.
Proof.
  revert before. induction after as [|i rest IH]; intros before Hw;
    [split; [constructor|intros d []]|].
  inversion Hw as [|? ? Hi Hr]; subst.
  destruct (IH (i :: before) Hr) as [IH1 IH2].
  cbn [Unicode.lower_from]. split.
  - apply Forall_app. split; [|assumption].
    destruct i as [c|a]; cbn [Unicode.lower_item].
    + destruct (N.eqb_spec c 931).
      * constructor; [|constructor].
        destruct (Unicode.final_sigma before rest); simpl; lia.
      * apply List.Forall_forall. intros x Hx. apply in_map_iff in Hx as (d & <- & Hd).
        apply (to_lower_points c d Hi Hd).
    + constructor; [assumption|constructor].
  - intros d Hin Hlt. apply in_app_or in Hin as [Hin|Hin].
    + destruct i as [c|a]; cbn [Unicode.lower_item] in Hin.
      * destruct (N.eqb_spec c 931).
        -- destruct Hin as [[= <-]|[]].
           destruct (Unicode.final_sigma before rest); lia.
        -- apply in_map_iff in Hin as (d' & [= ->] & Hd).
           destruct (to_lower_points c d Hi Hd) as [_ H].
           destruct (H Hlt) as [[-> Hu]|Hl]; [left; split; [left; reflexivity|exact Hu]|auto].
      * destruct Hin as [[=]|[]].
    + destruct (IH2 d Hin Hlt) as [[H1 H2]|H]; [left; split; [right|]; assumption|auto].
Qed.

Lemma high_byte m a :
  (128 <= m < 256)%N -> (N_of_ascii a < 128)%N -> Ascii.eqb (ascii_of_N m) a = false.
Proof.
  intros Hm Ha. apply Ascii.eqb_neq. intros <-.
  rewrite N_ascii_embedding in Ha by lia. lia.
Qed.

Lemma utf8_ascii c a :
  (c < 1114112)%N -> (N_of_ascii a < 128)%N ->
  Str.contains a (Unicode.utf8 c) = true -> c = N_of_ascii a.
Proof.
  intros Hc Ha. unfold Unicode.utf8.
  pose proof (N.mod_lt c 64 ltac:(lia)) as M0.
  pose proof (N.mod_lt (c / 64) 64 ltac:(lia)) as M1.
  pose proof (N.mod_lt (c / 4096) 64 ltac:(lia)) as M2.
  pose proof (N.le_0_l (c mod 64)) as P0.
  pose proof (N.le_0_l ((c / 64) mod 64)) as P1.
  pose proof (N.le_0_l ((c / 4096) mod 64)) as P2.
  pose proof (N.le_0_l (c / 64)) as Q0.
  pose proof (N.le_0_l (c / 4096)) as Q1.
  pose proof (N.le_0_l (c / 262144)) as Q2.
  destruct (N.ltb_spec c 128).
  { cbn [Str.contains]. rewrite orb_false_r. intros E. apply Ascii.eqb_eq in E. subst a.
    rewrite N_ascii_embedding by lia. reflexivity. }
  destruct (N.ltb_spec c 2048).
  { assert (c / 64 < 32)%N by (apply N.Div0.div_lt_upper_bound; lia).
    cbn [Str.contains]. rewrite !high_byte by (assumption || lia). discriminate. }
  destruct (N.ltb_spec c 65536).
  { assert (c / 4096 < 16)%N by (apply N.Div0.div_lt_upper_bound; lia).
    cbn [Str.contains]. rewrite !high_byte by (assumption || lia). discriminate. }
  assert (c / 262144 < 5)%N by (apply N.Div0.div_lt_upper_bound; lia).
  cbn [Str.contains]. rewrite !high_byte by (assumption || lia). discriminate.
Qed.

Lemma contains_append c s t :
  Str.contains c (s ++ t)%string = Str.contains c s || Str.contains c t.
Proof.
  induction s as [|a s IH]; simpl; [reflexivity|]. rewrite IH. apply orb_assoc.
Qed.

(** Encoding invents no ASCII character either. *)
Lemma encode_ascii l a :
  Forall well_formed l -> (N_of_ascii a < 128)%N ->
  Str.contains a (Unicode.encode l) = true -> In (Unicode.Point (N_of_ascii a)) l.
Proof.
  intros Hw Ha. induction Hw as [|i l Hi Hl IH]; [discriminate|].
  cbn [Unicode.encode]. rewrite contains_append. intros H.
  apply orb_true_iff in H as [H|H]; [left|right; auto].
  destruct i as [c|b]; cbn [Unicode.encode_item] in H.
  - f_equal. apply utf8_ascii; assumption.
  - simpl in H. rewrite orb_false_r in H. apply Ascii.eqb_eq in H. subst b.
    simpl in Hi. lia.
Qed.

Lemma unicode_lower_ascii_byte s a :
  (N_of_ascii a < 128)%N -> Str.contains a (Unicode.lower s) = true ->
  (Str.contains a s = true /\ Str.is_upper a = false) \/ is_lower_letter a = true.
Proof.
  intros Ha H. unfold Unicode.lower in H.
  destruct (decode_from_items 0 s) as [Hw Hs]. fold (Unicode.decode s) in Hw, Hs.
  destruct (lower_from_items [] (Unicode.decode s) Hw) as [Hw' Hl].
  apply (encode_ascii _ _ Hw' Ha) in H.
  destruct (Hl _ H Ha) as [[Hin Hu]|Hr].
  - left. rewrite ascii_N_embedding in Hu. split; [|exact Hu].
    specialize (Hs _ Hin Ha). rewrite ascii_N_embedding in Hs. exact Hs.
  - right. apply is_lower_letter_bounds. exact Hr.
Qed.

Lemma ascii_lower_byte s a :
  Str.contains a (Str.ascii_lower s) = true ->
  (Str.contains a s = true /\ Str.is_upper a = false) \/ is_lower_letter a = true.
Proof.
  induction s as [|b s IH]; simpl; [discriminate|].
  intros H. apply orb_true_iff in H as [H|H].
  - apply Ascii.eqb_eq in H. subst a. unfold Str.lower_ascii.
    destruct (Str.is_upper b) eqn:Eu.
    + right. apply is_upper_bounds in Eu. apply is_lower_letter_bounds.
      pose proof (N_ascii_bounded b). rewrite N_ascii_embedding by lia. lia.
    + left. rewrite Ascii.eqb_refl. auto.
  - destruct (IH H) as [[H1 H2]|Hr]; [left; rewrite H1, orb_true_r; auto|auto].
Qed.

(** An ASCII character of a lower-cased string is a character of the
    string, not a capital, or one of the letters [a] to [z]. *)
Lemma lower_ascii_byte s a :
  (N_of_ascii a < 128)%N -> Str.contains a (Str.lower s) = true ->
  (Str.contains a s = true /\ Str.is_upper a = false) \/ is_lower_letter a = true.
Proof.
  intros Ha. unfold Str.lower. destruct (Str.is_ascii s).
  - apply ascii_lower_byte.
  - apply unicode_lower_ascii_byte, Ha.
Qed.

Lemma contains_lower c s :
  (N_of_ascii c < 128)%N -> is_lower_letter c = false ->
  Str.contains c s = false -> Str.contains c (Str.lower s) = false.
Proof.
  intros Ha Hl Hs. destruct (Str.contains c (Str.lower s)) eqn:E; [|reflexivity].
  destruct (lower_ascii_byte s c Ha E) as [[H _]|H]; congruence.
Qed.

Lemma lower_no_upper s a :
  Str.contains a (Str.lower s) = true -> Str.is_upper a = false.
Proof.
  intros H. destruct (Str.is_upper a) eqn:Eu; [|reflexivity].
  pose proof (proj1 (is_upper_bounds a) Eu) as Hb.
  destruct (lower_ascii_byte s a ltac:(lia) H) as [[_ Hu]|Hl]; [congruence|].
  apply is_lower_letter_bounds in Hl. lia.
Qed.

(** X10. The extension the classifier looks up never holds a dot, a
    slash or an upper-case ASCII letter. *)
Theorem ext_from_path_chars p :
  Str.contains "." (ext_from_path p) = false
  /\ Str.contains "/" (ext_from_path p) = false
  /\ forall a, Str.contains a (ext_from_path p) = true -> Str.is_upper a = false.
Proof.
  unfold ext_from_path. destruct (final_segment_of p) as [Hn _].
  set (name := Str.last_item (Str.rsplit1 "/" p)) in *.
  destruct (Str.contains "." name) eqn:Ed; simpl;
    [|split; [reflexivity|split; [reflexivity|discriminate]]].
  unfold Str.rsplit1. destruct (Str.cut_last "." name) as [[h t]|] eqn:E; simpl.
  - apply cut_last_some in E as [En Ht].
    rewrite En in Hn. apply contains_app_false in Hn as [_ Hn].
    simpl in Hn. split; [|split].
    + apply contains_lower; [reflexivity|reflexivity|exact Ht].
    + apply contains_lower; [reflexivity|reflexivity|exact Hn].
    + apply lower_no_upper.
  - apply cut_last_none in E. congruence.
Qed.

Lemma classify_range p :
  classify p = "Other" \/ In (classify p) (map snd EXT_TO_LANG).
Proof.
  unfold classify, lang_from_ext.
  destruct (dict_get EXT_TO_LANG (ext_from_path p)) as [l|] eqn:E; [|auto].
  right. eapply dict_get_value, E.
Qed.

(** X11. The labels the classifier can give are "Other" and the labels
    of the table, all of them: no key of the table is repeated, and each
    entry is reached by a file name with its key as extension. *)
Theorem classify_labels :
  NoDup (map fst EXT_TO_LANG)
  /\ Forall (fun entry => classify ("f." ++ fst entry) = snd entry) EXT_TO_LANG
  /\ forall l, (exists p, classify p = l)
               <-> (l = "Other" \/ In l (map snd EXT_TO_LANG)).
Proof.
  split; [|split].
  - apply NoDup_ListNoDup.
    apply (NoDup_count_occ' String.string_dec). intros k Hk. simpl in Hk.
    repeat (destruct Hk as [<-|Hk]; [reflexivity|]). contradiction.
  - repeat constructor.
  - intros l. split.
    + intros [p <-]. apply classify_range.
    + intros [->|Hin]; [exists "README"; reflexivity|].
      apply in_map_iff in Hin as ([k v] & <- & Hin). exists ("f." ++ k)%string.
      simpl in Hin. repeat (destruct Hin as [E|Hin]; [inversion E; reflexivity|]).
      contradiction.
Qed.

(** * More on the traversal *)

(** ** What holds along the loops *)

Lemma process_repos_invariant (Inv : State -> Prop) a t since p :
  (forall repo st st', Inv st -> repo_step a t since p repo st st' -> Inv st') ->
  forall rs st st', Inv st -> process_repos a t since p rs st = Ok st' -> Inv st'.
Proof.
  intros Hstep. induction rs as [|repo rs IH]; intros st st' Hi; simpl.
  - intros H. inversion H; subst. exact Hi.
  - destruct (process_repo a t since p repo st) as [st1|e] eqn:E; simpl; [|discriminate].
    apply IH. eapply Hstep; [exact Hi|]. apply process_repo_step, E.
Qed.

Lemma process_projects_invariant (Inv : State -> Prop) a t since :
  (forall st line, Inv st -> Inv (print_out st line)) ->
  (forall p repo st st', Inv st -> repo_step a t since p repo st st' -> Inv st') ->
  forall ps st st', Inv st -> process_projects a t since ps st = Ok st' -> Inv st'.
Proof.
  intros Hprint Hstep. induction ps as [|p ps IH]; intros st st' Hi; simpl.
  - intros H. inversion H; subst. exact Hi.
  - unfold process_project.
    destruct (repos t (proj_id p)) as [rs|e]; simpl; [|discriminate].
    destruct (process_repos a t since p rs _) as [st1|e] eqn:E; simpl; [|discriminate].
    apply IH. eapply (process_repos_invariant Inv); [apply Hstep| |exact E].
    apply Hprint, Hi.
Qed.

Lemma extends_refl st : extends st st.
Proof.
  unfold extends. repeat split; try (exists []; rewrite app_nil_r; reflexivity);
    intros; lia.
Qed.

Lemma extends_trans st1 st2 st3 : extends st1 st2 -> extends st2 st3 -> extends st1 st3.
Proof.
  intros ([r1 R1] & [o1 O1] & [e1 E1] & T1 & C1) ([r2 R2] & [o2 O2] & [e2 E2] & T2 & C2).
  unfold extends. repeat split.
  - exists (r1 ++ r2). rewrite R2, R1, app_assoc. reflexivity.
  - exists (o1 ++ o2). rewrite O2, O1, app_assoc. reflexivity.
  - exists (e1 ++ e2). rewrite E2, E1, app_assoc. reflexivity.
  - intros l. specialize (T1 l). specialize (T2 l). lia.
  - intros l. specialize (C1 l). specialize (C2 l). lia.
Qed.

Lemma counter_update_get_le c entries l :
  (counter_get c l <= counter_get (counter_update c entries) l)%N.
Proof.
  revert c. induction entries as [|[k n] entries IH]; intros c; simpl; [lia|].
  unfold counter_update in *. simpl. specialize (IH (counter_add c k n)).
  rewrite counter_get_add in IH.
  destruct (String.eqb_spec k l) as [->|]; lia.
Qed.

Lemma repo_step_extends a t since p repo st st' :
  repo_step a t since p repo st st' -> extends st st'.
Proof.
  intros [Hb|branch recent files e Hb Hr Hf|branch recent files Hb Hr Hf Hz
         |branch recent files st'' Hb Hr Hf Hz He]; unfold extends; simpl.
  - repeat split; try (exists []; rewrite app_nil_r; reflexivity); eauto; intros; lia.
  - repeat split; try (exists []; rewrite app_nil_r; reflexivity); eauto; intros; lia.
  - repeat split; try (exists []; rewrite app_nil_r; reflexivity); eauto; intros; lia.
  - apply emit_language_rows_ok in He as (_ & E1 & E2 & E3 & E4 & E5).
    rewrite E1, E2, E3, E4, E5.
    repeat split; try (exists []; rewrite app_nil_r; reflexivity); eauto;
      intros; apply counter_update_get_le.
Qed.

Lemma process_repos_extends a t since p rs st st' :
  process_repos a t since p rs st = Ok st' -> extends st st'.
Proof.
  intros H.
  apply (process_repos_invariant (fun s => extends st s) a t since p) with (rs := rs)
    (st := st); [|apply extends_refl|exact H].
  intros repo s s' Hs Hstep. apply (extends_trans _ _ _ Hs).
  eapply repo_step_extends, Hstep.
Qed.

Lemma print_out_extends st line : extends st (print_out st line).
Proof.
  unfold extends. simpl.
  repeat split; try (exists []; rewrite app_nil_r; reflexivity); eauto; intros; lia.
Qed.

Lemma process_projects_extends a t since ps st st' :
  process_projects a t since ps st = Ok st' -> extends st st'.
Proof.
  intros H.
  apply (process_projects_invariant (fun s => extends st s) a t since) with (ps := ps)
    (st := st); [| |apply extends_refl|exact H].
  - intros s line Hs. apply (extends_trans _ _ _ Hs), print_out_extends.
  - intros p repo s s' Hs Hstep. apply (extends_trans _ _ _ Hs).
    eapply repo_step_extends, Hstep.
Qed.

(** X12. Whatever a repository or a project adds, it adds at the end:
    after any part of the traversal the rows and the lines of both console
    streams written before are still there, unchanged and in place, and no
    count of either tenant counter has gone down. *)
Theorem traversal_extends a t since ps st st' :
  process_projects a t since ps st = Ok st' -> extends st st'.
Proof.
  revert st. induction ps as [|p ps IH]; intros st; simpl.
  - intros H. inversion H; subst. apply extends_refl.
  - unfold process_project.
    destruct (repos t (proj_id p)) as [rs|e]; simpl; [|discriminate].
    destruct (process_repos a t since p rs _) as [st1|e] eqn:E; simpl; [|discriminate].
    intros H. apply IH in H.
    apply (extends_trans _ (print_out st ("- " ++ proj_name p ++ ": "
                                          ++ pretty (length rs) ++ " repos")%string));
      [apply print_out_extends|].
    apply (extends_trans _ st1); [|exact H].
    eapply process_repos_extends, E.
Qed.

Lemma traversal_extends_witness :
  exists st',
    process_projects (Scenario.args false) Scenario.tenant None
      [ {| proj_id := "p1"; proj_name := "P" |} ]
      (append_row initial_state (placeholder "Old" "Bare" "")) = Ok st'
    /\ extends (append_row initial_state (placeholder "Old" "Bare" "")) st'.
Proof.
  destruct (process_projects (Scenario.args false) Scenario.tenant None
              [ {| proj_id := "p1"; proj_name := "P" |} ]
              (append_row initial_state (placeholder "Old" "Bare" ""))) as [st'|e] eqn:E;
    [|vm_compute in E; discriminate E].
  exists st'. split; [reflexivity|]. exact (traversal_extends _ _ _ _ _ _ E).
Defined.

(** ** Without a recency filter *)

Lemma process_repo_no_filter a t t' p repo st :
  (forall pid rid b, tree t pid rid b = tree t' pid rid b) ->
  process_repo a t None p repo st = process_repo a t' None p repo st.
Proof.
  intros Ht. unfold process_repo, recent_filter, list_files. simpl.
  destruct (Str.truthy (defaultBranch repo)) as [branch|]; [|reflexivity].
  rewrite Ht. reflexivity.
Qed.

Lemma process_projects_no_filter a t t' ps st :
  (forall pid, repos t pid = repos t' pid) ->
  (forall pid rid b, tree t pid rid b = tree t' pid rid b) ->
  process_projects a t None ps st = process_projects a t' None ps st.
Proof.
  intros Hr Ht. revert st. induction ps as [|p ps IH]; intros st; simpl; [reflexivity|].
  assert (E : process_project a t None p st = process_project a t' None p st).
  { unfold process_project. rewrite Hr.
    destruct (repos t' (proj_id p)) as [rs|e]; simpl; [|reflexivity].
    generalize (print_out st ("- " ++ proj_name p ++ ": " ++ pretty (length rs)
                              ++ " repos")%string).
    induction rs as [|repo rs IHr]; intros s; simpl; [reflexivity|].
    rewrite (process_repo_no_filter a t t' p repo s Ht).
    destruct (process_repo a t' None p repo s); simpl; [apply IHr|reflexivity]. }
  rewrite E. destruct (process_project a t' None p st); simpl; [apply IH|reflexivity].
Qed.

(** X13. When no threshold is configured (no [since_iso], [since_days]
    not positive) the run never uses the commit history: two tenants with
    the same projects, repositories and file trees give the same result,
    whatever their commit endpoints answer. *)
Theorem no_filter_ignores_commits clock a t t' :
  resolve_since clock a = None ->
  projects t = projects t' ->
  (forall pid, repos t pid = repos t' pid) ->
  (forall pid rid b, tree t pid rid b = tree t' pid rid b) ->
  main clock a t = main clock a t'.
Proof.
  intros Hs Hp Hr Ht. unfold main. rewrite Hs, Hp.
  destruct (Str.truthy (org_url a)); [|reflexivity].
  destruct (Str.truthy (pat a)); [|reflexivity].
  destruct (projects t') as [ps|e]; simpl; [|reflexivity].
  rewrite (process_projects_no_filter a t t' ps _ Hr Ht). reflexivity.
Qed.

Lemma no_filter_ignores_commits_witness :
  main Scenario.clock (Scenario.args false) Scenario.tenant
  = main Scenario.clock (Scenario.args false) Offline.tenant.
Proof.
  apply (no_filter_ignores_commits Scenario.clock (Scenario.args false)
           Scenario.tenant Offline.tenant); reflexivity.
Defined.

(** ** The rows of one repository *)

Lemma count_file_cases recent acc item :
  (count_file recent acc item = acc
   /\ forall items, kept recent (item :: items) = kept recent items)
  \/ (count_file recent acc item
      = ((fst acc + f_size item)%N,
         counter_add (snd acc) (classify (f_path item)) (f_size item))
      /\ forall items, kept recent (item :: items) = item :: kept recent items).
Proof.
  destruct acc as [t c]. unfold count_file, kept.
  destruct recent as [paths|]; simpl; [|right; auto].
  destruct (bool_decide (f_path item ∈ paths)); [right|left]; auto.
Qed.

Lemma count_files_get recent items acc l :
  counter_get (snd (fold_left (count_file recent) items acc)) l
  = (counter_get (snd acc) l + bytes_of_language l (kept recent items))%N.
Proof.
  revert acc. induction items as [|item items IH]; intros acc.
  - unfold bytes_of_language, byte_total. destruct recent; simpl; lia.
  - change (fold_left (count_file recent) (item :: items) acc)
      with (fold_left (count_file recent) items (count_file recent acc item)).
    rewrite IH. destruct (count_file_cases recent acc item) as [[E K]|[E K]];
      rewrite E, K; [reflexivity|].
    simpl. rewrite counter_get_add. unfold bytes_of_language, byte_total. simpl.
    destruct (String.eqb_spec (classify (f_path item)) l) as [->|]; simpl; lia.
Qed.

Lemma count_files_keys recent items acc l :
  In l (counter_keys (snd (fold_left (count_file recent) items acc)))
  <-> In l (counter_keys (snd acc))
      \/ exists f, In f (kept recent items) /\ classify (f_path f) = l.
Proof.
  revert acc. induction items as [|item items IH]; intros acc.
  - simpl. split; [auto|]. intros [H|(f & Hf & _)]; [exact H|].
    destruct recent; destruct Hf.
  - change (fold_left (count_file recent) (item :: items) acc)
      with (fold_left (count_file recent) items (count_file recent acc item)).
    rewrite IH. destruct (count_file_cases recent acc item) as [[E K]|[E K]];
      rewrite E, K; [reflexivity|].
    simpl. rewrite counter_keys_add_In. split.
    + intros [[H| ->]|(f & Hf & Hl)]; eauto 6.
    + intros [H|(f & [<-|Hf] & Hl)]; eauto 6.
Qed.

(** X14. A repository whose counted files total more than zero bytes
    (run without the exclude flag) gets one row per language met among
    those files, at least one, and no other row: each row carries the
    bytes of the files of its language (also when that is zero), and the
    rows together carry the bytes of all counted files. *)
Theorem repository_rows a t since p repo st branch recent files :
  exclude_non_code a = false ->
  Str.truthy (defaultBranch repo) = Some branch ->
  recent_filter a t since (proj_id p) repo (Str.remove_all "refs/heads/" branch)
    = Ok recent ->
  list_files t (proj_id p) (repo_id repo) (Str.remove_all "refs/heads/" branch)
    = (files, None) ->
  byte_total (kept recent files) <> 0%N ->
  exists st' entries,
    process_repo a t since p repo st = Ok st'
    /\ per_repo_rows st'
       = per_repo_rows st
         ++ map (language_row (proj_name p) (repo_name repo) branch) entries
    /\ entries <> []
    /\ NoDup (map fst entries)
    /\ (forall l, In l (map fst entries)
                  <-> exists f, In f (kept recent files) /\ classify (f_path f) = l)
    /\ (forall l b, In (l, b) entries -> b = bytes_of_language l (kept recent files))
    /\ counter_total entries = byte_total (kept recent files).
Proof.
  intros Hx Hb Hr Hf Hz.
  set (entries := snd (fold_left (count_file recent) files (0%N, []))).
  destruct (emit_language_rows_false a (proj_name p) (repo_name repo) branch entries st Hx)
    as [st' He].
  exists st', entries.
  destruct (count_files_spec recent files (0%N, [])) as (T1 & T2 & T3);
    [reflexivity|simpl; tauto|constructor|]. fold entries in T1, T2, T3.
  rewrite count_files_total in T1. simpl in T1.
  split; [apply process_repo_step; eapply step_languages; eauto|].
  split; [apply emit_language_rows_ok in He as (_ & E1 & _); exact E1|].
  split; [intros E; rewrite E in T1; unfold counter_total in T1; simpl in T1; lia|].
  split; [exact T3|]. split.
  - intros l. unfold entries. fold (counter_keys (snd (fold_left (count_file recent) files (0%N, [])))).
    rewrite count_files_keys. simpl. tauto.
  - split; [|rewrite T1; lia].
    intros l b Hin. rewrite <- (counter_get_In entries l b T3 Hin).
    unfold entries. rewrite count_files_get. simpl. lia.
Qed.

Lemma repository_rows_witness :
  exists st' entries,
    process_repo (Scenario.args false) Quiet.tenant_with_empty_file None Quiet.P Quiet.R
      initial_state = Ok st'
    /\ per_repo_rows st' = map (language_row "P" "R" "refs/heads/main") entries
    /\ counter_total entries = 100%N.
Proof.
  destruct (repository_rows (Scenario.args false) Quiet.tenant_with_empty_file None
              Quiet.P Quiet.R initial_state "refs/heads/main" None
              [{| f_path := "/a.py"; f_size := 100 |}; {| f_path := "/b.md"; f_size := 0 |}])
    as (st' & entries & H1 & H2 & _ & _ & _ & _ & H3);
    [reflexivity|reflexivity|reflexivity|reflexivity|discriminate|].
  exists st', entries. split; [exact H1|]. split; [exact H2|exact H3].
Defined.

(** ** The reports of a run *)

(** A run that wrote its reports went through the traversal. *)
Lemma main_run clock a t o rc :
  main clock a t = Ok o -> repo_csv o = Some rc ->
  exists ps st rows,
    projects t = Ok ps
    /\ process_projects a t (resolve_since clock a) ps
         (print_out initial_state ("Found " ++ pretty (length ps) ++ " projects")%string)
       = Ok st
    /\ consistent st
    /\ csv_rows rc = per_repo_rows st
    /\ tenant_rows (tenant_totals st) = Ok rows
    /\ tenant_csv o = Some {| csv_path := path_join (out a) "tenant_language_summary.csv";
                              csv_header := ["language"; "bytes"; "percent_all_files"];
                              csv_rows := rows |}
    /\ summary_lines (tenant_totals_code_only st) = Ok (summary o)
    /\ errors o = stderr st
    /\ exit_status o = 0%Z.
Proof.
  unfold main.
  destruct (Str.truthy (org_url a)); [destruct (Str.truthy (pat a))|];
    try (intros H; inversion H; subst; discriminate).
  destruct (projects t) as [ps|e]; simpl; [|discriminate].
  destruct (process_projects a t _ ps _) as [st|e] eqn:E; simpl; [|discriminate].
  destruct (tenant_rows (tenant_totals st)) as [rows|e] eqn:Er; simpl; [|discriminate].
  destruct (summary_lines (tenant_totals_code_only st)) as [lines|e] eqn:El; simpl;
    [|discriminate].
  intros H Hrc. inversion H; subst; clear H. simpl in Hrc. inversion Hrc; subst rc.
  exists ps, st, rows. simpl.
  split; [reflexivity|]. split; [exact E|]. split; [|auto 10].
  eapply process_projects_consistent; [|exact E].
  apply print_out_consistent, initial_consistent.
Qed.

Lemma tally_fold_total rows c :
  (forall r, In r rows -> language r = "" -> bytes r = 0%N) ->
  counter_total (fold_left tally_step rows c) = (counter_total c + report_bytes rows)%N.
Proof.
  revert c. induction rows as [|r rows IH]; intros c H; simpl.
  - unfold report_bytes. simpl. lia.
  - rewrite IH by (intros r' Hr'; apply H; right; exact Hr').
    unfold tally_step, report_bytes. simpl.
    destruct (String.eqb_spec (language r) "") as [E|E].
    + rewrite (H r (or_introl eq_refl) E). lia.
    + rewrite counter_total_add. lia.
Qed.

Lemma repo_step_placeholders a t since p repo st st' :
  (forall r, In r (per_repo_rows st) -> language r = "" -> bytes r = 0%N) ->
  repo_step a t since p repo st st' ->
  forall r, In r (per_repo_rows st') -> language r = "" -> bytes r = 0%N.
Proof.
  intros Hi [Hb|branch recent files e Hb Hr Hf|branch recent files Hb Hr Hf Hz
            |branch recent files st'' Hb Hr Hf Hz He]; simpl.
  - intros r Hin. apply in_app_iff in Hin as [Hin|[<-|[]]]; auto.
  - exact Hi.
  - intros r Hin. apply in_app_iff in Hin as [Hin|[<-|[]]]; auto.
  - apply emit_language_rows_ok in He as (_ & E1 & _). rewrite E1.
    destruct (count_files_spec recent files (0%N, [])) as (_ & T2 & _);
      [reflexivity|simpl; tauto|constructor|].
    intros r Hin. apply in_app_iff in Hin as [Hin|Hin]; [auto|].
    apply in_map_iff in Hin as ([l b] & <- & Hin). simpl. intros ->.
    exfalso. apply T2. apply (in_map fst) in Hin. exact Hin.
Qed.

(** X15. The two reports of a run account for the same bytes: the bytes
    column of the tenant report sums to the bytes column of the
    repository-level report. *)
Theorem reports_same_bytes clock a t o rc tc :
  main clock a t = Ok o -> repo_csv o = Some rc -> tenant_csv o = Some tc ->
  tenant_bytes (csv_rows tc) = report_bytes (csv_rows rc).
Proof.
  intros Hm Hrc Htc.
  destruct (main_run clock a t o rc Hm Hrc)
    as (ps & st & rows & _ & Hp & (C1 & _) & Er & Et & Ec & _).
  rewrite Htc in Ec. inversion Ec; subst tc. cbn [csv_rows]. rewrite Er.
  rewrite tenant_bytes_entries, (tenant_rows_entries _ _ Et).
  rewrite (counter_total_perm _ _ (most_common_perm _)), C1.
  unfold tally_of. rewrite tally_fold_total; [reflexivity|].
  apply (process_projects_invariant
           (fun s => forall r, In r (per_repo_rows s) -> language r = "" -> bytes r = 0%N)
           a t (resolve_since clock a)) with (ps := ps)
    (st := print_out initial_state ("Found " ++ pretty (length ps) ++ " projects")%string);
    [| | |exact Hp].
  - intros s line Hs. exact Hs.
  - intros p repo s s' Hs Hstep. eapply repo_step_placeholders; eauto.
  - intros r [].
Qed.

Lemma reports_same_bytes_witness :
  exists o rc tc,
    main Scenario.clock (Scenario.args false) Scenario.tenant = Ok o
    /\ repo_csv o = Some rc /\ tenant_csv o = Some tc
    /\ tenant_bytes (csv_rows tc) = report_bytes (csv_rows rc).
Proof.
  run_main o E. read_report repo_csv o E rc Erc. read_report tenant_csv o E tc Etc.
  exists o, rc, tc. repeat split; auto.
  exact (reports_same_bytes _ _ _ _ _ _ E Erc Etc).
Defined.

(** ** The console summary *)

Lemma summary_of_tenant_rows total entries rows lines :
  tenant_rows_of total entries = Ok rows ->
  summary_lines_of total entries = Ok lines ->
  lines = map summary_of_row rows.
Proof.
  revert rows lines. induction entries as [|[lang b] rest IH]; intros rows lines; simpl.
  - intros H1 H2. inversion H1; inversion H2; subst. reflexivity.
  - destruct (Float.percent b total) as [x|e]; simpl; [|discriminate].
    destruct (tenant_rows_of total rest) as [rows'|e]; simpl; [|discriminate].
    destruct (summary_lines_of total rest) as [lines'|e]; simpl; [|discriminate].
    intros H1 H2. inversion H1; inversion H2; subst. simpl.
    rewrite (IH rows' lines' eq_refl eq_refl). reflexivity.
Qed.

(** X16. The language lines of the console summary of a run repeat its
    tenant report: one line per tenant row, in the same order, with the
    row's language and the row's two-digit share.  The code-only counter
    of a run that returns equals the tenant counter, so the summary never
    leaves a language out. *)
Theorem summary_repeats_tenant_report clock a t o rc tc :
  main clock a t = Ok o -> repo_csv o = Some rc -> tenant_csv o = Some tc ->
  summary o = map summary_of_row (csv_rows tc)
  /\ exists ps st,
       projects t = Ok ps
       /\ process_projects a t (resolve_since clock a) ps
            (print_out initial_state ("Found " ++ pretty (length ps) ++ " projects")%string)
          = Ok st
       /\ tenant_totals_code_only st = tenant_totals st.
Proof.
  intros Hm Hrc Htc.
  destruct (main_run clock a t o rc Hm Hrc)
    as (ps & st & rows & Hp & Hst & (_ & C2 & _) & _ & Et & Ec & Es & _).
  split; [|exists ps, st; auto].
  rewrite Htc in Ec. inversion Ec; subst tc. cbn [csv_rows].
  rewrite C2 in Es. unfold tenant_rows in Et. unfold summary_lines in Es.
  eapply summary_of_tenant_rows; eassumption.
Qed.

Lemma summary_repeats_tenant_report_witness :
  exists o tc,
    main Scenario.clock (Scenario.args false) Scenario.tenant = Ok o
    /\ tenant_csv o = Some tc
    /\ summary o = map summary_of_row (csv_rows tc).
Proof.
  run_main o E. read_report repo_csv o E rc Erc. read_report tenant_csv o E tc Etc.
  exists o, tc. repeat split; auto.
  exact (proj1 (summary_repeats_tenant_report _ _ _ _ _ _ E Erc Etc)).
Defined.

(** ** The exclude flag *)

Lemma repo_step_flag a t since p repo st st' :
  exclude_non_code a = true ->
  (forall r, In r (per_repo_rows st) -> language r = "" /\ bytes r = 0%N) ->
  repo_step a t since p repo st st' ->
  forall r, In r (per_repo_rows st') -> language r = "" /\ bytes r = 0%N.
Proof.
  intros Hx Hi [Hb|branch recent files e Hb Hr Hf|branch recent files Hb Hr Hf Hz
               |branch recent files st'' Hb Hr Hf Hz He]; simpl.
  - intros r Hin. apply in_app_iff in Hin as [Hin|[<-|[]]]; auto.
  - exact Hi.
  - intros r Hin. apply in_app_iff in Hin as [Hin|[<-|[]]]; auto.
  - exfalso. apply emit_language_rows_ok in He as ([E|E] & _); [|congruence].
    destruct (count_files_spec recent files (0%N, [])) as (T1 & _);
      [reflexivity|simpl; tauto|constructor|].
    rewrite E, count_files_total in T1. unfold counter_total in T1. simpl in T1. lia.
Qed.

(** X17. With [exclude_non_code] set, a repository whose counted files
    total more than zero bytes makes its step raise [TypeError]; so a run
    with the flag that returns has met no such repository: every row of
    its repository-level report is a placeholder, its tenant report has
    no row and its summary no line. *)
Theorem exclude_flag_runs a :
  exclude_non_code a = true ->
  (forall t since p repo st branch recent files,
     Str.truthy (defaultBranch repo) = Some branch ->
     recent_filter a t since (proj_id p) repo (Str.remove_all "refs/heads/" branch)
       = Ok recent ->
     list_files t (proj_id p) (repo_id repo) (Str.remove_all "refs/heads/" branch)
       = (files, None) ->
     byte_total (kept recent files) <> 0%N ->
     process_repo a t since p repo st = Raise (TypeError "unhashable type: 'set'"))
  /\ (forall clock t o rc tc,
        main clock a t = Ok o -> repo_csv o = Some rc -> tenant_csv o = Some tc ->
        (forall r, In r (csv_rows rc) -> language r = "" /\ bytes r = 0%N)
        /\ csv_rows tc = [] /\ summary o = []).
Proof.
  intros Hx. split.
  - intros t since p repo st branch recent files Hb Hr Hf Hz.
    unfold process_repo. rewrite Hb, Hr. simpl. rewrite Hf. unfold consume_files.
    destruct (fold_left (count_file recent) files (0%N, [])) as [total lang_bytes] eqn:Hc.
    pose proof (count_files_total recent files (0%N, [])) as Ht.
    destruct (count_files_spec recent files (0%N, [])) as (T1 & _);
      [reflexivity|simpl; tauto|constructor|].
    rewrite Hc in Ht, T1. simpl in Ht, T1. rewrite N.add_0_l in Ht. subst total.
    destruct (N.eqb_spec (byte_total (kept recent files)) 0); [contradiction|].
    destruct lang_bytes as [|entry rest];
      [unfold counter_total in T1; simpl in T1; lia|].
    apply emit_language_rows_true, Hx.
  - intros clock t o rc tc Hm Hrc Htc.
    destruct (main_run clock a t o rc Hm Hrc)
      as (ps & st & rows & _ & Hp & Hc & Er & Et & Ec & Es & _).
    rewrite Htc in Ec. inversion Ec; subst tc. cbn [csv_rows]. rewrite Er.
    assert (Hall : forall r, In r (per_repo_rows st) -> language r = "" /\ bytes r = 0%N).
    { apply (process_projects_invariant
               (fun s => forall r, In r (per_repo_rows s)
                                   -> language r = "" /\ bytes r = 0%N)
               a t (resolve_since clock a)) with (ps := ps)
        (st := print_out initial_state
                 ("Found " ++ pretty (length ps) ++ " projects")%string);
        [| | |exact Hp].
      - intros s line Hs. exact Hs.
      - intros p repo s s' Hs Hstep. eapply repo_step_flag; eauto.
      - intros r []. }
    split; [exact Hall|].
    destruct (no_bytes_no_tally st Hc) as [E1 E2]; [intros r Hr; apply Hall, Hr|].
    rewrite E1 in Et. rewrite E2 in Es. inversion Et. inversion Es. auto.
Qed.

Lemma exclude_flag_runs_witness :
  process_repo (Scenario.args true) Scenario.tenant None
    {| proj_id := "p1"; proj_name := "P" |}
    {| repo_id := "r1"; repo_name := "R"; defaultBranch := Some "refs/heads/main" |}
    initial_state
  = Raise (TypeError "unhashable type: 'set'").
Proof.
  apply (proj1 (exclude_flag_runs (Scenario.args true) eq_refl) Scenario.tenant None
           {| proj_id := "p1"; proj_name := "P" |}
           {| repo_id := "r1"; repo_name := "R"; defaultBranch := Some "refs/heads/main" |}
           initial_state "refs/heads/main" None
           [{| f_path := "/a.py"; f_size := 100 |}; {| f_path := "/b.md"; f_size := 50 |}]);
    [reflexivity|reflexivity|reflexivity|discriminate].
Defined.

(** ** Every repository is accounted for *)

Lemma accounted_extends p repo st st' :
  extends st st' -> accounted p repo st -> accounted p repo st'.
Proof.
  intros ([rows Hr] & _ & [lines He] & _) [(row & Hin & H1 & H2)|(e & Hin)].
  - left. exists row. rewrite Hr, in_app_iff. auto.
  - right. exists e. rewrite He, in_app_iff. auto.
Qed.

Lemma repo_step_accounted a t since p repo st st' :
  repo_step a t since p repo st st' -> accounted p repo st'.
Proof.
  intros [Hb|branch recent files e Hb Hr Hf|branch recent files Hb Hr Hf Hz
         |branch recent files st'' Hb Hr Hf Hz He].
  - left. eexists. split; [simpl; apply in_app_iff; right; left; reflexivity|]. auto.
  - right. exists e. simpl. apply in_app_iff. right. left. reflexivity.
  - left. eexists. split; [simpl; apply in_app_iff; right; left; reflexivity|]. auto.
  - apply emit_language_rows_ok in He as (_ & E1 & _).
    destruct (count_files_spec recent files (0%N, [])) as (T1 & _);
      [reflexivity|simpl; tauto|constructor|].
    rewrite count_files_total in T1. simpl in T1.
    destruct (snd (fold_left (count_file recent) files (0%N, []))) as [|entry rest] eqn:El.
    + unfold counter_total in T1. simpl in T1. lia.
    + left. exists (language_row (proj_name p) (repo_name repo) branch entry).
      rewrite E1. split; [apply in_app_iff; right; left; reflexivity|]. auto.
Qed.

Lemma process_repos_accounted a t since p rs st st' :
  process_repos a t since p rs st = Ok st' ->
  forall repo, In repo rs -> accounted p repo st'.
Proof.
  revert st. induction rs as [|r rs IH]; intros st; simpl; [intros _ repo []|].
  destruct (process_repo a t since p r st) as [st1|e] eqn:E; simpl; [|discriminate].
  intros H repo [<-|Hin]; [|eapply IH; eauto].
  apply (accounted_extends _ _ st1); [eapply process_repos_extends, H|].
  eapply repo_step_accounted. apply process_repo_step, E.
Qed.

Lemma process_projects_accounted a t since ps st st' :
  process_projects a t since ps st = Ok st' ->
  forall p rs repo, In p ps -> repos t (proj_id p) = Ok rs -> In repo rs ->
    accounted p repo st'.
Proof.
  revert st. induction ps as [|q ps IH]; intros st; simpl; [intros _ p rs repo []|].
  destruct (process_project a t since q st) as [st1|e] eqn:E; simpl; [|discriminate].
  intros H p rs repo [<-|Hin] Hrs Hrepo; [|eapply IH; eauto].
  apply (accounted_extends _ _ st1); [eapply process_projects_extends, H|].
  unfold process_project in E. rewrite Hrs in E. simpl in E.
  eapply process_repos_accounted; eauto.
Qed.

(** X18. A run that writes its reports has left out no repository: each
    repository of each listed project has a row of its own in the
    repository-level report (a language row or the placeholder), or, when
    its file listing failed, a line on the error stream naming the project
    and the repository. *)
Theorem every_repository_accounted clock a t o rc ps :
  main clock a t = Ok o -> repo_csv o = Some rc -> projects t = Ok ps ->
  forall p rs repo, In p ps -> repos t (proj_id p) = Ok rs -> In repo rs ->
    (exists row, In row (csv_rows rc)
                 /\ project row = proj_name p /\ repository row = repo_name repo)
    \/ (exists e, In (error_line p repo e) (errors o)).
Proof.
  intros Hm Hrc Hps p rs repo Hp Hrs Hrepo.
  destruct (main_run clock a t o rc Hm Hrc)
    as (ps' & st & rows & Hps' & Hrun & _ & Er & _ & _ & _ & Ee & _).
  rewrite Hps in Hps'. inversion Hps'; subst ps'.
  rewrite Er, Ee.
  exact (process_projects_accounted _ _ _ _ _ _ Hrun p rs repo Hp Hrs Hrepo).
Qed.

Lemma every_repository_accounted_witness :
  exists o,
    main Scenario.clock Outage.args (Outage.tenant Outage.FilesFail) = Ok o
    /\ In (error_line Outage.P Outage.R1 "500 Server Error") (errors o).
Proof.
  run_main o E. read_report repo_csv o E rc Erc.
  exists o. split; [reflexivity|].
  destruct (every_repository_accounted _ _ _ _ _ [Outage.P] E Erc eq_refl
              Outage.P [Outage.R1; Outage.R2] Outage.R1)
    as [(row & Hin & H1 & H2)|(e & Hin)];
    [left; reflexivity|reflexivity|left; reflexivity| |].
  - exfalso. vm_compute in E. inversion E; subst o. simpl in Erc.
    inversion Erc; subst rc. simpl in Hin. destruct Hin as [<-|[]]. discriminate H2.
  - vm_compute in E. inversion E; subst o. simpl in Hin |- *.
    destruct Hin as [Hin|[]]. left. reflexivity.
Defined.

(** ** Range and width of the shares *)

Section Shares.
Local Open Scope Q_scope.

Lemma percent_hundredths_range b total x :
  (0 < total)%N -> (b <= total)%N -> Float.percent b total = Ok x ->
  (0 <= Float.hundredths x <= 10000)%Z.
Proof.
  intros Ht Hb Hx. destruct (percent_spec b total Ht) as (x' & Hx' & H1 & H2).
  rewrite Hx in Hx'. inversion Hx'; subst x'. clear Hx'.
  pose proof (hundredths_spec x) as Hh. apply Qabs_Qle_condition in Hh as [Hh1 Hh2].
  pose proof (QN_pos total Ht) as HT. pose proof (QN_nonneg b) as HB.
  assert (HbT : QN b <= QN total) by (unfold QN; rewrite <- Zle_Qle; lia).
  unfold Float.unit_roundoff in H1, H2.
  assert (Hx0 : 0 <= x).
  { destruct (Qlt_le_dec x 0) as [Hneg|]; [|assumption]. exfalso.
    assert (x * QN total < 0) by nra. nra. }
  assert (Hx1 : x <= 100 * (1 + 5 * (1 # 9007199254740992))).
  { apply (Qmult_le_r _ _ (QN total) HT).
    apply Qle_trans with (1 := H2). nra. }
  set (h := Float.hundredths x) in *.
  assert (Z1 : (h < 10001)%Z).
  { rewrite Zlt_Qlt. change (inject_Z 10001) with 10001. lra. }
  assert (Z2 : (-1 < h)%Z).
  { rewrite Zlt_Qlt. change (inject_Z (-1)) with (-1). lra. }
  lia.
Qed.

Lemma counter_entry_le_total (c : Counter) l b :
  In (l, b) c -> (b <= counter_total c)%N.
Proof.
  unfold counter_total, counter_values.
  induction c as [|[k v] c IH]; simpl; [contradiction|].
  intros [E|Hin]; [inversion E; lia|]. specialize (IH Hin). lia.
Qed.

Lemma tenant_rows_range c rows :
  tenant_rows c = Ok rows ->
  Forall (fun r => Qden (percent_all_files r) = 100%positive
                   /\ (0 <= Qnum (percent_all_files r) <= 10000)%Z) rows.
Proof.
  intros H2.
  destruct (tenant_rows_of_spec (total_or_1 c) (most_common c) (total_or_1_pos c))
    as (rows' & Hr & He & Hall & _).
  unfold tenant_rows in H2. rewrite H2 in Hr. inversion Hr; subst rows'. clear Hr.
  apply Forall_forall. intros r Hin. rewrite Forall_forall in Hall.
  destruct (Hall r Hin) as (x & Hx & Ep).
  assert (Hle : (t_bytes r <= total_or_1 c)%N).
  { assert (Hc : In (entry_of r) c).
    { apply In_most_common. rewrite <- He. apply in_map. apply list_elem_of_In, Hin. }
    apply counter_entry_le_total in Hc. unfold total_or_1.
    destruct (N.eqb_spec (counter_total c) 0); lia. }
  rewrite Ep. split; [reflexivity|].
  exact (percent_hundredths_range _ _ _ (total_or_1_pos c) Hle Hx).
Qed.

(** X19. Every share in the tenant report of a run is a two-digit decimal
    between 0 and 100. *)
Theorem shares_in_range clock a t o tc :
  main clock a t = Ok o -> tenant_csv o = Some tc ->
  Forall (fun r => Qden (percent_all_files r) = 100%positive
                   /\ 0 <= percent_all_files r <= 100) (csv_rows tc).
Proof.
  intros Hm Htc.
  destruct (main_outcome clock a t o Hm)
    as [(_ & _ & H & _)|(st & rows & _ & _ & _ & H2 & H3 & _)]; [congruence|].
  rewrite Htc in H3. inversion H3; subst tc. cbn [csv_rows].
  eapply Forall_impl; [apply (tenant_rows_range _ _ H2)|].
  intros r [Hd [R1 R2]]. split; [exact Hd|].
  destruct (percent_all_files r) as [n d]. simpl in *. subst d.
  unfold Qle. simpl. lia.
Qed.

Lemma shares_in_range_witness :
  exists o tc,
    main Scenario.clock (Scenario.args false) Scenario.tenant = Ok o
    /\ tenant_csv o = Some tc
    /\ Forall (fun r => Qden (percent_all_files r) = 100%positive
                        /\ 0 <= percent_all_files r <= 100) (csv_rows tc).
Proof.
  run_main o E. read_report tenant_csv o E tc Etc.
  exists o, tc. split; [reflexivity|]. split; [exact Etc|].
  exact (shares_in_range _ _ _ _ _ E Etc).
Defined.

End Shares.

Lemma length_append (s1 s2 : string) :
  String.length (s1 ++ s2) = String.length s1 + String.length s2.
Proof. induction s1 as [|a s1 IH]; simpl; [reflexivity|]. rewrite IH. reflexivity. Qed.

Lemma length_spaces n : String.length (spaces n) = n.
Proof. induction n as [|n IH]; simpl; [reflexivity|]. rewrite IH. reflexivity. Qed.

Lemma length_ljust w s : String.length s <= w -> String.length (ljust w s) = w.
Proof. intros H. unfold ljust. rewrite length_append, length_spaces. lia. Qed.

Lemma share_field_width h :
  (0 <= h <= 10000)%Z -> String.length (rjust 6 (fixed2 h)) = 6.
Proof.
  intros Hh.
  assert (Hall : forallb (fun k => Nat.eqb (String.length (rjust 6 (fixed2 (Z.of_nat k)))) 6)
                   (seq 0 (Z.to_nat 10001)) = true) by (vm_compute; reflexivity).
  rewrite forallb_forall in Hall.
  specialize (Hall (Z.to_nat h)). rewrite Z2Nat.id in Hall by lia.
  apply Nat.eqb_eq, Hall, in_seq. lia.
Qed.

Lemma label_width l : is_label l -> String.length l <= 15.
Proof.
  intros [->|Hin]; [simpl; lia|]. simpl in Hin.
  repeat (destruct Hin as [<-|Hin]; [simpl; lia|]). contradiction.
Qed.

Lemma repo_step_labels a t since p repo st st' :
  (forall r, In r (per_repo_rows st) -> language r = "" \/ is_label (language r)) ->
  repo_step a t since p repo st st' ->
  forall r, In r (per_repo_rows st') -> language r = "" \/ is_label (language r).
Proof.
  intros Hi [Hb|branch recent files e Hb Hr Hf|branch recent files Hb Hr Hf Hz
            |branch recent files st'' Hb Hr Hf Hz He]; simpl.
  - intros r Hin. apply in_app_iff in Hin as [Hin|[<-|[]]]; auto.
  - exact Hi.
  - intros r Hin. apply in_app_iff in Hin as [Hin|[<-|[]]]; auto.
  - apply emit_language_rows_ok in He as (_ & E1 & _). rewrite E1.
    intros r Hin. apply in_app_iff in Hin as [Hin|Hin]; [auto|].
    apply in_map_iff in Hin as ([l b] & <- & Hin). simpl. right.
    apply (in_map fst) in Hin. simpl in Hin.
    fold (counter_keys (snd (fold_left (count_file recent) files (0%N, [])))) in Hin.
    apply count_files_keys in Hin as [[]|(f & _ & <-)]. apply classify_range.
Qed.

(** X20. Every language line of the console summary of a run is 23
    characters long: the language in a field of 15, a space, the share in
    a field of 6 and the percent sign.  No label of the classifier is
    longer than its field and no share needs more than 6 characters, so
    the columns line up. *)
Theorem summary_lines_aligned clock a t o rc :
  main clock a t = Ok o -> repo_csv o = Some rc ->
  Forall (fun line => String.length line = 23) (summary o).
Proof.
  intros Hm Hrc.
  destruct (main_run clock a t o rc Hm Hrc)
    as (ps & st & rows & _ & Hp & (C1 & C2 & _) & _ & Et & _ & Es & _).
  rewrite C2 in Es.
  rewrite (summary_of_tenant_rows _ _ _ _ Et Es).
  assert (Hlab : forall r, In r (per_repo_rows st)
                           -> language r = "" \/ is_label (language r)).
  { apply (process_projects_invariant
             (fun s => forall r, In r (per_repo_rows s)
                                 -> language r = "" \/ is_label (language r))
             a t (resolve_since clock a)) with (ps := ps)
      (st := print_out initial_state
               ("Found " ++ pretty (length ps) ++ " projects")%string);
      [| | |exact Hp].
    - intros s line Hs. exact Hs.
    - intros p repo s s' Hs Hstep. eapply repo_step_labels; eauto.
    - intros r []. }
  pose proof (tenant_rows_range _ _ Et) as Hrange.
  pose proof (tenant_languages_keys _ _ (tenant_rows_entries _ _ Et)) as Hperm.
  apply Forall_forall. intros line Hin. apply list_elem_of_In in Hin.
  apply in_map_iff in Hin as (r & <- & Hr).
  rewrite Forall_forall in Hrange.
  destruct (Hrange r (proj2 (list_elem_of_In _ _) Hr)) as [_ Hh].
  assert (Hl : is_label (t_language r)).
  { assert (Hk : In (t_language r) (counter_keys (tenant_totals st)))
      by (apply (Permutation_in _ Hperm), in_map, Hr).
    rewrite C1 in Hk. apply tally_keys in Hk as (Hne & r' & Hr' & El).
    destruct (Hlab r' Hr') as [E|E]; [congruence|]. rewrite <- El. exact E. }
  unfold summary_of_row. rewrite !length_append.
  rewrite (length_ljust 15 _ (label_width _ Hl)), (share_field_width _ Hh). reflexivity.
Qed.

Lemma summary_lines_aligned_witness :
  exists o,
    main Scenario.clock (Scenario.args false) Scenario.tenant = Ok o
    /\ Forall (fun line => String.length line = 23) (summary o).
Proof.
  run_main o E. read_report repo_csv o E rc Erc.
  exists o. split; [reflexivity|].
  exact (summary_lines_aligned _ _ _ _ _ E Erc).
Defined.

(** ** The branch name *)

Lemma remove_all_absent old s fuel :
  occurs old s = false -> Str.remove_all_fuel fuel old s = s.
Proof.
  revert s. induction fuel as [|fuel IH]; intros s; simpl; [reflexivity|].
  destruct s as [|c s]; simpl.
  - destruct (Str.strip_prefix old ""); [discriminate|reflexivity].
  - destruct (Str.strip_prefix old (String c s)); [discriminate|].
    intros H. rewrite IH by exact H. reflexivity.
Qed.

Lemma strip_prefix_app old s : Str.strip_prefix old (old ++ s) = Some s.
Proof.
  induction old as [|c old IH]; simpl; [reflexivity|].
  rewrite Ascii.eqb_refl. exact IH.
Qed.

(** X21. A default branch given as [refs/heads/] followed by a name that
    does not hold that text is listed under the name alone, and a branch
    without that text is listed as it is. *)
Theorem branch_name_stripped b :
  occurs "refs/heads/" b = false ->
  Str.remove_all "refs/heads/" ("refs/heads/" ++ b) = b
  /\ Str.remove_all "refs/heads/" b = b.
Proof.
  intros H. split.
  - unfold Str.remove_all.
    change (Str.remove_all_fuel (S ?n) ?old ?s)
      with (match Str.strip_prefix old s with
            | Some rest => Str.remove_all_fuel n old rest
            | None => match s with
                      | EmptyString => EmptyString
                      | String a r => String a (Str.remove_all_fuel n old r)
                      end
            end).
    rewrite strip_prefix_app. apply remove_all_absent, H.
  - apply remove_all_absent, H.
Qed.

Lemma branch_name_stripped_witness :
  Str.remove_all "refs/heads/" "refs/heads/feature/login" = "feature/login".
Proof.
  exact (proj1 (branch_name_stripped "feature/login" eq_refl)).
Defined.

(** ** The organisation URL *)

Lemma rstrip_slash_app_slash s : Client.rstrip_slash (s ++ "/") = Client.rstrip_slash s.
Proof.
  induction s as [|a s IH]; simpl; [reflexivity|]. rewrite IH. reflexivity.
Qed.

Lemma rstrip_slash_no_trailing s :
  Client.rstrip_slash s <> (Client.rstrip_slash s ++ "/")%string
  /\ forall h, Client.rstrip_slash s <> (h ++ "/")%string.
Proof.
  assert (H : forall h, Client.rstrip_slash s <> (h ++ "/")%string).
  { induction s as [|a s IH]; simpl; intros h.
    - destruct h; discriminate.
    - destruct (Client.rstrip_slash s) as [|b r] eqn:E.
      + destruct (Ascii.eqb_spec a "/") as [->|Hne].
        * destruct h; discriminate.
        * destruct h as [|c h]; simpl; intros H; inversion H; [congruence|].
          destruct h; discriminate.
      + destruct h as [|c h]; simpl; [discriminate|].
        intros H. inversion H; subst. eapply IH. eassumption. }
  split; [apply H|exact H].
Qed.

(** X22. Slashes at the end of the configured organisation URL make no
    difference: every request URL is built on the URL with its trailing
    slashes removed, which never itself ends with a slash, so an extra
    slash at the end gives the same four listing URLs. *)
Theorem trailing_slash_ignored org_url :
  (forall h, Client.rstrip_slash org_url <> (h ++ "/")%string)
  /\ Client.projects_url (org_url ++ "/") = Client.projects_url org_url
  /\ (forall pid, Client.repos_url (org_url ++ "/") pid = Client.repos_url org_url pid)
  /\ (forall pid rid b,
        Client.files_url (org_url ++ "/") pid rid b = Client.files_url org_url pid rid b)
  /\ (forall pid rid b d top skip,
        Client.commits_url (org_url ++ "/") pid rid b d top skip
        = Client.commits_url org_url pid rid b d top skip).
Proof.
  split; [apply rstrip_slash_no_trailing|].
  unfold Client.projects_url, Client.repos_url, Client.files_url, Client.commits_url.
  rewrite rstrip_slash_app_slash. repeat split; reflexivity.
Qed.

Lemma trailing_slash_ignored_witness :
  Client.projects_url "https://dev.azure.com/org/"
  = Client.projects_url "https://dev.azure.com/org".
Proof.
  exact (proj1 (proj2 (trailing_slash_ignored "https://dev.azure.com/org"))).
Defined.

Lemma ext_from_path_chars_witness :
  ext_from_path "docs/Notes.TXT" = "txt" /\ Str.is_upper "t" = false.
Proof.
  split; [reflexivity|].
  apply (proj2 (proj2 (ext_from_path_chars "docs/Notes.TXT")) "t"%char). reflexivity.
Defined.
